(** * Ice: route patterns, matchers and the router

    A shallow embedding of the routing core of [ice.py] (classes [Router],
    [WildcardRoute], [Wildcard] and [RegexRoute]) and the properties of
    route registration and resolution.

    Python values are modelled as follows.
    - [str] is [string]; a character is one of the code points 0..255.
    - [int] is [Z]; the conversion [int(s)] of a string is [int_of_str],
      which fails as the interpreter does on a literal of more than 4300
      digits.
    - a [dict] is a [gmap]; a [collections.defaultdict] is a [gmap] whose
      subscript inserts the default value when the key is missing.
    - a compiled regular expression of the [re] module is a syntax tree
      [regex] run by a backtracking matcher ([run]) that tries alternatives
      in the order of the [re] module: left alternative first, longest
      repetition first. The trees are those of the patterns that the code
      itself compiles; the parser of [re.compile] for the patterns of
      regex routes is a parameter ([re_compile]).
    - an exception is a value of [exn] in the [result] monad; [Router.add]
      returns the router as the call leaves it together with its result,
      since a call that raises may already have changed the router.

    The application around the router ([MultiDict], [Request], [Response],
    [Ice.__call__] with its error pages, and [cube]) is embedded in the
    same way. What the application calls outside of [ice.py] is a
    parameter: the table [Response.responses] of [http.server], the codec
    of [str.encode], [urllib.parse.parse_qsl], [cgi.FieldStorage], which
    gives the fields of the input or raises, and the callbacks, which are
    functions of the request and the response. An exception of the
    application is a value of [raised] in the [outcome] monad. [Ice.static], [Ice.download], [Ice.run] and [Ice.exit] work on
    the file system and on a server, and are not embedded. *)

From Stdlib Require Import ZArith List Ascii String Bool Lia Sorted.
From stdpp Require Import base option list strings gmap.

Open Scope string_scope.

(** ** Characters and strings *)

Definition chars (s : string) : list ascii := list_ascii_of_string s.
Definition str (l : list ascii) : string := string_of_list_ascii l.

Definition LF : ascii := "010"%char.
Definition code (c : ascii) : nat := nat_of_ascii c.
Definition in_range (lo hi : nat) (c : ascii) : bool :=
  (lo <=? code c)%nat && (code c <=? hi)%nat.

(** [\d] on the code points 0..255: the decimal digits. *)
Definition is_digit (c : ascii) : bool := in_range 48 57 c.

(** [\w] on the code points 0..255: the characters that [str.isalnum]
    accepts, and the underscore. *)
Definition is_word (c : ascii) : bool :=
  in_range 48 57 c || in_range 65 90 c || (code c =? 95)%nat
  || in_range 97 122 c || (code c =? 170)%nat || in_range 178 179 c
  || (code c =? 181)%nat || in_range 185 186 c || in_range 188 190 c
  || in_range 192 214 c || in_range 216 246 c || in_range 248 255 c.

(** ** The [re] module: syntax trees and the backtracking matcher *)

Inductive regex : Type :=
| Eps : regex                       (* the empty pattern *)
| Cls : (ascii -> bool) -> regex    (* one character of a set *)
| Seq : regex -> regex -> regex     (* r1 r2 *)
| Alt : regex -> regex -> regex     (* r1|r2 *)
| Star : regex -> regex             (* r*, greedy *)
| Grp : nat -> regex -> regex       (* capturing group number i: (r) *)
| Bol : regex                       (* ^ *)
| Eol : regex.                      (* $ *)

Definition Chr (c : ascii) : regex := Cls (Ascii.eqb c).
Definition Dot : regex := Cls (fun c => negb (Ascii.eqb c LF)).
Definition NotChr (c : ascii) : regex := Cls (fun c' => negb (Ascii.eqb c' c)).
Definition Rng (lo hi : ascii) : regex := Cls (in_range (code lo) (code hi)).
Definition Plus (r : regex) : regex := Seq r (Star r).
Definition Opt (r : regex) : regex := Alt r Eps.

(** The pattern that [re.escape] makes of a string: its characters, each
    matched as it is. *)
Fixpoint Lit (l : list ascii) : regex :=
  match l with
  | [] => Eps
  | c :: l' => Seq (Chr c) (Lit l')
  end.

(** The groups of a match in progress: group number to matched text. A
    group that took no part in the match has no entry ([None] in Python). *)
Abbreviation groups := (gmap nat string).

(** A position of the matcher: the index in the subject, the text that is
    left, and the groups set so far. *)
Record mstate : Type := MState { m_pos : nat; m_rest : list ascii; m_groups : groups }.

Section Matcher.
Context {A : Type}.

Definition at_eol (s : list ascii) : bool :=
  match s with
  | [] => true
  | [c] => Ascii.eqb c LF
  | _ => false
  end.

(** The loop of a greedy repetition: [body] runs the repeated pattern
    once. An iteration that consumes no character is not taken. Every
    iteration consumes a character, so [n], the number of characters
    left, bounds the number of iterations. *)
Fixpoint star_loop (body : (mstate -> option A) -> mstate -> option A)
    (k : mstate -> option A) (n : nat) (st : mstate) : option A :=
  match n with
  | O => k st
  | S n' =>
      match body (fun st' => if (m_pos st <? m_pos st')%nat
                             then star_loop body k n' st' else None) st with
      | Some x => Some x
      | None => k st
      end
  end.

(** [run r k st] matches [r] at [st] and hands every way of matching it,
    in priority order, to the continuation [k] until [k] accepts one. *)
Fixpoint run (r : regex) (k : mstate -> option A) (st : mstate) : option A :=
  match r with
  | Eps => k st
  | Cls f =>
      match m_rest st with
      | c :: s' => if f c then k (MState (S (m_pos st)) s' (m_groups st)) else None
      | [] => None
      end
  | Seq r1 r2 => run r1 (run r2 k) st
  | Alt r1 r2 =>
      match run r1 k st with
      | Some x => Some x
      | None => run r2 k st
      end
  | Star r1 => star_loop (run r1) k (List.length (m_rest st)) st
  | Grp i r1 =>
      run r1 (fun st' =>
                k (MState (m_pos st') (m_rest st')
                     (<[i := str (take (m_pos st' - m_pos st) (m_rest st))]>
                        (m_groups st')))) st
  | Bol => if (m_pos st =? 0)%nat then k st else None
  | Eol => if at_eol (m_rest st) then k st else None
  end.
End Matcher.

(** A match object: the span of the whole match and the groups. *)
Record Match : Type := MkMatch { m_start : nat; m_end : nat; m_group : groups }.

(** [match.group(i)] for [i >= 1]: [None] stands for Python's [None]. *)
Definition group (m : Match) (i : nat) : option string := m_group m !! i.

(** [match.groups()] of a pattern with [n] groups. *)
Definition groups_tuple (n : nat) (m : Match) : list (option string) :=
  map (group m) (seq 1 n).

(** The match of [r] that starts at index [p], where [s] is left. *)
Definition match_at (r : regex) (p : nat) (s : list ascii) : option Match :=
  run r (fun st => Some (MkMatch p (m_pos st) (m_groups st))) (MState p s ∅).

(** [search]: the first index, from [p] on, at which [r] matches. *)
Fixpoint search_from (r : regex) (p : nat) (s : list ascii) : option Match :=
  match match_at r p s with
  | Some m => Some m
  | None =>
      match s with
      | [] => None
      | _ :: s' => search_from r (S p) s'
      end
  end.

(** A compiled pattern object: [pattern.groups], [pattern.groupindex] (a
    dict, in insertion order) and [pattern.search]. *)
Record Pattern : Type := MkPattern {
  p_groups : nat;
  p_groupindex : list (string * nat);
  p_search : string -> option Match
}.

(** The pattern object of a syntax tree with [n] groups. *)
Definition compiled (r : regex) (n : nat) (gi : list (string * nat)) : Pattern :=
  MkPattern n gi (fun s => search_from r 0 (chars s)).

(** [pattern.findall(s)] for a pattern without groups whose matches are
    never empty: the matched texts, left to right, each search resuming
    where the last match ended. *)
Fixpoint findall_from (r : regex) (fuel p : nat) (s : list ascii) : list string :=
  match fuel with
  | O => []
  | S fuel' =>
      match search_from r p s with
      | None => []
      | Some m =>
          str (take (m_end m - m_start m) (drop (m_start m - p) s))
            :: findall_from r fuel' (m_end m) (drop (m_end m - p) s)
      end
  end.

Definition findall (r : regex) (s : string) : list string :=
  findall_from r (String.length s) 0 (chars s).

(** ** Python values, exceptions and built-ins *)

(** The values a route hands to its callback: [str], [int], or [None]. *)
Inductive value : Type :=
| VStr (s : string)
| VInt (z : Z)
| VNone.

Definition of_group (g : option string) : value :=
  match g with
  | Some s => VStr s
  | None => VNone
  end.

Inductive route_error : Type :=
| InvalidWildcardName   (* 'Invalid wildcard name {!r} in {!r}' *)
| InvalidWildcardType.  (* 'Invalid wildcard type {!r} in {!r}' *)

(** The exceptions of the routing code. A [RouteError] carries the two
    strings that its message is formatted from. *)
Inductive exn : Type :=
| RouteError (kind : route_error) (offending spec : string)
| ReError (pattern : string)
| IndexError
| TypeError
| ValueError.

Inductive result (A : Type) : Type :=
| Ok (a : A)
| Raise (e : exn).
Arguments Ok {A} a.
Arguments Raise {A} e.

#[global] Instance result_ret : MRet result := fun A a => Ok a.
#[global] Instance result_bind : MBind result := fun A B f m =>
  match m with
  | Ok a => f a
  | Raise e => Raise e
  end.

(** [s.startswith(p)] and [s.endswith(p)]. *)
Definition startswith (s p : string) : bool := String.prefix p s.
Definition endswith (s p : string) : bool :=
  String.prefix (str (rev (chars p))) (str (rev (chars s))).

(** [s[n:]] and [s[1:-1]]. *)
Definition slice_from (n : nat) (s : string) : string := str (drop n (chars s)).
Definition slice_1_m1 (s : string) : string := str (removelast (tail (chars s))).

(** [s.split(sep, 1)]: cut at the first [sep], when there is one. *)
Fixpoint split_once (sep : ascii) (l : list ascii) : option (list ascii * list ascii) :=
  match l with
  | [] => None
  | c :: l' =>
      if Ascii.eqb c sep then Some ([], l')
      else match split_once sep l' with
           | Some (a, b) => Some (c :: a, b)
           | None => None
           end
  end.

Definition split1 (sep : ascii) (s : string) : list string :=
  match split_once sep (chars s) with
  | Some (a, b) => [str a; str b]
  | None => [s]
  end.

(** The value of a decimal digit. *)
Definition digit_val (c : ascii) : Z := Z.of_nat (code c) - 48.

Definition digits_val (l : list ascii) : Z :=
  fold_left (fun acc c => 10 * acc + digit_val c)%Z l 0%Z.

Definition all_digits (l : list ascii) : bool :=
  match l with
  | [] => false
  | _ => forallb is_digit l
  end.

(** The integer that a plain literal denotes: an optional sign and decimal
    digits, however many; [None] for every other string. It is what
    [int(s)] returns for such a literal that it converts, see
    [int_of_str]. *)
Definition py_int (s : string) : option Z :=
  match chars s with
  | c :: l =>
      if Ascii.eqb c "-" then
        if all_digits l then Some (- digits_val l)%Z else None
      else if Ascii.eqb c "+" then
        if all_digits l then Some (digits_val l) else None
      else if all_digits (c :: l) then Some (digits_val (c :: l)) else None
  | [] => None
  end.

(** The canonical decimal string of an integer: what [str(n)] returns
    for a number of at most [int_max_str_digits] digits. *)
Definition digit_char (d : Z) : ascii := ascii_of_nat (Z.to_nat (d + 48)).

Fixpoint decimal (fuel : nat) (n : Z) (acc : list ascii) : list ascii :=
  match fuel with
  | O => acc
  | S fuel' =>
      let acc' := digit_char (n mod 10) :: acc in
      if (n <? 10)%Z then acc' else decimal fuel' (n / 10) acc'
  end.

Definition py_str (n : Z) : string :=
  if (n <? 0)%Z
  then str ("-"%char :: decimal (S (Z.to_nat (Z.log2 (- n)))) (- n) [])
  else str (decimal (S (Z.to_nat (Z.log2 n))) n []).

(** [int(s)] for a string [s]. The interpreter converts at most
    [sys.get_int_max_str_digits()] digits, 4300 unless it is set
    otherwise, and raises [ValueError] for a literal with more. [int]
    strips white space at both ends, takes an optional sign, and takes
    single underscores between digits. [None] stands for [ValueError]. *)
Definition int_max_str_digits : nat := 4300.

Definition int_space (c : ascii) : bool :=
  in_range 9 13 c || (code c =? 32)%nat || (code c =? 133)%nat || (code c =? 160)%nat.

Fixpoint drop_spaces (l : list ascii) : list ascii :=
  match l with
  | c :: l' => if int_space c then drop_spaces l' else l
  | [] => []
  end.

Definition strip (l : list ascii) : list ascii :=
  rev (drop_spaces (rev (drop_spaces l))).

(** The digits of a run of digits with single underscores between them;
    [after_digit] tells whether the character before is a digit. *)
Fixpoint digit_groups (after_digit : bool) (l : list ascii) : option (list ascii) :=
  match l with
  | [] => if after_digit then Some [] else None
  | c :: l' =>
      if is_digit c then cons c <$> digit_groups true l'
      else if Ascii.eqb c "_" then
        if after_digit then digit_groups false l' else None
      else None
  end.

(** Whether the text starts with a minus sign, and the text after the
    sign. *)
Definition sign_body (l : list ascii) : bool * list ascii :=
  match l with
  | c :: l' =>
      if Ascii.eqb c "-" then (true, l')
      else if Ascii.eqb c "+" then (false, l')
      else (false, l)
  | [] => (false, [])
  end.

Definition int_of_str (s : string) : option Z :=
  let sb := sign_body (strip (chars s)) in
  match digit_groups false (snd sb) with
  | Some ds =>
      if (int_max_str_digits <? List.length ds)%nat then None
      else Some (if fst sb then - digits_val ds else digits_val ds)%Z
  | None => None
  end.

(** ** class Wildcard *)

Module Wildcard.

(** The keys of [_types_re]. *)
Inductive type : Type := Tstr | Tpath | Tint | Tposint | Tnegint.

Definition type_of_string (s : string) : option type :=
  if String.eqb s "str" then Some Tstr
  else if String.eqb s "path" then Some Tpath
  else if String.eqb s "int" then Some Tint
  else if String.eqb s "+int" then Some Tposint
  else if String.eqb s "-int" then Some Tnegint
  else None.

(** [_types_re]: the text between the parentheses of each entry; the
    group itself is numbered when the route's pattern is compiled. *)
Definition _types_re (t : type) : regex :=
  match t with
  | Tstr => Plus (NotChr "/")                                   (* ( [^/]+ ) *)
  | Tpath => Plus Dot                                           (* ( .+ ) *)
  | Tint => Alt (Chr "0") (Seq (Rng "1" "9") (Star (Rng "0" "9")))
                                                                (* ( 0|[1-9][0-9]* ) *)
  | Tposint => Seq (Rng "1" "9") (Star (Rng "0" "9"))           (* ( [1-9][0-9]* ) *)
  | Tnegint => Alt (Chr "0")
                 (Seq (Opt (Chr "-")) (Seq (Rng "1" "9") (Star (Rng "0" "9"))))
                                                                (* ( 0|-?[1-9][0-9]* ) *)
  end.

(** [_name_re]: "^(?:[^\d\W]\w*|!|)$". *)
Definition _name_re : regex :=
  Seq Bol
    (Seq (Alt (Seq (Cls (fun c => negb (is_digit c) && is_word c)) (Star (Cls is_word)))
            (Alt (Chr "!") Eps))
       Eol).

Record t : Type := Make { name : string; _type : type }.

Definition __init__ (spec : string) : result t :=
  let tokens := split1 ":" (slice_1_m1 spec) in
  let tokens := match tokens with [a] => [a; ""] | _ => tokens end in
  match tokens with
  | [name; ty] =>
      let ty := if String.eqb ty "" then "str" else ty in
      match p_search (compiled _name_re 0 []) name with
      | None => Raise (RouteError InvalidWildcardName name spec)
      | Some _ =>
          match type_of_string ty with
          | None => Raise (RouteError InvalidWildcardType ty spec)
          | Some ty' => Ok (Make name ty')
          end
      end
  | _ => Raise ValueError
  end.

Definition regex (self : t) : regex := _types_re (_type self).

Definition value (self : t) (v : value) : result value :=
  match _type self with
  | Tstr | Tpath => Ok v
  | _ =>
      match v with
      | VStr s =>
          match int_of_str s with
          | Some z => Ok (VInt z)
          | None => Raise ValueError
          end
      | VInt z => Ok (VInt z)
      | VNone => Raise TypeError
      end
  end.

End Wildcard.

(** ** class WildcardRoute *)

(** A piece of the pattern text that [WildcardRoute.__init__] collects in
    [self._re]: an escaped token, or the parenthesised text of a wildcard. *)
Inductive piece : Type :=
| Escaped (token : string)
| Capture (body : regex).

(** The tree of the joined pieces followed by [$], the groups numbered
    from [i] in the order of their opening parentheses. *)
Fixpoint join (i : nat) (ps : list piece) : regex :=
  match ps with
  | [] => Eol
  | Escaped tok :: ps' => Seq (Lit (chars tok)) (join i ps')
  | Capture body :: ps' => Seq (Grp i body) (join (S i) ps')
  end.

Fixpoint captures (ps : list piece) : nat :=
  match ps with
  | [] => 0
  | Escaped _ :: ps' => captures ps'
  | Capture _ :: ps' => S (captures ps')
  end.

(** [re.compile('^' + ''.join(pieces) + '$')]. *)
Definition compile_pieces (ps : list piece) : Pattern :=
  compiled (Seq Bol (join 1 ps)) (captures ps) [].

Module WildcardRoute.

Definition not_delim (c : ascii) : bool :=
  negb (Ascii.eqb c "<" || Ascii.eqb c ">" || Ascii.eqb c "/").

(** [_wildcard_re]: "<[^<>/]*>". *)
Definition _wildcard_re : regex :=
  Seq (Chr "<") (Seq (Star (Cls not_delim)) (Chr ">")).

(** [_tokenize_re]: "<[^<>/]*>|[^<>/]+|/|<|>". *)
Definition _tokenize_re : regex :=
  Alt _wildcard_re
    (Alt (Plus (Cls not_delim)) (Alt (Chr "/") (Alt (Chr "<") (Chr ">")))).

Definition tokens (pattern : string) : list string :=
  findall _tokenize_re pattern.

Definition like (pattern : string) : bool :=
  match p_search (compiled _wildcard_re 0 []) pattern with
  | Some _ => true
  | None => false
  end.

Section Callback.
Context {callback : Type}.

Record t : Type := Make {
  _re : Pattern;
  _wildcards : list Wildcard.t;
  _callback : callback
}.

(** The loop of [__init__] over the tokens: [re] and [wildcards] are
    the lists [self._re] and [self._wildcards] built so far. *)
Fixpoint collect (toks : list string) (re : list piece) (wildcards : list Wildcard.t)
  : result (list piece * list Wildcard.t) :=
  match toks with
  | [] => Ok (re, wildcards)
  | token :: toks' =>
      if negb (String.eqb token "") && startswith token "<" && endswith token ">"
      then
        w ← Wildcard.__init__ token;
        collect toks' (re ++ [Capture (Wildcard.regex w)]) (wildcards ++ [w])
      else collect toks' (re ++ [Escaped token]) wildcards
  end.

Definition __init__ (pattern : string) (cb : callback) : result t :=
  '(re, wildcards) ← collect (tokens pattern) [] [];
  Ok (Make (compile_pieces re) wildcards cb).

(** The loop of [match] over [enumerate(self._wildcards)]. *)
Fixpoint extract (m : Match) (n : nat) (ws : list (nat * Wildcard.t))
    (args : list value) (kwargs : gmap string value)
  : result (list value * gmap string value) :=
  match ws with
  | [] => Ok (args, kwargs)
  | (i, wildcard) :: ws' =>
      if String.eqb (Wildcard.name wildcard) "!" then extract m n ws' args kwargs
      else
        match groups_tuple n m !! i with
        | None => Raise IndexError
        | Some g =>
            v ← Wildcard.value wildcard (of_group g);
            if String.eqb (Wildcard.name wildcard) ""
            then extract m n ws' (args ++ [v]) kwargs
            else extract m n ws' args (<[Wildcard.name wildcard := v]> kwargs)
        end
  end.

Definition enumerate {X : Type} (l : list X) : list (nat * X) :=
  combine (seq 0 (List.length l)) l.

Definition match_ (self : t) (path : string)
  : result (option (callback * list value * gmap string value)) :=
  match p_search (_re self) path with
  | None => Ok None
  | Some m =>
      '(args, kwargs) ← extract m (p_groups (_re self))
                          (enumerate (_wildcards self)) [] ∅;
      Ok (Some (_callback self, args, kwargs))
  end.
End Callback.
Arguments t : clear implicits.

End WildcardRoute.

(** ** class RegexRoute *)

Module RegexRoute.

(** [_group_re]: an opening parenthesis, any characters but line feeds,
    a closing parenthesis. *)
Definition _group_re : regex :=
  Seq (Chr "(") (Seq (Star Dot) (Chr ")")).

Definition like (pattern : string) : bool :=
  match p_search (compiled _group_re 0 []) pattern with
  | Some _ => true
  | None => false
  end.

Section Callback.
Context {callback : Type}.

(** [re.compile]: the parser of the [re] module, [None] when it raises
    [re.error]. *)
Variable re_compile : string -> option Pattern.

Record t : Type := Make {
  _re : Pattern;
  _callback : callback
}.

Definition __init__ (pattern : string) (cb : callback) : result t :=
  match re_compile pattern with
  | Some p => Ok (Make p cb)
  | None => Raise (ReError pattern)
  end.

Definition kwargs_indexes (self : t) : list nat :=
  map snd (p_groupindex (_re self)).

Definition args_indexes (self : t) : list nat :=
  List.filter (fun i => negb (bool_decide (i ∈ kwargs_indexes self)))
    (seq 1 (p_groups (_re self))).

Definition match_ (self : t) (path : string)
  : option (callback * list value * gmap string value) :=
  match p_search (_re self) path with
  | None => None
  | Some m =>
      let args := map (fun i => of_group (group m i)) (args_indexes self) in
      let kwargs :=
        fold_left (fun kw '(name, index) => <[name := of_group (group m index)]> kw)
          (p_groupindex (_re self)) (∅ : gmap string value) in
      Some (_callback self, args, kwargs)
  end.
End Callback.
Arguments t : clear implicits.

End RegexRoute.

(** ** class Router *)

Inductive pattern_type : Type := literal | wildcard | regex_type.

Module Router.

Definition _normalize_pattern (pattern : string) : pattern_type * string :=
  if startswith pattern "regex:" then (regex_type, slice_from 6 pattern)
  else if startswith pattern "wildcard:" then (wildcard, slice_from 9 pattern)
  else if startswith pattern "literal:" then (literal, slice_from 8 pattern)
  else if RegexRoute.like pattern then (regex_type, pattern)
  else if WildcardRoute.like pattern then (wildcard, pattern)
  else (literal, pattern).

(** What [resolve] returns: the callback with its arguments, or [None]. *)
Abbreviation resolved callback :=
  (option (callback * list value * gmap string value)).

Section Callback.
Context {callback : Type}.
Variable re_compile : string -> option Pattern.

Record t : Type := Make {
  _literal : gmap string (gmap string callback);
  _wildcard : gmap string (list (WildcardRoute.t callback));
  _regex : gmap string (list (RegexRoute.t callback))
}.

Definition __init__ : t := Make ∅ ∅ ∅.

(** [d[key]] on a [defaultdict]: a missing key is first set to the
    default value. *)
Definition getitem {V : Type} (dflt : V) (d : gmap string V) (key : string)
  : V * gmap string V :=
  match d !! key with
  | Some v => (v, d)
  | None => (dflt, <[key := dflt]> d)
  end.

(** [add] returns the router as the call leaves it, also when it
    raises: the subscript [self._wildcard[method]] is evaluated before
    the route is built. *)
Definition add (method pattern : string) (cb : callback) (self : t)
  : t * result unit :=
  let '(pat_type, pat) := _normalize_pattern pattern in
  match pat_type with
  | literal =>
      let '(d, lit) := getitem ∅ (_literal self) method in
      (Make (<[method := <[pat := cb]> d]> lit) (_wildcard self) (_regex self), Ok ())
  | wildcard =>
      let '(l, wc) := getitem [] (_wildcard self) method in
      match WildcardRoute.__init__ pat cb with
      | Ok route =>
          (Make (_literal self) (<[method := (l ++ [route])%list]> wc) (_regex self), Ok ())
      | Raise e => (Make (_literal self) wc (_regex self), Raise e)
      end
  | regex_type =>
      let '(l, rx) := getitem [] (_regex self) method in
      match RegexRoute.__init__ re_compile pat cb with
      | Ok route =>
          (Make (_literal self) (_wildcard self) (<[method := (l ++ [route])%list]> rx), Ok ())
      | Raise e => (Make (_literal self) (_wildcard self) rx, Raise e)
      end
  end.


(** The inner loop of [_resolve_non_literal_route]: the first route of
    [routes] whose [match] is not [None]. *)
Fixpoint first_match {R : Type} (match_ : R -> string -> result (resolved callback))
    (routes : list R) (path : string) : result (resolved callback) :=
  match routes with
  | [] => Ok None
  | route :: routes' =>
      callback_data ← match_ route path;
      match callback_data with
      | Some d => Ok (Some d)
      | None => first_match match_ routes' path
      end
  end.

Definition _resolve_non_literal_route (self : t) (method path : string)
  : result (resolved callback) :=
  found ← match _wildcard self !! method with
          | Some routes => first_match WildcardRoute.match_ (rev routes) path
          | None => Ok None
          end;
  match found with
  | Some d => Ok (Some d)
  | None =>
      match _regex self !! method with
      | Some routes =>
          first_match (fun r p => Ok (RegexRoute.match_ r p)) (rev routes) path
      | None => Ok None
      end
  end.

Definition resolve (self : t) (method path : string) : result (resolved callback) :=
  match _literal self !! method with
  | Some d =>
      match d !! path with
      | Some cb => Ok (Some (cb, [], ∅))
      | None => _resolve_non_literal_route self method path
      end
  | None => _resolve_non_literal_route self method path
  end.

Definition keys {V : Type} (d : gmap string V) : list string :=
  (map_to_list d).*1.

Definition contains_method (self : t) (method : string) : bool :=
  bool_decide (method ∈ (keys (_literal self) ++ keys (_wildcard self)
                           ++ keys (_regex self))%list).
End Callback.
Arguments t : clear implicits.

End Router.

(** ** The segments of each wildcard type *)

Definition nonzero_digit (c : ascii) : bool := in_range 49 57 c.

(** A positive integer with no leading zero. *)
Definition positive_literal (l : list ascii) : bool :=
  match l with
  | c :: l' => nonzero_digit c && forallb is_digit l'
  | [] => false
  end.

Definition nonempty (l : list ascii) : bool :=
  match l with
  | [] => false
  | _ => true
  end.

(** The segments that the text of each wildcard type matches, character
    by character. *)
Definition language (t : Wildcard.type) (s : string) : bool :=
  match t with
  | Wildcard.Tstr =>
      nonempty (chars s) && forallb (fun c => negb (Ascii.eqb c "/")) (chars s)
  | Wildcard.Tpath =>
      nonempty (chars s) && forallb (fun c => negb (Ascii.eqb c LF)) (chars s)
  | Wildcard.Tint => String.eqb s "0" || positive_literal (chars s)
  | Wildcard.Tposint => positive_literal (chars s)
  | Wildcard.Tnegint =>
      String.eqb s "0" || positive_literal (chars s)
      || match chars s with
         | "-"%char :: l => positive_literal l
         | _ => false
         end
  end.

(** The segments of each type as the documentation words them: the same,
    but [path] is any characters, at least one. *)
Definition documented_language (t : Wildcard.type) (s : string) : bool :=
  match t with
  | Wildcard.Tpath => nonempty (chars s)
  | _ => language t s
  end.

(** [accepts t s]: the route of a lone wildcard of type [t] matches the
    path [s] and captures all of it. *)
Definition accepts (t : Wildcard.type) (s : string) : bool :=
  match p_search (compile_pieces [Capture (Wildcard._types_re t)]) s with
  | Some m => bool_decide (group m 1 = Some s)
  | None => false
  end.

(** ** The results of a wildcard match, in words

    [caps] pairs each wildcard of a route with the converted value of its
    segment, in capture order. *)

Definition int_typed (t : Wildcard.type) : bool :=
  match t with
  | Wildcard.Tstr | Wildcard.Tpath => false
  | _ => true
  end.

(** The converted value of a segment: the string itself for [str] and
    [path], the parsed integer for the other types, when [int] converts
    the segment. *)
Definition converted (t : Wildcard.type) (s : string) : option value :=
  if int_typed t then VInt <$> int_of_str s else Some (VStr s).

(** The number of digits of a text. *)
Definition digit_count (s : string) : nat :=
  List.length (List.filter is_digit (chars s)).

(** The wildcards whose values [match] extracts: all but those named
    ["!"]; each comes with its index in [self._wildcards]. *)
Definition kept (iw : nat * Wildcard.t) : bool :=
  negb (String.eqb (Wildcard.name (snd iw)) "!").

(** [over_limit m iw]: the value of the wildcard is extracted, its type
    is [int], [+int] or [-int], and its group in the match [m] has more
    digits than [int] converts. *)
Definition over_limit (m : Match) (iw : nat * Wildcard.t) : bool :=
  kept iw && int_typed (Wildcard._type (snd iw))
  && match group m (S (fst iw)) with
     | Some s => (int_max_str_digits <? digit_count s)%nat
     | None => false
     end.



(** The values of the wildcards with an empty name, left to right. *)
Definition positional (caps : list (Wildcard.t * value)) : list value :=
  map snd (List.filter (fun wv => String.eqb (Wildcard.name (fst wv)) "") caps).

(** The value under the name [n]: none for the names ["!"] and [""],
    else the value of the last wildcard of that name. *)
Definition named (caps : list (Wildcard.t * value)) (n : string) : option value :=
  if String.eqb n "!" || String.eqb n "" then None
  else snd <$> last (List.filter (fun wv => String.eqb (Wildcard.name (fst wv)) n) caps).

(** ** Routers built by calls of [add] *)

(** A [re.compile] for the two regex patterns of the examples, which it
    compiles as [re.compile] does; the examples call it on no other
    pattern that [re.compile] accepts. *)
Definition example_compile (pattern : string) : option Pattern :=
  if String.eqb pattern "(/a)|(/b)" then
    Some (compiled (Alt (Grp 1 (Lit (chars "/a"))) (Grp 2 (Lit (chars "/b")))) 2 [])
  else if String.eqb pattern "/(?P<year>[0-9]+)/([a-z]+)" then
    Some (compiled (Seq (Chr "/") (Seq (Grp 1 (Plus (Rng "0" "9")))
                      (Seq (Chr "/") (Grp 2 (Plus (Rng "a" "z"))))))
            2 [("year", 1%nat)])
  else None.



(** A router for the examples: a wildcard route, a literal route that the
    wildcard route overlaps, and a second, more specific wildcard route. *)
Definition example_router : Router.t nat :=
  fst (Router.add example_compile "GET" "/user/<id:int>" 2%nat
    (fst (Router.add example_compile "GET" "/user/me" 3%nat
      (fst (Router.add example_compile "GET" "/user/<id>" 1%nat Router.__init__))))).

(** The routers that calls of [add] that return reach from a new router. *)
Inductive reachable_ok {callback : Type} (re_compile : string -> option Pattern)
  : Router.t callback -> Prop :=
| reachable_ok_init : reachable_ok re_compile Router.__init__
| reachable_ok_add self method pattern cb :
    reachable_ok re_compile self ->
    snd (Router.add re_compile method pattern cb self) = Ok () ->
    reachable_ok re_compile (fst (Router.add re_compile method pattern cb self)).

(** The method has a route in one of the three tiers. *)
Definition has_route {callback : Type} (self : Router.t callback) (method : string) : Prop :=
  (exists d path cb, Router._literal self !! method = Some d /\ d !! path = Some cb)
  \/ (exists l r, Router._wildcard self !! method = Some l /\ r ∈ l)
  \/ (exists l r, Router._regex self !! method = Some l /\ r ∈ l).

(** The callback of the literal route of a method and path, if any. *)
Definition literal_entry {callback : Type} (self : Router.t callback)
    (method path : string) : option callback :=
  match Router._literal self !! method with
  | Some d => d !! path
  | None => None
  end.

(** A sequence of calls of [add], each with its method, pattern and
    callback; the results of the calls are dropped. *)
Definition add_all {callback : Type} (re_compile : string -> option Pattern)
    (calls : list (string * string * callback)) (self : Router.t callback)
  : Router.t callback :=
  fold_left (fun r '(method, pattern, cb) =>
               fst (Router.add re_compile method pattern cb r)) calls self.

(** The call registers the literal route of the method and path. *)
Definition registers_literal {callback : Type} (method path : string)
    (call : string * string * callback) : Prop :=
  fst (fst call) = method /\ Router._normalize_pattern (snd (fst call)) = (literal, path).

(** ** Patterns that look like a regex or a wildcard pattern *)

(** The text has the character [a], then characters of the set [f], then
    the character [b]. *)
Definition delimited (a : ascii) (f : ascii -> bool) (b : ascii) (l : list ascii) : Prop :=
  exists u v w, l = (u ++ a :: v ++ b :: w)%list /\ forallb f v = true.

(** A parenthesis group: an opening parenthesis and, later on the same
    line, a closing one. *)
Definition has_group (pattern : string) : Prop :=
  delimited "(" (fun c => negb (Ascii.eqb c LF)) ")" (chars pattern).

(** A parenthesis group read without the lines: an opening parenthesis
    and, anywhere later, a closing one. *)
Definition group_across_lines (pattern : string) : Prop :=
  delimited "(" (fun _ => true) ")" (chars pattern).

(** A pattern with a line feed between its parentheses, then a token. *)
Definition broken_group : string := String "(" (String LF ")<a>").

(** An angle-bracket token: [<], characters other than [<], [>] and [/],
    then [>]. *)
Definition has_wildcard (pattern : string) : Prop :=
  delimited "<" WildcardRoute.not_delim ">" (chars pattern).

(** ** Wildcard names *)

(** An identifier: a word character that is no digit, then word
    characters. *)
Definition identifier (l : list ascii) : bool :=
  match l with
  | c :: l' => negb (is_digit c) && is_word c && forallb is_word l'
  | [] => false
  end.

(** The names that the comment of [_name_re] lists: the identifiers, the
    name ["!"] and the empty name. *)
Definition valid_name (name : list ascii) : bool :=
  match name with
  | [] => true
  | _ => identifier name || bool_decide (name = ["!"%char])
  end.

(** The name of a token: the text between the brackets, up to the first
    colon. *)
Definition token_name (spec : string) : string :=
  match split_once ":" (chars (slice_1_m1 spec)) with
  | Some (a, _) => str a
  | None => slice_1_m1 spec
  end.

(** The type of a token: the text after the first colon, or [str] when
    there is no colon or nothing after it. *)
Definition token_type (spec : string) : string :=
  let ty := match split_once ":" (chars (slice_1_m1 spec)) with
            | Some (_, b) => str b
            | None => ""
            end in
  if String.eqb ty "" then "str" else ty.

(** The names that [_name_re] lets through: the valid names, and a valid
    name followed by one line feed. *)
Definition accepted_name (name : string) : Prop :=
  valid_name (chars name) = true
  \/ exists n, chars name = (n ++ [LF])%list /\ valid_name n = true.

(** The text of two lines [a], line feed, [b]. *)
Definition two_lines : string := String "a" (String LF "b").

(** The name [abc] followed by a line feed, and its token. *)
Definition abc_lf : string := String "a" (String "b" (String "c" (String LF ""))).
Definition abc_lf_token : string := "<" ++ abc_lf ++ ">".

(** ** The matches of a pattern, as a relation

    [matches r st st'] holds when [r] can match from [st] up to [st'],
    whatever the priorities. The matcher only returns such matches
    ([run_sound]). *)

Inductive matches : regex -> mstate -> mstate -> Prop :=
| M_Eps st : matches Eps st st
| M_Cls f p c s g :
    f c = true -> matches (Cls f) (MState p (c :: s) g) (MState (S p) s g)
| M_Seq r1 r2 st st1 st2 :
    matches r1 st st1 -> matches r2 st1 st2 -> matches (Seq r1 r2) st st2
| M_AltL r1 r2 st st' : matches r1 st st' -> matches (Alt r1 r2) st st'
| M_AltR r1 r2 st st' : matches r2 st st' -> matches (Alt r1 r2) st st'
| M_Star0 r st : matches (Star r) st st
| M_StarS r st st1 st2 :
    matches r st st1 -> (m_pos st < m_pos st1)%nat -> matches (Star r) st1 st2 ->
    matches (Star r) st st2
| M_Grp i r st st' :
    matches r st st' ->
    matches (Grp i r) st
      (MState (m_pos st') (m_rest st')
         (<[i := str (take (m_pos st' - m_pos st) (m_rest st))]> (m_groups st')))
| M_Bol st : m_pos st = 0%nat -> matches Bol st st
| M_Eol st : at_eol (m_rest st) = true -> matches Eol st st.

(** The call has the method and the callback. *)
Definition registers {callback : Type} (method : string) (cb : callback)
    (call : string * string * callback) : Prop :=
  fst (fst call) = method /\ snd call = cb.

(** Every callback that the router holds for a method came with a call of
    [calls] for that method. *)
Definition callbacks_from {callback : Type} (calls : list (string * string * callback))
    (self : Router.t callback) : Prop :=
  forall method,
    (forall d path cb, Router._literal self !! method = Some d -> d !! path = Some cb ->
       Exists (registers method cb) calls)
    /\ (forall l r, Router._wildcard self !! method = Some l -> r ∈ l ->
         Exists (registers method (WildcardRoute._callback r)) calls)
    /\ (forall l r, Router._regex self !! method = Some l -> r ∈ l ->
         Exists (registers method (RegexRoute._callback r)) calls).

(** ** Tokens and instances of a wildcard pattern *)

(** The shapes of a token: a wildcard token, a run of characters other
    than [<], [>] and [/], or one of these three characters. *)
Definition token_shape (token : string) : Prop :=
  (exists v, chars token = ("<"%char :: v ++ [">"%char])%list
             /\ forallb WildcardRoute.not_delim v = true)
  \/ (nonempty (chars token) = true
      /\ forallb WildcardRoute.not_delim (chars token) = true)
  \/ token = "/" \/ token = "<" \/ token = ">".

(** The test of [WildcardRoute.__init__] for a wildcard token. *)
Definition is_wildcard_token (token : string) : bool :=
  negb (String.eqb token "") && startswith token "<" && endswith token ">".

(** The pattern with its wildcard tokens replaced, left to right, by the
    segments [segs]; the other tokens stay as they are. *)
Fixpoint substitute (toks : list string) (segs : list string) : list ascii :=
  match toks with
  | [] => []
  | token :: toks' =>
      if is_wildcard_token token then
        match segs with
        | seg :: segs' => (chars seg ++ substitute toks' segs')%list
        | [] => substitute toks' []
        end
      else (chars token ++ substitute toks' segs)%list
  end.

(** The instances of a pattern whose wildcards are [ws]: the pattern with
    a segment of its type in the place of each wildcard token, and
    possibly one line feed at the end. *)
Definition instance (pattern : string) (ws : list Wildcard.t) (path : string) : Prop :=
  exists segs,
    Forall2 (fun w s => language (Wildcard._type w) s = true) ws segs
    /\ (chars path = substitute (WildcardRoute.tokens pattern) segs
        \/ chars path = (substitute (WildcardRoute.tokens pattern) segs ++ [LF])%list).

(** The pieces that [WildcardRoute.__init__] collects for the tokens, when
    [ws] are the wildcards of its wildcard tokens. *)
Fixpoint pieces_for (toks : list string) (ws : list Wildcard.t) : list piece :=
  match toks with
  | [] => []
  | token :: toks' =>
      if is_wildcard_token token then
        match ws with
        | w :: ws' => Capture (Wildcard.regex w) :: pieces_for toks' ws'
        | [] => pieces_for toks' []
        end
      else Escaped token :: pieces_for toks' ws
  end.

(** ** class MultiDict *)

Module MultiDict.
Section Values.
Context {V : Type}.

(** [self.data] of [UserDict]: here, a list of values for each key. *)
Record t : Type := Make { data : gmap string (list V) }.

Definition __init__ : t := Make ∅.

(** What [__getitem__] does: it returns a value, or [self.data[key]]
    raises [KeyError], or [[-1]] raises [IndexError] on an empty list. *)
Inductive outcome : Type :=
| Returns (v : V)
| KeyError (key : string)
| EmptyList.

Definition __setitem__ (key : string) (v : V) (self : t) : t :=
  match data self !! key with
  | None => Make (<[key := [v]]> (data self))
  | Some l => Make (<[key := (l ++ [v])%list]> (data self))
  end.

Definition __getitem__ (self : t) (key : string) : outcome :=
  match data self !! key with
  | None => KeyError key
  | Some l =>
      match last l with
      | Some v => Returns v
      | None => EmptyList
      end
  end.

Definition getall (self : t) (key : string) (default : list V) : list V :=
  match data self !! key with
  | Some l => l
  | None => default
  end.

(** The loop [for k, v in items: self[k] = v]. *)
Definition assign (items : list (string * V)) (self : t) : t :=
  fold_left (fun d kv => __setitem__ (fst kv) (snd kv) d) items self.
End Values.
Arguments t : clear implicits.
Arguments outcome : clear implicits.
End MultiDict.

(** The values that the items give to a key, in order. *)
Definition values_of {V : Type} (key : string) (items : list (string * V)) : list V :=
  map snd (List.filter (fun kv => String.eqb (fst kv) key) items).

(** ** The application: values and exceptions *)

(** A value that a callback returns, or that [Response.body] holds: a
    [str], a [bytes], an [int], [None], or an object of another type. *)
Inductive returned : Type :=
| RStr (s : string)
| RBytes (b : list Byte.byte)
| RInt (n : Z)
| RNone
| ROther.

(** What the application raises: an exception of the router, the [Error]
    of [Ice.__call__] for the value of a callback, the [KeyError] of
    [Response.responses[status]], or an exception of code that is not of
    this file (a callback, a codec), known by its name. *)
Inductive raised : Type :=
| RouterRaised (e : exn)
| Error (method path : string) (v : returned)
| StatusKeyError (status : Z)
| Foreign (name : string).

Inductive outcome (A : Type) : Type :=
| Done (a : A)
| Raised (e : raised).
Arguments Done {A} a.
Arguments Raised {A} e.

#[global] Instance outcome_ret : MRet outcome := fun A a => Done a.
#[global] Instance outcome_bind : MBind outcome := fun A B f m =>
  match m with
  | Done a => f a
  | Raised e => Raised e
  end.

Definition of_result {A : Type} (r : result A) : outcome A :=
  match r with
  | Ok a => Done a
  | Raise e => Raised (RouterRaised e)
  end.

(** ** class Request *)

Module Request.
Section Environ.
(** The stream of [wsgi.input]. *)
Context {input : Type}.
(** [urllib.parse.parse_qsl]: the pairs of a query string. *)
Variable parse_qsl : string -> list (string * string).
(** [cgi.FieldStorage(fp=..., environ=...)] and the loop over it: its
    keys, each with the list that [getlist] gives for it; or the exception
    of the construction or of the loop, such as the [TypeError] of a
    field storage that is not indexable, which the loop raises when the
    content of the request is no form. *)
Variable field_storage : input -> gmap string string ->
                         outcome (list (string * list string)).

(** The WSGI environment: its string variables and the input stream. *)
Record environ_t : Type := Environ {
  vars : gmap string string;
  wsgi_input : option input
}.

Record t : Type := Make {
  environ : environ_t;
  method : string;
  path : string;
  query : MultiDict.t string;
  form : MultiDict.t string
}.

Definition __init__ (env : environ_t) : outcome t :=
  let method := default "GET" (vars env !! "REQUEST_METHOD") in
  let path := default "/" (vars env !! "PATH_INFO") in
  let path := if String.eqb path "" then "/" else path in
  let query :=
    match vars env !! "QUERY_STRING" with
    | Some q => MultiDict.assign (parse_qsl q) MultiDict.__init__
    | None => MultiDict.__init__
    end in
  form ← match wsgi_input env with
         | Some fp =>
             fs ← field_storage fp (vars env);
             Done (fold_left
                     (fun d kvs =>
                        fold_left (fun d v => MultiDict.__setitem__ (fst kvs) v d)
                          (snd kvs) d)
                     fs MultiDict.__init__)
         | None => Done MultiDict.__init__
         end;
  Done (Make env method path query form).

(** The fields of the input of the request: those of the field storage,
    and none when the environment has no input. *)
Definition fields (env : environ_t) : outcome (list (string * list string)) :=
  match wsgi_input env with
  | Some fp => field_storage fp (vars env)
  | None => Done []
  end.
End Environ.
Arguments environ_t : clear implicits.
Arguments t : clear implicits.
End Request.

(** ** class Response *)

Module Response.
Section Tables.
(** [Response.responses]: the phrase and the detail of each status code
    of [http.server]. *)
Variable responses : gmap Z (string * string).
(** [s.encode(charset)]. *)
Variable encode : string -> option string -> outcome (list Byte.byte).

(** The attributes of a response. The callable [start] is not kept: what
    [response] passes to it is part of what [response] gives. *)
Record t : Type := Make {
  status : Z;
  media_type : option string;
  charset : option string;
  _headers : list (string * string);
  body : returned;
  state : gmap string string
}.

Definition __init__ : t := Make 200 (Some "text/html") (Some "UTF-8") [] RNone ∅.

Definition set_status (n : Z) (self : t) : t :=
  Make n (media_type self) (charset self) (_headers self) (body self) (state self).
Definition set_media_type (m : option string) (self : t) : t :=
  Make (status self) m (charset self) (_headers self) (body self) (state self).
Definition set_body (b : returned) (self : t) : t :=
  Make (status self) (media_type self) (charset self) (_headers self) b (state self).

Definition add_header (name : string) (v : option string) (self : t) : t :=
  match v with
  | Some v' =>
      Make (status self) (media_type self) (charset self)
        (_headers self ++ [(name, v')])%list (body self) (state self)
  | None => self
  end.

Definition status_line (self : t) : outcome string :=
  match responses !! status self with
  | Some (phrase, _) => Done (py_str (status self) ++ " " ++ phrase)
  | None => Raised (StatusKeyError (status self))
  end.

Definition status_detail (self : t) : outcome string :=
  match responses !! status self with
  | Some (_, detail) => Done detail
  | None => Raised (StatusKeyError (status self))
  end.

Definition content_type (self : t) : option string :=
  match media_type self with
  | Some m =>
      if startswith m "text/" then
        match charset self with
        | Some c => Some (m ++ "; charset=" ++ c)
        | None => Some m
        end
      else Some m
  | None => None
  end.

(** The call [self.start(status_line, headers)]. *)
Definition started : Type := string * list (string * string).

(** [response] gives the response object as it leaves it, the call of
    [self.start] and the list that it returns. *)
Definition response (self : t) : outcome (t * started * list (list Byte.byte)) :=
  out ← match body self with
        | RBytes b => Done b
        | RStr s => encode s (charset self)
        | _ => Done []
        end;
  let self := add_header "Content-Type" (content_type self) self in
  let self := add_header "Content-Length" (Some (py_str (Z.of_nat (List.length out)))) self in
  line ← status_line self;
  Done (self, (line, _headers self), [out]).
End Tables.
End Response.

(** ** class Ice *)

Module Ice.
Section Callback.
Context {callback input : Type}.
Variable re_compile : string -> option Pattern.
Variable responses : gmap Z (string * string).
Variable encode : string -> option string -> outcome (list Byte.byte).
Variable parse_qsl : string -> list (string * string).
Variable field_storage : input -> gmap string string ->
                         outcome (list (string * list string)).
(** The call of a callback with its positional and keyword arguments: what
    it returns, and the response object as it leaves it. *)
Variable invoke : callback -> list value -> gmap string value ->
                  Request.t input -> Response.t -> outcome (returned * Response.t).

(** The attributes [router] and [_error_handlers]. The attribute [server]
    belongs to [run] and [exit], which start and stop a server; the
    attributes [request] and [response] are made anew by every [__call__],
    which hands them to the callbacks. *)
Record t : Type := Make {
  router : Router.t callback;
  _error_handlers : gmap (option Z) callback
}.

Definition __init__ : t := Make Router.__init__ ∅.

(** [route(method, pattern)(callback)]: the application as the call
    leaves it, and whether [Router.add] returned. *)
Definition route (method pattern : string) (cb : callback) (self : t) : t * result unit :=
  let '(r, res) := Router.add re_compile method pattern cb (router self) in
  (Make r (_error_handlers self), res).

Definition get (pattern : string) : callback -> t -> t * result unit :=
  route "GET" pattern.

Definition post (pattern : string) : callback -> t -> t * result unit :=
  route "POST" pattern.

(** [error(status)(callback)]. *)
Definition error (status : option Z) (cb : callback) (self : t) : t :=
  Make (router self) (<[status := cb]> (_error_handlers self)).

(** What [_get_error_page_callback] returns: a registered callback, or
    the function that returns the status line. *)
Inductive page : Type :=
| Registered (cb : callback)
| Rudimentary.

Definition _get_error_page_callback (self : t) (resp : Response.t) : Response.t * page :=
  match _error_handlers self !! Some (Response.status resp) with
  | Some cb => (resp, Registered cb)
  | None =>
      match _error_handlers self !! None with
      | Some cb => (resp, Registered cb)
      | None => (Response.set_media_type (Some "text/plain") resp, Rudimentary)
      end
  end.

(** The call of what [_get_error_page_callback] returned. *)
Definition call_page (p : page) (req : Request.t input) (resp : Response.t)
  : outcome (returned * Response.t) :=
  match p with
  | Registered cb => invoke cb [] ∅ req resp
  | Rudimentary =>
      line ← Response.status_line responses resp;
      Done (RStr line, resp)
  end.

(** The first half of [__call__]: the value of the callback of the route,
    or 404, or 501. *)
Definition dispatch (self : t) (req : Request.t input) (resp : Response.t)
  : outcome (returned * Response.t) :=
  route ← of_result (Router.resolve (router self) (Request.method req) (Request.path req));
  match route with
  | Some (cb, args, kwargs) => invoke cb args kwargs req resp
  | None =>
      if Router.contains_method (router self) (Request.method req)
      then Done (RInt 404, resp)
      else Done (RInt 501, resp)
  end.

(** The second half of [__call__]: the response for the value. *)
Definition respond (self : t) (req : Request.t input) (v : returned) (resp : Response.t)
  : outcome (Response.t * Response.started * list (list Byte.byte)) :=
  resp ← match v with
         | RStr _ | RBytes _ => Done (Response.set_body v resp)
         | RInt n =>
             if bool_decide (is_Some (responses !! n)) then
               let resp := Response.set_status n resp in
               match Response.body resp with
               | RNone =>
                   let '(resp, p) := _get_error_page_callback self resp in
                   '(b, resp) ← call_page p req resp;
                   Done (Response.set_body b resp)
               | _ => Done resp
               end
             else Raised (Error (Request.method req) (Request.path req) v)
         | _ => Raised (Error (Request.method req) (Request.path req) v)
         end;
  Response.response responses encode resp.

Definition __call__ (self : t) (env : Request.environ_t input)
  : outcome (Response.t * Response.started * list (list Byte.byte)) :=
  req ← Request.__init__ parse_qsl field_storage env;
  let resp := Response.__init__ in
  '(v, resp) ← dispatch self req resp;
  respond self req v resp.
End Callback.
Arguments t : clear implicits.
Arguments page : clear implicits.
End Ice.

(** ** Applications set up by decorators *)

(** A use of a decorator of the application: [route(method, pattern)] or
    [error(status)], on a callback. *)
Inductive decoration (callback : Type) : Type :=
| Route (method pattern : string) (cb : callback)
| ErrorPage (status : option Z) (cb : callback).
Arguments Route {callback} method pattern cb.
Arguments ErrorPage {callback} status cb.

(** The application after the decorations, one after the other; a
    decoration that raises leaves the application as [Router.add] left
    the router. *)
Definition decorate {callback : Type} (re_compile : string -> option Pattern)
    (ds : list (decoration callback)) (self : Ice.t callback) : Ice.t callback :=
  fold_left (fun a d =>
               match d with
               | Route method pattern cb => fst (Ice.route re_compile method pattern cb a)
               | ErrorPage status cb => Ice.error status cb a
               end) ds self.

(** The calls of [Router.add] that the decorations make. *)
Fixpoint routes_of {callback : Type} (ds : list (decoration callback))
  : list (string * string * callback) :=
  match ds with
  | [] => []
  | Route method pattern cb :: ds' => (method, pattern, cb) :: routes_of ds'
  | ErrorPage _ _ :: ds' => routes_of ds'
  end.

(** The callbacks that the decorations register for a status, in order. *)
Fixpoint pages_of {callback : Type} (status : option Z) (ds : list (decoration callback))
  : list callback :=
  match ds with
  | [] => []
  | Route _ _ _ :: ds' => pages_of status ds'
  | ErrorPage status' cb :: ds' =>
      if decide (status' = status) then cb :: pages_of status ds' else pages_of status ds'
  end.

(** Tables for the examples: three status codes of [http.server], a codec
    that writes every character as one byte, a callback that returns its
    number as a string. *)
Definition example_responses : gmap Z (string * string) :=
  {[ 200%Z := ("OK", "Request fulfilled, document follows");
     404%Z := ("Not Found", "Nothing matches the given URI");
     501%Z := ("Not Implemented", "Server does not support this operation") ]}.

Definition example_encode (s : string) (charset : option string)
  : outcome (list Byte.byte) :=
  match charset with
  | Some _ => Done (map byte_of_ascii (chars s))
  | None => Raised (Foreign "TypeError")
  end.

Definition example_invoke (cb : nat) (args : list value) (kwargs : gmap string value)
    (req : Request.t unit) (resp : Response.t) : outcome (returned * Response.t) :=
  Done (RStr (py_str (Z.of_nat cb)), resp).

Definition example_environ (method path : string) : Request.environ_t unit :=
  Request.Environ {[ "REQUEST_METHOD" := method; "PATH_INFO" := path ]} None.

(** A query parser and a field storage for the examples, which find no
    pair and no field; the request of [example_environ] for a path that is
    not empty; a request with an input, and a field storage that is not
    indexable. *)
Definition example_parse_qsl (q : string) : list (string * string) := [].

Definition example_fields (fp : unit) (environ : gmap string string)
  : outcome (list (string * list string)) := Done [].

Definition example_request (method path : string) : Request.t unit :=
  Request.Make (example_environ method path) method path
    MultiDict.__init__ MultiDict.__init__.

Definition input_environ (method path : string) : Request.environ_t unit :=
  Request.Environ {[ "REQUEST_METHOD" := method; "PATH_INFO" := path ]} (Some tt).

Definition not_indexable (fp : unit) (environ : gmap string string)
  : outcome (list (string * list string)) := Raised (Foreign "TypeError").

(** ** def cube *)

(** The line feed as a string, and [__version__]. *)
Definition nl : string := String LF "".
Definition __version__ : string := "0.0.1".

(** The inner function [simple_html] of [cube]. *)
Definition simple_html (title body : string) : string :=
  "<!DOCTYPE html>" ++ nl
  ++ "<html>" ++ nl ++ "<head><title>" ++ title ++ "</title></head>" ++ nl
  ++ "<body>" ++ nl ++ body ++ nl ++ "</body>" ++ nl ++ "</html>" ++ nl.

(** The two callbacks that [cube] decorates. *)
Inductive cube_callback : Type :=
| default_home_page
| generic_error_page.

(** The text that [generic_error_page] formats from the status line and
    the status detail. *)
Definition error_text (title description : string) : string :=
  "<h1>" ++ title ++ "</h1>" ++ nl
  ++ "<p>" ++ description ++ "</p>" ++ nl
  ++ "<hr>" ++ nl
  ++ "<address>Ice/" ++ __version__ ++ "</address>".

(** The call of a callback of [cube]; both take no argument, and
    [generic_error_page] reads the status line, twice, and the status
    detail of the response. *)
Definition cube_invoke {input : Type} (responses : gmap Z (string * string))
    (cb : cube_callback) (args : list value) (kwargs : gmap string value)
    (req : Request.t input) (resp : Response.t) : outcome (returned * Response.t) :=
  match args, map_to_list kwargs with
  | [], [] =>
      match cb with
      | default_home_page =>
          Done (RStr (simple_html "It works!"
                        ("<h1>It works!</h1>" ++ nl
                         ++ "<p>This is the default ice web page.</p>")), resp)
      | generic_error_page =>
          title ← Response.status_line responses resp;
          title' ← Response.status_line responses resp;
          description ← Response.status_detail responses resp;
          Done (RStr (simple_html title (error_text title' description)), resp)
      end
  | _, _ => Raised (Foreign "TypeError")
  end.

Definition cube (re_compile : string -> option Pattern) : result (Ice.t cube_callback) :=
  let app := Ice.__init__ in
  let '(app, added) := Ice.get re_compile "/" default_home_page app in
  _ ← added;
  Ok (Ice.error None generic_error_page app).

(** The pages of [cube]: the home page, and the error page of a status
    with its phrase and detail. *)
Definition home_page : string :=
  simple_html "It works!"
    ("<h1>It works!</h1>" ++ nl ++ "<p>This is the default ice web page.</p>").

Definition error_page (status : Z) (phrase detail : string) : string :=
  simple_html (py_str status ++ " " ++ phrase)
    (error_text (py_str status ++ " " ++ phrase) detail).

(** The fields of a [FieldStorage] as items: each key with each value of
    its list, in order. *)
Definition field_items (fs : list (string * list string)) : list (string * string) :=
  List.concat (map (fun kvs => map (pair (fst kvs)) (snd kvs)) fs).

(** ** Vocabulary of the proofs *)

(** [consumes st st' u]: from [st] to [st'] the text [u] is consumed and
    no group is set. *)
Definition consumes (st st' : mstate) (u : list ascii) : Prop :=
  m_rest st = (u ++ m_rest st')%list
  /\ m_pos st' = (m_pos st + List.length u)%nat
  /\ m_groups st' = m_groups st.

(** The parenthesised texts among the pieces, in order. *)
Fixpoint bodies (ps : list piece) : list regex :=
  match ps with
  | [] => []
  | Escaped _ :: ps' => bodies ps'
  | Capture b :: ps' => b :: bodies ps'
  end.

(** [captured m n iw wv]: the pair [wv] is the wildcard of [iw] with the
    converted value of its group. *)
Definition captured (m : Match) (n : nat)
    (iw : nat * Wildcard.t) (wv : Wildcard.t * value) : Prop :=
  fst wv = snd iw
  /\ exists s, groups_tuple n m !! fst iw = Some (Some s)
               /\ converted (Wildcard._type (snd iw)) s = Some (snd wv).


(** No method of the router has an empty dictionary or an empty list. *)
Definition populated {callback : Type} (self : Router.t callback) : Prop :=
  forall method,
    (forall d, Router._literal self !! method = Some d -> d <> ∅)
    /\ (forall l, Router._wildcard self !! method = Some l -> l <> [])
    /\ (forall l, Router._regex self !! method = Some l -> l <> []).

(** * Properties *)

(** ** The matcher *)

Lemma str_chars (s : string) : str (chars s) = s.
Proof. apply string_of_list_ascii_of_string. Qed.

Lemma chars_str (l : list ascii) : chars (str l) = l.
Proof. apply list_ascii_of_string_of_list_ascii. Qed.

Lemma chars_inj (s1 s2 : string) : chars s1 = chars s2 -> s1 = s2.
Proof. intros H. rewrite <- (str_chars s1), <- (str_chars s2). now rewrite H. Qed.

Section MatcherFacts.
Context {A : Type}.
Implicit Types (k : mstate -> option A) (st : mstate) (x : A).

Lemma star_loop_sound r k n :
  (forall k' st x, run r k' st = Some x ->
                   exists st', matches r st st' /\ k' st' = Some x) ->
  forall st x, star_loop (run r) k n st = Some x ->
               exists st', matches (Star r) st st' /\ k st' = Some x.
Proof.
  intros IHr. induction n as [|n IHn]; intros st x H; simpl in H.
  - exists st. split; [constructor | exact H].
  - destruct (run r _ st) as [y|] eqn:E.
    + injection H as ->.
      apply IHr in E as (st1 & Hm & Hk).
      destruct (m_pos st <? m_pos st1)%nat eqn:Hlt; [|discriminate].
      apply Nat.ltb_lt in Hlt.
      apply IHn in Hk as (st2 & Hm2 & Hk2).
      exists st2. split; [|exact Hk2]. eapply M_StarS; eauto.
    + exists st. split; [constructor | exact H].
Qed.

(** Whatever the matcher hands to its continuation is a match. *)
Lemma run_sound r : forall k st x,
  run r k st = Some x -> exists st', matches r st st' /\ k st' = Some x.
Proof.
  induction r as [|f|r1 IH1 r2 IH2|r1 IH1 r2 IH2|r IH|i r IH| |];
    intros k st x H; simpl in H.
  - exists st. split; [constructor | exact H].
  - destruct st as [p [|c s] g]; simpl in H; [discriminate|].
    destruct (f c) eqn:Hf; [|discriminate].
    eexists. split; [constructor; exact Hf | exact H].
  - apply IH1 in H as (st1 & Hm1 & H). apply IH2 in H as (st2 & Hm2 & H).
    exists st2. split; [econstructor; eauto | exact H].
  - destruct (run r1 k st) as [y|] eqn:E.
    + injection H as ->. apply IH1 in E as (st' & Hm & Hk).
      exists st'. split; [apply M_AltL; exact Hm | exact Hk].
    + apply IH2 in H as (st' & Hm & Hk).
      exists st'. split; [apply M_AltR; exact Hm | exact Hk].
  - eapply star_loop_sound; eauto.
  - apply IH in H as (st' & Hm & Hk).
    eexists. split; [apply M_Grp; exact Hm | exact Hk].
  - destruct (m_pos st =? 0)%nat eqn:E; [|discriminate].
    apply Nat.eqb_eq in E. exists st. split; [constructor; exact E | exact H].
  - destruct (at_eol (m_rest st)) eqn:E; [|discriminate].
    exists st. split; [constructor; exact E | exact H].
Qed.
End MatcherFacts.

(** A match consumes a prefix of the text that is left. *)
Lemma matches_span r st st' :
  matches r st st' ->
  exists u, m_rest st = (u ++ m_rest st')%list /\ m_pos st' = (m_pos st + List.length u)%nat.
Proof.
  assert (Hseq : forall st st1 st2,
    (exists u, m_rest st = (u ++ m_rest st1)%list
               /\ m_pos st1 = (m_pos st + List.length u)%nat) ->
    (exists u, m_rest st1 = (u ++ m_rest st2)%list
               /\ m_pos st2 = (m_pos st1 + List.length u)%nat) ->
    exists u, m_rest st = (u ++ m_rest st2)%list
              /\ m_pos st2 = (m_pos st + List.length u)%nat).
  { intros s0 s1 s2 (u1 & E1 & P1) (u2 & E2 & P2).
    exists (u1 ++ u2)%list. rewrite E1, E2, P2, P1, length_app, <- app_assoc.
    split; [reflexivity | lia]. }
  induction 1; simpl; eauto;
    try (exists []; split; [reflexivity | simpl; lia]).
  exists [c]. split; [reflexivity | simpl; lia].
Qed.

Lemma consumes_nil st : consumes st st [].
Proof. repeat split. simpl. lia. Qed.

Lemma consumes_app st st1 st2 u1 u2 :
  consumes st st1 u1 -> consumes st1 st2 u2 -> consumes st st2 (u1 ++ u2).
Proof.
  intros (E1 & P1 & G1) (E2 & P2 & G2). repeat split.
  - now rewrite E1, E2, <- app_assoc.
  - rewrite P2, P1, length_app. lia.
  - now rewrite G2, G1.
Qed.

Lemma matches_Cls f st st' :
  matches (Cls f) st st' -> exists c, f c = true /\ consumes st st' [c].
Proof.
  inversion 1; subst. exists c. split; [assumption|].
  repeat split; simpl. lia.
Qed.

Lemma matches_Chr c st st' : matches (Chr c) st st' -> consumes st st' [c].
Proof.
  intros H. apply matches_Cls in H as (c' & Hc & H).
  apply Ascii.eqb_eq in Hc. now subst.
Qed.

Lemma matches_Star_Cls f st st' :
  matches (Star (Cls f)) st st' ->
  exists u, forallb f u = true /\ consumes st st' u.
Proof.
  intros H. remember (Star (Cls f)) as r eqn:Er.
  induction H; try discriminate; injection Er as ->.
  - exists []. split; [reflexivity | apply consumes_nil].
  - apply matches_Cls in H as (c & Hc & Hcons).
    destruct (IHmatches2 eq_refl) as (u & Hu & Hcons2).
    exists (c :: u). split; [simpl; now rewrite Hc|].
    apply (consumes_app _ _ _ [c] u Hcons Hcons2).
Qed.

Lemma matches_Plus_Cls f st st' :
  matches (Plus (Cls f)) st st' ->
  exists u, nonempty u = true /\ forallb f u = true /\ consumes st st' u.
Proof.
  inversion 1; subst.
  match goal with H : matches (Cls _) _ _ |- _ =>
    apply matches_Cls in H as (c & Hc & Hcons) end.
  match goal with H : matches (Star _) _ _ |- _ =>
    apply matches_Star_Cls in H as (u & Hu & Hcons2) end.
  exists (c :: u). repeat split; simpl; [now rewrite Hc|..];
    destruct Hcons as (E1 & P1 & G1), Hcons2 as (E2 & P2 & G2).
  - rewrite E1, E2. reflexivity.
  - rewrite P2, P1. simpl. lia.
  - now rewrite G2, G1.
Qed.

Lemma matches_positive st st' :
  matches (Seq (Rng "1" "9") (Star (Rng "0" "9"))) st st' ->
  exists u, positive_literal u = true /\ consumes st st' u.
Proof.
  inversion 1; subst.
  match goal with H : matches (Rng "1" "9") _ _ |- _ =>
    apply matches_Cls in H as (c & Hc & Hcons) end.
  match goal with H : matches (Star _) _ _ |- _ =>
    apply matches_Star_Cls in H as (u & Hu & Hcons2) end.
  exists (c :: u). split.
  - simpl. apply andb_true_iff. split; [exact Hc | exact Hu].
  - apply (consumes_app _ _ _ [c] u Hcons Hcons2).
Qed.

(** What the text of a wildcard type matches is a segment of that type. *)
Lemma fragment_language t st st' :
  matches (Wildcard._types_re t) st st' ->
  exists u, language t (str u) = true /\ consumes st st' u.
Proof.
  destruct t; simpl; intros H.
  - apply matches_Plus_Cls in H as (u & Hne & Hu & Hcons).
    exists u. rewrite chars_str, Hne. split; [exact Hu | exact Hcons].
  - apply matches_Plus_Cls in H as (u & Hne & Hu & Hcons).
    exists u. rewrite chars_str, Hne. split; [exact Hu | exact Hcons].
  - inversion H; subst.
    + match goal with H : matches (Chr _) _ _ |- _ => apply matches_Chr in H end.
      exists ["0"%char]. split; [reflexivity | assumption].
    + match goal with H : matches (Seq _ _) _ _ |- _ =>
        apply matches_positive in H as (u & Hu & Hcons) end.
      exists u. rewrite chars_str, Hu, orb_true_r. split; [reflexivity | exact Hcons].
  - apply matches_positive in H as (u & Hu & Hcons).
    exists u. rewrite chars_str. split; assumption.
  - inversion H; subst.
    + match goal with H : matches (Chr _) _ _ |- _ => apply matches_Chr in H end.
      exists ["0"%char]. split; [reflexivity | assumption].
    + match goal with H : matches (Seq _ _) _ _ |- _ => inversion H; subst end.
      match goal with H : matches (Seq _ _) _ _ |- _ =>
        apply matches_positive in H as (u & Hu & Hcons) end.
      match goal with H : matches (Opt _) _ _ |- _ => inversion H; subst end.
      * match goal with H : matches (Chr _) _ _ |- _ => apply matches_Chr in H end.
        exists ("-"%char :: u). rewrite chars_str. split.
        -- simpl. rewrite Hu, ?orb_true_r. reflexivity.
        -- eapply (consumes_app _ _ _ ["-"%char] u); eassumption.
      * match goal with H : matches Eps _ _ |- _ => inversion H; subst end.
        exists u. rewrite chars_str, Hu. split; [|exact Hcons].
        now rewrite orb_true_r.
Qed.

(** ** The pattern of a wildcard route *)

Lemma bodies_app ps qs : bodies (ps ++ qs) = (bodies ps ++ bodies qs)%list.
Proof.
  induction ps as [|[tok|b] ps IH]; simpl; [reflexivity | exact IH | now rewrite IH].
Qed.

Lemma captures_bodies ps : captures ps = List.length (bodies ps).
Proof.
  induction ps as [|[tok|b] ps IH]; simpl; [reflexivity | exact IH | now rewrite IH].
Qed.

Lemma matches_Lit l : forall st st', matches (Lit l) st st' -> consumes st st' l.
Proof.
  induction l as [|c l IH]; simpl; intros st st' H.
  - inversion H; subst. apply consumes_nil.
  - inversion H; subst.
    match goal with H : matches (Chr _) _ _ |- _ => apply matches_Chr in H end.
    match goal with H : matches (Lit _) _ _ |- _ => apply IH in H end.
    eapply (consumes_app _ _ _ [c] l); eassumption.
Qed.

(** After a match of the joined pieces, group [i + j] holds the segment of
    the [j]-th wildcard, and the groups below [i] are as before. *)
Lemma join_groups ps : forall ws i st st',
  bodies ps = map Wildcard.regex ws ->
  matches (join i ps) st st' ->
  (forall n, (n < i)%nat -> m_groups st' !! n = m_groups st !! n)
  /\ (forall j w, ws !! j = Some w ->
        exists s, m_groups st' !! (i + j)%nat = Some s
                  /\ language (Wildcard._type w) s = true).
Proof.
  induction ps as [|[tok|b] ps IH]; simpl; intros ws i st st' Hb H.
  - inversion H; subst. destruct ws; [|discriminate].
    split; [reflexivity | intros j w Hj; discriminate].
  - inversion H; subst.
    match goal with H : matches (Lit _) _ _ |- _ =>
      apply matches_Lit in H as (_ & _ & Hg) end.
    match goal with H : matches (join _ _) _ _ |- _ =>
      destruct (IH ws i _ _ Hb H) as [Hlow Hcap] end.
    split; [intros n Hn; rewrite Hlow by exact Hn; now rewrite Hg | exact Hcap].
  - destruct ws as [|w0 ws]; [discriminate|]. simpl in Hb.
    injection Hb as Hb0 Hb. inversion H; subst.
    match goal with H : matches (Grp _ _) _ _ |- _ => inversion H; subst end.
    match goal with H : matches (Wildcard.regex _) _ _ |- _ =>
      apply fragment_language in H as (u & Hu & Hrest & Hpos & Hg) end.
    match goal with H : matches (join _ _) _ _ |- _ =>
      destruct (IH ws (S i) _ _ Hb H) as [Hlow Hcap] end.
    simpl in Hlow, Hcap.
    assert (Htake : take (m_pos st'0 - m_pos st) (m_rest st) = u).
    { rewrite Hrest, Hpos.
      replace (m_pos st + List.length u - m_pos st)%nat with (List.length u) by lia.
      apply take_app_length. }
    rewrite Htake, Hg in Hlow.
    split.
    + intros n Hn. rewrite Hlow by lia. apply lookup_insert_ne. lia.
    + intros [|j] w Hj; simpl in Hj.
      * injection Hj as ->. exists (str u).
        rewrite Nat.add_0_r, Hlow by lia. rewrite lookup_insert_eq.
        split; [reflexivity | exact Hu].
      * replace (i + S j)%nat with (S (i + j)) by lia. exact (Hcap j w Hj).
Qed.

Lemma search_from_match_at r : forall s p m,
  search_from r p s = Some m -> exists p' s', match_at r p' s' = Some m.
Proof.
  induction s as [|c s IH]; intros p m H; simpl in H;
    destruct (match_at r p _) as [m'|] eqn:E; try discriminate;
    try (exists p; eexists; rewrite E; exact H).
  exact (IH _ _ H).
Qed.

Lemma search_from_suffix r : forall s p m,
  search_from r p s = Some m ->
  exists u s', s = (u ++ s')%list /\ match_at r (p + List.length u) s' = Some m.
Proof.
  induction s as [|c s IH]; intros p m H; simpl in H;
    destruct (match_at r p _) as [m'|] eqn:E; try discriminate.
  - exists [], []. simpl. rewrite Nat.add_0_r. split; [reflexivity | congruence].
  - exists [], (c :: s). simpl. rewrite Nat.add_0_r. split; [reflexivity | congruence].
  - apply IH in H as (u & s' & -> & H). exists (c :: u), s'. simpl.
    split; [reflexivity|]. now replace (p + S (List.length u))%nat
                             with (S p + List.length u)%nat by lia.
Qed.

(** The groups of a match of a compiled wildcard pattern. *)
Lemma compile_pieces_groups ps ws path m :
  bodies ps = map Wildcard.regex ws ->
  p_search (compile_pieces ps) path = Some m ->
  forall j w, ws !! j = Some w ->
    exists s, group m (S j) = Some s /\ language (Wildcard._type w) s = true.
Proof.
  intros Hb H j w Hj. simpl in H.
  apply search_from_match_at in H as (p & s & H). unfold match_at in H.
  apply run_sound in H as (st' & Hm & Hk). injection Hk as <-.
  inversion Hm; subst.
  match goal with H : matches (join _ _) _ _ |- _ =>
    destruct (join_groups ps ws 1 _ _ Hb H) as [_ Hcap] end.
  exact (Hcap j w Hj).
Qed.

(** ** Decimal literals: [int] and [str] *)

Lemma is_digit_val c :
  is_digit c = true -> (0 <= digit_val c <= 9)%Z /\ digit_char (digit_val c) = c.
Proof.
  unfold is_digit, in_range, digit_val, digit_char, code. intros H.
  apply andb_true_iff in H as [H1 H2].
  apply Nat.leb_le in H1, H2. split; [lia|].
  replace (Z.to_nat (Z.of_nat (nat_of_ascii c) - 48 + 48)) with (nat_of_ascii c) by lia.
  apply ascii_nat_embedding.
Qed.

Lemma nonzero_digit_val c :
  nonzero_digit c = true -> is_digit c = true /\ (1 <= digit_val c)%Z.
Proof.
  unfold nonzero_digit, is_digit, in_range, digit_val, code. intros H.
  apply andb_true_iff in H as [H1 H2]. apply Nat.leb_le in H1, H2.
  split; [|lia]. apply andb_true_iff. split; apply Nat.leb_le; lia.
Qed.

Lemma digits_val_snoc l c : digits_val (l ++ [c]) = (10 * digits_val l + digit_val c)%Z.
Proof. unfold digits_val. now rewrite fold_left_app. Qed.

(** A literal with no leading zero is at least [2 ^ (length - 1)], and
    [decimal] writes it back digit by digit. *)
Lemma decimal_digits l :
  forallb is_digit l = true -> positive_literal l = true ->
  (2 ^ Z.of_nat (List.length l - 1) <= digits_val l)%Z
  /\ forall fuel acc, (List.length l <= fuel)%nat ->
       decimal fuel (digits_val l) acc = (l ++ acc)%list.
Proof.
  induction l as [|c l0 IH] using rev_ind; intros Hd Hp; [discriminate|].
  rewrite forallb_app in Hd. apply andb_true_iff in Hd as [Hd0 Hc].
  simpl in Hc. rewrite andb_true_r in Hc.
  destruct (is_digit_val c Hc) as [Hr Hch].
  rewrite digits_val_snoc, length_app. simpl.
  destruct l0 as [|c0 l0'].
  - simpl in *. rewrite andb_true_r in Hp.
    destruct (nonzero_digit_val c Hp) as [_ H1].
    replace (10 * digits_val [] + digit_val c)%Z with (digit_val c)
      by (unfold digits_val; simpl; lia).
    split; [simpl; lia|].
    intros [|fuel] acc Hf; [lia|]. simpl.
    rewrite Z.mod_small by lia. rewrite Hch.
    destruct (digit_val c <? 10)%Z eqn:E; [reflexivity | apply Z.ltb_ge in E; lia].
  - assert (Hp0 : positive_literal (c0 :: l0') = true).
    { simpl in *. apply andb_true_iff in Hp as [Hp1 Hp2].
      rewrite Hp1. simpl. apply andb_true_iff in Hd0 as [_ Hd0]. exact Hd0. }
    destruct (IH Hd0 Hp0) as [Hb Hdec].
    set (v := digits_val (c0 :: l0')) in *.
    assert (Hv : (1 <= v)%Z).
    { assert (0 < 2 ^ Z.of_nat (List.length (c0 :: l0') - 1))%Z
        by (apply Z.pow_pos_nonneg; lia). lia. }
    split.
    + replace (Z.of_nat (List.length (c0 :: l0') + 1 - 1))
        with (Z.succ (Z.of_nat (List.length (c0 :: l0') - 1))) by (simpl; lia).
      rewrite Z.pow_succ_r by lia. lia.
    + intros [|fuel] acc Hf; [simpl in Hf; lia|]. simpl decimal.
      replace ((10 * v + digit_val c) mod 10)%Z with (digit_val c)
        by (rewrite Z.add_comm, Z.mul_comm, Z.mod_add by lia;
            now rewrite Z.mod_small by lia).
      replace ((10 * v + digit_val c) / 10)%Z with v
        by (rewrite Z.add_comm, Z.mul_comm, Z.div_add by lia;
            rewrite Z.div_small by lia; lia).
      rewrite Hch.
      destruct (10 * v + digit_val c <? 10)%Z eqn:E; [apply Z.ltb_lt in E; lia|].
      rewrite Hdec by (simpl in *; lia).
      now rewrite <- app_assoc.
Qed.

Lemma positive_literal_digits l :
  positive_literal l = true -> forallb is_digit l = true /\ all_digits l = true.
Proof.
  destruct l as [|c l]; [discriminate|]. simpl. intros H.
  apply andb_true_iff in H as [H1 H2].
  destruct (nonzero_digit_val c H1) as [Hc _]. now rewrite Hc, H2.
Qed.

Lemma py_str_positive l :
  positive_literal l = true ->
  (1 <= digits_val l)%Z /\ py_str (digits_val l) = str l
  /\ py_str (- digits_val l) = str ("-"%char :: l).
Proof.
  intros Hp. destruct (positive_literal_digits l Hp) as [Hd _].
  destruct (decimal_digits l Hd Hp) as [Hb Hdec].
  assert (Hpow : (0 < 2 ^ Z.of_nat (List.length l - 1))%Z)
    by (apply Z.pow_pos_nonneg; lia).
  assert (Hlog : (Z.of_nat (List.length l - 1) <= Z.log2 (digits_val l))%Z)
    by (apply Z.log2_le_pow2; lia).
  assert (Hfuel : (List.length l <= S (Z.to_nat (Z.log2 (digits_val l))))%nat) by lia.
  split; [lia|]. unfold py_str. split.
  - destruct (digits_val l <? 0)%Z eqn:E; [apply Z.ltb_lt in E; lia|].
    rewrite Hdec by exact Hfuel. now rewrite app_nil_r.
  - destruct (- digits_val l <? 0)%Z eqn:E; [|apply Z.ltb_ge in E; lia].
    rewrite Z.opp_involutive, Hdec by exact Hfuel. now rewrite app_nil_r.
Qed.

Lemma digit_not_sign c l :
  all_digits (c :: l) = true -> Ascii.eqb c "-" = false /\ Ascii.eqb c "+" = false.
Proof.
  simpl. intros H. apply andb_true_iff in H as [H _].
  split; destruct (Ascii.eqb_spec c "-"), (Ascii.eqb_spec c "+");
    subst; try reflexivity; discriminate.
Qed.

Lemma py_int_digits l :
  all_digits l = true -> py_int (str l) = Some (digits_val l).
Proof.
  intros H. unfold py_int. rewrite chars_str.
  destruct l as [|c l]; [discriminate|].
  destruct (digit_not_sign c l H) as [-> ->]. now rewrite H.
Qed.

(** On a segment of an integer type, [int] succeeds and [str] gives the
    segment back. *)
Lemma int_language t s :
  int_typed t = true -> language t s = true ->
  exists z, py_int s = Some z /\ py_str z = s.
Proof.
  assert (Hpos : forall s, positive_literal (chars s) = true ->
                 exists z, py_int s = Some z /\ py_str z = s).
  { intros s0 Hp. exists (digits_val (chars s0)).
    destruct (positive_literal_digits _ Hp) as [_ Ha].
    destruct (py_str_positive _ Hp) as (_ & Hs & _).
    rewrite <- (str_chars s0) at 1. rewrite py_int_digits by exact Ha.
    rewrite Hs, str_chars. split; reflexivity. }
  assert (Hzero : forall s, String.eqb s "0" = true ->
                  exists z, py_int s = Some z /\ py_str z = s).
  { intros s0 E. apply String.eqb_eq in E. subst. exists 0%Z. split; reflexivity. }
  destruct t; try discriminate; intros _ H; simpl in H.
  - apply orb_true_iff in H as [H|H]; [apply Hzero | apply Hpos]; exact H.
  - apply Hpos; exact H.
  - apply orb_true_iff in H as [H|H];
      [apply orb_true_iff in H as [H|H]; [apply Hzero | apply Hpos]; exact H|].
    destruct (chars s) as [|c l] eqn:E; [discriminate|].
    destruct c as [[] [] [] [] [] [] [] []]; try discriminate H.
    exists (- digits_val l)%Z.
    destruct (positive_literal_digits _ H) as [_ Ha].
    destruct (py_str_positive _ H) as (_ & _ & Hs).
    unfold py_int. rewrite E. simpl. rewrite Ha, Hs, <- E, str_chars.
    split; reflexivity.
Qed.

(** ** The conversion of [int] *)

Lemma forallb_imp {X : Type} (f g : X -> bool) l :
  (forall x, f x = true -> g x = true) -> forallb f l = true -> forallb g l = true.
Proof.
  intros Hfg. induction l as [|x l IH]; simpl; [reflexivity|].
  intros H. apply andb_true_iff in H as [Hx Hl]. now rewrite (Hfg x Hx), IH.
Qed.

Lemma digit_not_space c : is_digit c = true -> negb (int_space c) = true.
Proof.
  unfold is_digit, int_space, in_range. intros H.
  apply andb_true_iff in H as [H1 H2]. apply Nat.leb_le in H1, H2.
  apply negb_true_iff. repeat (apply orb_false_intro).
  - apply andb_false_iff. right. apply Nat.leb_gt. lia.
  - apply Nat.eqb_neq. lia.
  - apply Nat.eqb_neq. lia.
  - apply Nat.eqb_neq. lia.
Qed.

Lemma drop_spaces_nospace l :
  forallb (fun c => negb (int_space c)) l = true -> drop_spaces l = l.
Proof.
  destruct l as [|c l]; simpl; [reflexivity|]. intros H.
  apply andb_true_iff in H as [H _]. apply negb_true_iff in H. now rewrite H.
Qed.

Lemma strip_nospace l :
  forallb (fun c => negb (int_space c)) l = true -> strip l = l.
Proof.
  intros H. unfold strip. rewrite (drop_spaces_nospace l H).
  rewrite drop_spaces_nospace; [apply rev_involutive|].
  apply forallb_forall. intros c Hc. apply in_rev in Hc.
  rewrite forallb_forall in H. exact (H c Hc).
Qed.

Lemma digit_groups_digits d :
  forallb is_digit d = true ->
  forall after, after = true \/ d <> [] -> digit_groups after d = Some d.
Proof.
  induction d as [|c d IH]; simpl; intros H after Ha.
  - destruct Ha as [-> | Ha]; [reflexivity | contradiction].
  - apply andb_true_iff in H as [Hc Hd]. rewrite Hc, (IH Hd true) by now left.
    reflexivity.
Qed.

Lemma filter_digits d : forallb is_digit d = true -> List.filter is_digit d = d.
Proof.
  induction d as [|c d IH]; simpl; [reflexivity|]. intros H.
  apply andb_true_iff in H as [Hc Hd]. now rewrite Hc, IH.
Qed.

Lemma all_digits_spec d : all_digits d = true -> forallb is_digit d = true /\ d <> [].
Proof. destruct d; [discriminate|]. intros H. split; [exact H | discriminate]. Qed.

(** On a plain literal [int] gives what the literal denotes, unless the
    literal has more digits than it converts. *)
Lemma int_of_str_digits d :
  all_digits d = true ->
  int_of_str (str d)
  = if (int_max_str_digits <? List.length d)%nat then None else Some (digits_val d).
Proof.
  intros Ha. destruct (all_digits_spec d Ha) as [Hd Hne].
  unfold int_of_str. rewrite chars_str, strip_nospace
    by exact (forallb_imp _ _ d digit_not_space Hd).
  destruct d as [|c l]; [contradiction|].
  destruct (digit_not_sign c l Ha) as [Hm Hp].
  unfold sign_body. rewrite Hm, Hp. cbn [fst snd].
  rewrite (digit_groups_digits _ Hd false) by now right. reflexivity.
Qed.

Lemma int_of_str_minus d :
  all_digits d = true ->
  int_of_str (str ("-"%char :: d))
  = if (int_max_str_digits <? List.length d)%nat then None else Some (- digits_val d)%Z.
Proof.
  intros Ha. destruct (all_digits_spec d Ha) as [Hd Hne].
  unfold int_of_str. rewrite chars_str, strip_nospace.
  - change (sign_body ("-"%char :: d)) with (true, d). cbn [fst snd].
    rewrite (digit_groups_digits _ Hd false) by now right. reflexivity.
  - change (forallb (fun c => negb (int_space c)) ("-"%char :: d))
      with (forallb (fun c => negb (int_space c)) d).
    exact (forallb_imp _ _ d digit_not_space Hd).
Qed.

(** On a segment of an integer type, [int] gives the integer of the
    segment, unless the segment has more digits than it converts. *)
Lemma int_of_str_language t s :
  int_typed t = true -> language t s = true ->
  int_of_str s = if (int_max_str_digits <? digit_count s)%nat then None else py_int s.
Proof.
  assert (Hpos : forall s, positive_literal (chars s) = true ->
            int_of_str s
            = if (int_max_str_digits <? digit_count s)%nat then None else py_int s).
  { intros s0 Hp. destruct (positive_literal_digits _ Hp) as [Hd Ha].
    unfold digit_count. rewrite (filter_digits _ Hd).
    rewrite <- (str_chars s0) at 1 3.
    now rewrite int_of_str_digits, py_int_digits by exact Ha. }
  assert (Hzero : forall s, String.eqb s "0" = true ->
            int_of_str s
            = if (int_max_str_digits <? digit_count s)%nat then None else py_int s).
  { intros s0 E. apply String.eqb_eq in E. subst. reflexivity. }
  destruct t; try discriminate; intros _ H; simpl in H.
  - apply orb_true_iff in H as [H|H]; [apply Hzero | apply Hpos]; exact H.
  - apply Hpos; exact H.
  - apply orb_true_iff in H as [H|H];
      [apply orb_true_iff in H as [H|H]; [apply Hzero | apply Hpos]; exact H|].
    destruct (chars s) as [|c l] eqn:E; [discriminate|].
    destruct c as [[] [] [] [] [] [] [] []]; try discriminate H.
    destruct (positive_literal_digits _ H) as [Hd Ha].
    unfold digit_count. rewrite E.
    change (List.filter is_digit ("-"%char :: l)) with (List.filter is_digit l).
    rewrite (filter_digits _ Hd). rewrite <- (str_chars s), E.
    rewrite int_of_str_minus by exact Ha.
    unfold py_int. rewrite chars_str. change (Ascii.eqb "-" "-") with true.
    cbv iota. now rewrite Ha.
Qed.

(** ** Wildcard routes *)

Lemma value_converted w s v :
  converted (Wildcard._type w) s = Some v <-> Wildcard.value w (VStr s) = Ok v.
Proof.
  unfold converted, Wildcard.value.
  destruct (Wildcard._type w); simpl;
    try (split; intros H; injection H as <-; reflexivity);
    destruct (int_of_str s); simpl;
    split; intros H; try discriminate; injection H as <-; reflexivity.
Qed.

(** A segment of a type converts, unless its type is an integer type and
    it has more digits than [int] converts; then [value] raises. *)
Lemma value_language w s :
  language (Wildcard._type w) s = true ->
  if int_typed (Wildcard._type w) && (int_max_str_digits <? digit_count s)%nat
  then Wildcard.value w (VStr s) = Raise ValueError
  else exists v, Wildcard.value w (VStr s) = Ok v
                 /\ converted (Wildcard._type w) s = Some v.
Proof.
  intros Hl. destruct (int_typed (Wildcard._type w)) eqn:Ht; cbn [andb].
  - pose proof (int_of_str_language _ s Ht Hl) as Hi.
    destruct (int_language _ s Ht Hl) as (z & Hz & _).
    assert (Hv : Wildcard.value w (VStr s)
                 = match int_of_str s with
                   | Some z => Ok (VInt z)
                   | None => Raise ValueError
                   end).
    { unfold Wildcard.value. now destruct (Wildcard._type w). }
    unfold converted. rewrite Hv, Ht, Hi.
    destruct (int_max_str_digits <? digit_count s)%nat; [reflexivity|].
    rewrite Hz. eauto.
  - exists (VStr s). unfold converted, Wildcard.value. rewrite Ht.
    destruct (Wildcard._type w); try discriminate Ht; auto.
Qed.

Lemma groups_tuple_group n m i g : groups_tuple n m !! i = Some g -> g = group m (S i).
Proof.
  unfold groups_tuple. change (map (group m) (seq 1 n)) with (group m <$> seq 1 n).
  rewrite list_lookup_fmap. destruct (seq 1 n !! i) as [x|] eqn:E; [|discriminate].
  apply lookup_seq in E as [-> _]. simpl. intros H. now injection H as <-.
Qed.

Lemma groups_tuple_lookup n m j :
  (j < n)%nat -> groups_tuple n m !! j = Some (group m (S j)).
Proof.
  intros H. unfold groups_tuple.
  change (map (group m) (seq 1 n)) with (group m <$> seq 1 n).
  rewrite list_lookup_fmap, lookup_seq_lt by exact H. reflexivity.
Qed.

Section WildcardRouteFacts.
Context {callback : Type}.
Implicit Types (self : WildcardRoute.t callback) (cb : callback).

(** The loop of [__init__] keeps the wildcards aligned with the
    parenthesised pieces. *)
Lemma collect_bodies toks : forall re ws re' ws',
  WildcardRoute.collect toks re ws = Ok (re', ws') ->
  bodies re = map Wildcard.regex ws ->
  bodies re' = map Wildcard.regex ws'.
Proof.
  induction toks as [|token toks IH]; simpl; intros re ws re' ws' H Hb.
  - injection H as <- <-. exact Hb.
  - destruct (negb (String.eqb token "") && startswith token "<" && endswith token ">").
    + destruct (Wildcard.__init__ token) as [w|e]; simpl in H; [|discriminate].
      apply IH in H; [exact H|].
      rewrite bodies_app, map_app, Hb. reflexivity.
    + apply IH in H; [exact H|].
      rewrite bodies_app, Hb. simpl. now rewrite app_nil_r.
Qed.

Lemma init_inv pattern cb self :
  WildcardRoute.__init__ pattern cb = Ok self ->
  WildcardRoute._callback self = cb
  /\ exists ps, WildcardRoute._re self = compile_pieces ps
                /\ bodies ps = map Wildcard.regex (WildcardRoute._wildcards self).
Proof.
  unfold WildcardRoute.__init__. intros H.
  destruct (WildcardRoute.collect _ [] []) as [[re ws]|e] eqn:E; simpl in H;
    [|discriminate].
  injection H as <-. simpl. split; [reflexivity|].
  exists re. split; [reflexivity|].
  exact (collect_bodies _ _ _ _ _ E eq_refl).
Qed.

(** In a match of a route built by [__init__], every wildcard has its
    group, and the group holds a segment of the wildcard's type. *)
Lemma init_groups pattern cb self path m :
  WildcardRoute.__init__ pattern cb = Ok self ->
  p_search (WildcardRoute._re self) path = Some m ->
  p_groups (WildcardRoute._re self) = List.length (WildcardRoute._wildcards self)
  /\ forall j w, WildcardRoute._wildcards self !! j = Some w ->
       exists s, group m (S j) = Some s /\ language (Wildcard._type w) s = true.
Proof.
  intros Hinit Hm. destruct (init_inv _ _ _ Hinit) as (_ & ps & Hre & Hb).
  rewrite Hre in *. split.
  - simpl. now rewrite captures_bodies, Hb, length_map.
  - exact (compile_pieces_groups ps _ path m Hb Hm).
Qed.

Lemma named_cons_other w v caps n :
  String.eqb (Wildcard.name w) n = false -> named ((w, v) :: caps) n = named caps n.
Proof. intros H. unfold named. simpl. now rewrite H. Qed.

Lemma positional_cons_other w v caps :
  String.eqb (Wildcard.name w) "" = false -> positional ((w, v) :: caps) = positional caps.
Proof. intros H. unfold positional. simpl. now rewrite H. Qed.

(** The loop of [match] over the wildcards: those named ["!"] are passed
    over, the others give their converted values. *)
Lemma extract_spec m n l : forall caps args kwargs,
  Forall2 (captured m n) (List.filter kept l) caps ->
  exists kwargs',
    WildcardRoute.extract m n l args kwargs = Ok ((args ++ positional caps)%list, kwargs')
    /\ forall nm, kwargs' !! nm = match named caps nm with
                                  | Some v => Some v
                                  | None => kwargs !! nm
                                  end.
Proof.
  induction l as [|[i w] l IH]; intros caps args kwargs Hc.
  - inversion Hc; subst. exists kwargs. simpl. rewrite app_nil_r.
    split; [reflexivity|]. intros nm. unfold named. simpl.
    destruct (_ || _); reflexivity.
  - cbn [List.filter] in Hc. unfold kept at 1 in Hc. cbn [snd] in Hc.
    cbn [WildcardRoute.extract].
    destruct (String.eqb (Wildcard.name w) "!") eqn:Ebang; cbn [negb] in Hc.
    + exact (IH caps args kwargs Hc).
    + inversion Hc as [|iw [w' v] l' caps' (Hw & s & Hg & Hv) Hrest]; subst.
      simpl in Hw, Hg, Hv. subst w'.
      rewrite Hg. simpl. apply value_converted in Hv. rewrite Hv. simpl.
      destruct (String.eqb (Wildcard.name w) "") eqn:Eempty.
      * apply String.eqb_eq in Eempty.
        destruct (IH caps' (args ++ [v])%list kwargs Hrest) as (kw & Hex & Hkw).
        exists kw. split.
        -- rewrite Hex. unfold positional. simpl. rewrite Eempty. simpl.
           now rewrite <- app_assoc.
        -- intros nm. rewrite Hkw.
           destruct (String.eqb nm "") eqn:En.
           ++ unfold named. rewrite En, !orb_true_r. reflexivity.
           ++ rewrite named_cons_other; [reflexivity|].
              rewrite Eempty, String.eqb_sym. exact En.
      * destruct (IH caps' args (<[Wildcard.name w := v]> kwargs) Hrest)
          as (kw & Hex & Hkw).
        exists kw. rewrite positional_cons_other by exact Eempty.
        split; [exact Hex|]. intros nm. rewrite Hkw.
        destruct (String.eqb (Wildcard.name w) nm) eqn:En.
        -- apply String.eqb_eq in En. subst nm.
           unfold named. rewrite Ebang, Eempty. simpl.
           rewrite String.eqb_refl, last_cons.
           destruct (last _) as [[w1 v1]|]; simpl; [reflexivity|].
           now rewrite lookup_insert_eq.
        -- rewrite named_cons_other by exact En.
           destruct (named caps' nm); [reflexivity|].
           apply lookup_insert_ne. intros Heq.
           rewrite Heq, String.eqb_refl in En. discriminate.
Qed.
End WildcardRouteFacts.

Section WildcardMatch.
Context {callback : Type}.
Implicit Types (self : WildcardRoute.t callback) (cb : callback).

Lemma enumerate_lookup {X : Type} (l : list X) : forall a i j x,
  combine (seq a (List.length l)) l !! i = Some (j, x) -> j = (a + i)%nat /\ l !! i = Some x.
Proof.
  induction l as [|y l IH]; intros a i j x H; simpl in H; [discriminate|].
  destruct i as [|i]; simpl in H.
  - injection H as <- <-. split; [lia | reflexivity].
  - apply IH in H as [-> H]. split; [lia | exact H].
Qed.

Lemma enumerate_snd {X : Type} (l : list X) : forall a,
  map snd (combine (seq a (List.length l)) l) = l.
Proof. induction l as [|y l IH]; intros a; simpl; [reflexivity | now rewrite IH]. Qed.

(** After a match of the joined pieces, the segment of each wildcard is a
    part of the text that was left to match. *)
Lemma join_groups_within ps : forall ws i st st',
  bodies ps = map Wildcard.regex ws ->
  matches (join i ps) st st' ->
  (forall n, (n < i)%nat -> m_groups st' !! n = m_groups st !! n)
  /\ (forall j w, ws !! j = Some w ->
        exists s, m_groups st' !! (i + j)%nat = Some s
                  /\ exists a b, m_rest st = (a ++ chars s ++ b)%list).
Proof.
  induction ps as [|[tok|b] ps IH]; simpl; intros ws i st st' Hb H.
  - inversion H; subst. destruct ws; [|discriminate].
    split; [reflexivity | intros j w Hj; discriminate].
  - inversion H; subst.
    match goal with H : matches (Lit _) _ _ |- _ =>
      apply matches_Lit in H as (Hrest & _ & Hg) end.
    match goal with H : matches (join _ _) _ _ |- _ =>
      destruct (IH ws i _ _ Hb H) as [Hlow Hcap] end.
    split; [intros n Hn; rewrite Hlow by exact Hn; now rewrite Hg|].
    intros j w Hj. destruct (Hcap j w Hj) as (s & Hs & a & c & Hab).
    exists s. split; [exact Hs|]. exists (chars tok ++ a)%list, c.
    rewrite Hrest, Hab, <- app_assoc. reflexivity.
  - destruct ws as [|w0 ws]; [discriminate|]. simpl in Hb.
    injection Hb as Hb0 Hb. inversion H; subst.
    match goal with H : matches (Grp _ _) _ _ |- _ => inversion H; subst end.
    match goal with H : matches (Wildcard.regex _) _ _ |- _ =>
      apply fragment_language in H as (u & Hu & Hrest & Hpos & Hg) end.
    match goal with H : matches (join _ _) _ _ |- _ =>
      destruct (IH ws (S i) _ _ Hb H) as [Hlow Hcap] end.
    simpl in Hlow, Hcap.
    assert (Htake : take (m_pos st'0 - m_pos st) (m_rest st) = u).
    { rewrite Hrest, Hpos.
      replace (m_pos st + List.length u - m_pos st)%nat with (List.length u) by lia.
      apply take_app_length. }
    rewrite Htake, Hg in Hlow.
    split.
    + intros n Hn. rewrite Hlow by lia. apply lookup_insert_ne. lia.
    + intros [|j] w Hj; simpl in Hj.
      * injection Hj as ->. exists (str u).
        rewrite Nat.add_0_r, Hlow by lia. rewrite lookup_insert_eq.
        split; [reflexivity|]. exists [], (m_rest st'0). now rewrite chars_str.
      * replace (i + S j)%nat with (S (i + j)) by lia.
        destruct (Hcap j w Hj) as (s & Hs & a & c & Hab).
        exists s. split; [exact Hs|]. exists (u ++ a)%list, c.
        rewrite Hrest, Hab, <- app_assoc. reflexivity.
Qed.

Lemma digit_count_within a b s path :
  chars path = (a ++ chars s ++ b)%list -> (digit_count s <= digit_count path)%nat.
Proof.
  unfold digit_count. intros ->. rewrite !List.filter_app, !length_app. lia.
Qed.

(** In a match of a route built by [__init__], every wildcard has its
    group; the group holds a segment of the wildcard's type, which is a
    part of the path. *)
Lemma init_groups_within pattern cb self path m :
  WildcardRoute.__init__ pattern cb = Ok self ->
  p_search (WildcardRoute._re self) path = Some m ->
  forall j w, WildcardRoute._wildcards self !! j = Some w ->
    exists s, group m (S j) = Some s /\ language (Wildcard._type w) s = true
              /\ (digit_count s <= digit_count path)%nat.
Proof.
  intros Hinit Hm j w Hj.
  destruct (init_groups _ _ _ _ _ Hinit Hm) as [_ Hgrp].
  destruct (Hgrp j w Hj) as (s & Hg & Hl).
  exists s. split; [exact Hg|]. split; [exact Hl|].
  destruct (init_inv _ _ _ Hinit) as (_ & ps & Hre & Hb).
  rewrite Hre in Hm. simpl in Hm.
  apply search_from_suffix in Hm as (u & s' & Hs & Hm).
  unfold match_at in Hm. apply run_sound in Hm as (st' & Hmat & Hk).
  injection Hk as <-. inversion Hmat; subst.
  match goal with H : matches Bol _ _ |- _ => inversion H; subst end.
  match goal with H : matches (join _ _) _ _ |- _ =>
    destruct (join_groups_within ps _ 1 _ _ Hb H) as [_ Hcap] end.
  destruct (Hcap j w Hj) as (s0 & Hg0 & a & b & Hab).
  unfold group in Hg. simpl in Hg, Hg0, Hab. rewrite Hg0 in Hg. injection Hg as ->.
  apply (digit_count_within (u ++ a) b). rewrite Hs, Hab, <- app_assoc. reflexivity.
Qed.

(** The same for the list that [match] walks. *)
Lemma init_texts pattern cb self path m :
  WildcardRoute.__init__ pattern cb = Ok self ->
  p_search (WildcardRoute._re self) path = Some m ->
  Forall (fun iw =>
            exists s, groups_tuple (p_groups (WildcardRoute._re self)) m !! fst iw
                      = Some (Some s)
                      /\ language (Wildcard._type (snd iw)) s = true
                      /\ (digit_count s <= digit_count path)%nat)
    (WildcardRoute.enumerate (WildcardRoute._wildcards self)).
Proof.
  intros Hinit Hm. destruct (init_groups _ _ _ _ _ Hinit Hm) as [Hn _].
  apply Forall_lookup. intros i [j w] Hi.
  apply enumerate_lookup in Hi as [-> Hi]. simpl.
  destruct (init_groups_within _ _ _ _ _ Hinit Hm i w Hi) as (s & Hg & Hl & Hd).
  exists s. split; [|split; assumption].
  rewrite groups_tuple_lookup, Hg; [reflexivity|].
  rewrite Hn. apply lookup_lt_Some in Hi. exact Hi.
Qed.

(** The loop of [match] raises [ValueError] when a wildcard whose value it
    extracts has a group with more digits than [int] converts. *)
Lemma extract_raises m n l : forall args kwargs,
  Forall (fun iw => exists s, groups_tuple n m !! fst iw = Some (Some s)
                              /\ language (Wildcard._type (snd iw)) s = true) l ->
  existsb (over_limit m) l = true ->
  WildcardRoute.extract m n l args kwargs = Raise ValueError.
Proof.
  induction l as [|[i w] l IH]; intros args kwargs Hl He; [discriminate|].
  inversion Hl as [|? ? (s & Hg & Hs) Hrest]; subst. cbn [fst snd] in Hg, Hs.
  cbn [existsb] in He. cbn [WildcardRoute.extract].
  unfold over_limit at 1, kept in He. cbn [fst snd] in He.
  destruct (String.eqb (Wildcard.name w) "!") eqn:Ebang; cbn [negb andb orb] in He.
  - exact (IH args kwargs Hrest He).
  - rewrite Hg. cbn [of_group].
    rewrite <- (groups_tuple_group _ _ _ _ Hg) in He.
    pose proof (value_language w s Hs) as Hv.
    destruct (int_typed (Wildcard._type w) && (int_max_str_digits <? digit_count s)%nat).
    + now rewrite Hv.
    + destruct Hv as (v & Hv & _). rewrite Hv. cbn [mbind result_bind orb] in *.
      destruct (String.eqb (Wildcard.name w) ""); exact (IH _ _ Hrest He).
Qed.

(** Otherwise every wildcard whose value it extracts has a converted
    value. *)
Lemma kept_captured m n l :
  Forall (fun iw => exists s, groups_tuple n m !! fst iw = Some (Some s)
                              /\ language (Wildcard._type (snd iw)) s = true) l ->
  existsb (over_limit m) l = false ->
  exists caps, Forall2 (captured m n) (List.filter kept l) caps.
Proof.
  induction l as [|[i w] l IH]; intros Hl He.
  - exists []. constructor.
  - inversion Hl as [|? ? (s & Hg & Hs) Hrest]; subst. cbn [fst snd] in Hg, Hs.
    cbn [existsb] in He. apply orb_false_iff in He as [He1 He2].
    destruct (IH Hrest He2) as (caps & Hcaps).
    cbn [List.filter]. destruct (kept (i, w)) eqn:Ek; [|exists caps; exact Hcaps].
    pose proof (value_language w s Hs) as Hv.
    unfold over_limit in He1. rewrite Ek in He1. cbn [fst snd andb] in He1.
    rewrite <- (groups_tuple_group _ _ _ _ Hg) in He1. rewrite He1 in Hv.
    destruct Hv as (v & _ & Hv).
    exists ((w, v) :: caps). constructor; [|exact Hcaps].
    split; [reflexivity|]. exists s. split; assumption.
Qed.



(** When the pattern of a route built by [__init__] matches, [match]
    returns a result or raises [ValueError]; it returns when the path has
    no more digits than [int] converts. *)
Lemma wildcard_match_found pattern cb self path m :
  WildcardRoute.__init__ pattern cb = Ok self ->
  p_search (WildcardRoute._re self) path = Some m ->
  ((exists call, WildcardRoute.match_ self path = Ok (Some call))
   \/ WildcardRoute.match_ self path = Raise ValueError)
  /\ ((digit_count path <= int_max_str_digits)%nat ->
      exists call, WildcardRoute.match_ self path = Ok (Some call)).
Proof.
  intros Hinit Hm. unfold WildcardRoute.match_. rewrite Hm.
  pose proof (init_texts _ _ _ _ _ Hinit Hm) as Ht.
  set (n := p_groups (WildcardRoute._re self)) in *.
  assert (Hl : Forall (fun iw => exists s, groups_tuple n m !! fst iw = Some (Some s)
                         /\ language (Wildcard._type (snd iw)) s = true)
                 (WildcardRoute.enumerate (WildcardRoute._wildcards self))).
  { eapply Forall_impl; [exact Ht|]. intros iw (s & Hg & Hs & _). eauto. }
  destruct (existsb (over_limit m) (WildcardRoute.enumerate (WildcardRoute._wildcards self)))
    eqn:E.
  - rewrite (extract_raises m n _ [] ∅ Hl E). split; [now right|].
    intros Hshort. exfalso.
    apply existsb_exists in E as (iw & Hin & Hover). apply list_elem_of_In in Hin.
    rewrite Forall_forall in Ht. destruct (Ht iw Hin) as (s & Hg & _ & Hd).
    unfold over_limit in Hover. rewrite <- (groups_tuple_group _ _ _ _ Hg) in Hover.
    apply andb_true_iff in Hover as [_ Hover]. apply Nat.ltb_lt in Hover. lia.
  - destruct (kept_captured m n _ Hl E) as (caps & Hcaps).
    destruct (extract_spec m n _ caps [] ∅ Hcaps) as (kwargs & -> & _).
    simpl. split; eauto.
Qed.

End WildcardMatch.

(** The pattern [/files/<!>/<name>] on the path [/files/a/b]: only the
    named value, and no positional one. *)
Example files_route_results :
  (self ← WildcardRoute.__init__ "/files/<!>/<name>" 7%nat;
   WildcardRoute.match_ self "/files/a/b")
  = Ok (Some (7%nat, [], {[ "name" := VStr "b" ]})).
Proof. vm_compute. reflexivity. Qed.

(** The pattern [/user/<id:int>/<>/<!>] on the path [/user/42/a/b]: the
    integer under its name, the value of the unnamed wildcard in the
    positional list. *)
Example user_route_results :
  (self ← WildcardRoute.__init__ "/user/<id:int>/<>/<!>" 7%nat;
   WildcardRoute.match_ self "/user/42/a/b")
  = Ok (Some (7%nat, [VStr "a"], {[ "id" := VInt 42 ]})).
Proof. vm_compute. reflexivity. Qed.



(** ** The router *)

Section RouterFacts.
Context {callback : Type}.
Variable re_compile : string -> option Pattern.
Implicit Types (self : Router.t callback) (cb : callback).





Lemma add_sets_literal method pattern path cb self :
  Router._normalize_pattern pattern = (literal, path) ->
  literal_entry (fst (Router.add re_compile method pattern cb self)) method path = Some cb.
Proof.
  intros Hn. unfold Router.add. rewrite Hn.
  destruct (Router.getitem ∅ (Router._literal self) method) as [d lit].
  unfold literal_entry. simpl. rewrite lookup_insert_eq. apply lookup_insert_eq.
Qed.

Lemma add_keeps_literal method' pattern' cb' self method path :
  ~ registers_literal method path (method', pattern', cb') ->
  literal_entry (fst (Router.add re_compile method' pattern' cb' self)) method path
  = literal_entry self method path.
Proof.
  unfold registers_literal. simpl. intros Hno. unfold Router.add.
  destruct (Router._normalize_pattern pattern') as [[| |] pat] eqn:Hn.
  - unfold Router.getitem, literal_entry.
    destruct (decide (method' = method)) as [->|Hm].
    + assert (Hp : pat <> path) by (intros ->; apply Hno; split; reflexivity).
      destruct (Router._literal self !! method) as [d|] eqn:E; simpl;
        rewrite lookup_insert_eq, lookup_insert_ne by exact Hp;
        [reflexivity | apply lookup_empty].
    + destruct (Router._literal self !! method') as [d|] eqn:E; simpl;
        rewrite !lookup_insert_ne by exact Hm; reflexivity.
  - destruct (Router.getitem [] (Router._wildcard self) method') as [l wc].
    destruct (WildcardRoute.__init__ pat cb'); reflexivity.
  - destruct (Router.getitem [] (Router._regex self) method') as [l rx].
    destruct (RegexRoute.__init__ re_compile pat cb'); reflexivity.
Qed.

Lemma add_all_keeps_literal calls : forall self method path,
  Forall (fun call => ~ registers_literal method path call) calls ->
  literal_entry (add_all re_compile calls self) method path
  = literal_entry self method path.
Proof.
  induction calls as [|[[m p] c] calls IH]; intros self method path H; [reflexivity|].
  apply Forall_cons in H as [H1 H2]. unfold add_all. simpl.
  fold (add_all re_compile calls (fst (Router.add re_compile m p c self))).
  rewrite IH by exact H2. apply add_keeps_literal. exact H1.
Qed.

(** X1. A literal route that was registered, and not registered again
    since, is what [resolve] returns for its method and path, whatever other
    routes were registered before or after it. *)
Lemma resolve_registered_literal calls method pattern path cb self :
  Router._normalize_pattern pattern = (literal, path) ->
  Forall (fun call => ~ registers_literal method path call) calls ->
  Router.resolve (add_all re_compile calls
                    (fst (Router.add re_compile method pattern cb self))) method path
  = Ok (Some (cb, [], ∅)).
Proof.
  intros Hn Hcalls.
  pose proof (add_all_keeps_literal calls
                (fst (Router.add re_compile method pattern cb self))
                method path Hcalls) as H.
  rewrite (add_sets_literal method pattern path cb self Hn) in H.
  unfold literal_entry in H. unfold Router.resolve.
  match type of H with
  | match ?e with _ => _ end = _ => destruct e as [d|]; [|discriminate]
  end.
  now rewrite H.
Qed.

(** C1. If the path is a key of the method's literal index, [resolve]
    returns that entry's callback with no positional and no named
    results, whatever the wildcard and regex routes of the router are. *)
Theorem resolve_literal self method path d cb :
  Router._literal self !! method = Some d ->
  d !! path = Some cb ->
  Router.resolve self method path = Ok (Some (cb, [], ∅)).
Proof. intros Hm Hp. unfold Router.resolve. now rewrite Hm, Hp. Qed.



Lemma add_appends_regex method pattern pat cb route self :
  Router._normalize_pattern pattern = (regex_type, pat) ->
  RegexRoute.__init__ re_compile pat cb = Ok route ->
  Router._regex (fst (Router.add re_compile method pattern cb self)) !! method
  = Some (default [] (Router._regex self !! method) ++ [route])%list.
Proof.
  intros Hn Hinit. unfold Router.add, Router.getitem. rewrite Hn, Hinit.
  destruct (Router._regex self !! method); simpl; apply lookup_insert_eq.
Qed.

End RouterFacts.


Lemma resolve_literal_witness :
  Router._literal example_router !! "GET" = Some {[ "/user/me" := 3%nat ]}
  /\ ({[ "/user/me" := 3%nat ]} : gmap string nat) !! "/user/me" = Some 3%nat
  /\ Router.resolve example_router "GET" "/user/me" = Ok (Some (3%nat, [], ∅)).
Proof.
  assert (H1 : Router._literal example_router !! "GET" = Some {[ "/user/me" := 3%nat ]})
    by (vm_compute; reflexivity).
  assert (H2 : ({[ "/user/me" := 3%nat ]} : gmap string nat) !! "/user/me" = Some 3%nat)
    by (vm_compute; reflexivity).
  split; [exact H1|]. split; [exact H2|].
  exact (resolve_literal example_router "GET" "/user/me" _ _ H1 H2).
Defined.

(** The wildcard route of the literal's own path is still there: without
    the literal entry the path would resolve to it. *)
Example literal_overlapped :
  (r ← WildcardRoute.__init__ "/user/<id>" 1%nat; WildcardRoute.match_ r "/user/me")
  = Ok (Some (1%nat, [], {[ "id" := VStr "me" ]})).
Proof. vm_compute. reflexivity. Qed.


Section RouterSafety.
Context {callback : Type}.
Variable re_compile : string -> option Pattern.
Implicit Types (self : Router.t callback) (cb : callback).





End RouterSafety.



(** ** Greedy repetition of a character set *)

Section Greedy.
Context {A : Type}.
Implicit Types (k : mstate -> option A).

(** A repetition of a set first consumes all the characters of the set
    that are there: when the continuation accepts the end of the text,
    that is the match. *)
Lemma star_cls_greedy f k g x : forall rest p,
  forallb f rest = true ->
  k (MState (p + List.length rest) [] g) = Some x ->
  star_loop (run (Cls f)) k (List.length rest) (MState p rest g) = Some x.
Proof.
  induction rest as [|c rest IH]; intros p Hf Hk; simpl in *.
  - now rewrite Nat.add_0_r in Hk.
  - apply andb_true_iff in Hf as [Hc Hf]. rewrite Hc.
    assert (Hlt : (p <? S p)%nat = true) by (apply Nat.ltb_lt; lia).
    rewrite Hlt, IH; [reflexivity | exact Hf |].
    now replace (S p + List.length rest)%nat with (p + S (List.length rest))%nat by lia.
Qed.

(** A repetition of a set finds a match whenever the continuation accepts
    after some run of characters of the set. *)
Lemma star_cls_some f k g rest' : forall v p,
  forallb f v = true ->
  is_Some (k (MState (p + List.length v) rest' g)) ->
  is_Some (star_loop (run (Cls f)) k (List.length (v ++ rest')) (MState p (v ++ rest') g)).
Proof.
  induction v as [|c v IH]; intros p Hf Hk; simpl in *.
  - rewrite Nat.add_0_r in Hk. destruct (List.length rest'); simpl; [exact Hk|].
    match goal with |- is_Some (match ?e with _ => _ end) => destruct e end;
      [eauto | exact Hk].
  - apply andb_true_iff in Hf as [Hc Hf]. rewrite Hc.
    assert (Hlt : (p <? S p)%nat = true) by (apply Nat.ltb_lt; lia).
    rewrite Hlt.
    destruct (IH (S p) Hf) as [y Hy].
    { now replace (S p + List.length v)%nat with (p + S (List.length v))%nat by lia. }
    rewrite Hy. eauto.
Qed.

Lemma run_cls_star f1 f2 k c l p g x :
  f1 c = true -> forallb f2 l = true ->
  k (MState (p + S (List.length l)) [] g) = Some x ->
  run (Seq (Cls f1) (Star (Cls f2))) k (MState p (c :: l) g) = Some x.
Proof.
  intros H1 H2 Hk. simpl. rewrite H1. apply star_cls_greedy; [exact H2|].
  now replace (S p + List.length l)%nat with (p + S (List.length l))%nat by lia.
Qed.

Lemma run_positive k l p g x :
  positive_literal l = true ->
  k (MState (p + List.length l) [] g) = Some x ->
  run (Seq (Rng "1" "9") (Star (Rng "0" "9"))) k (MState p l g) = Some x.
Proof.
  destruct l as [|c l]; [discriminate|]. simpl positive_literal. intros H Hk.
  apply andb_true_iff in H as [H1 H2].
  apply run_cls_star; [exact H1 | exact H2 | exact Hk].
Qed.

Lemma run_Alt r1 r2 k st :
  run (Alt r1 r2) k st
  = match run r1 k st with Some x => Some x | None => run r2 k st end.
Proof. reflexivity. Qed.

Lemma run_Seq r1 r2 k st : run (Seq r1 r2) k st = run r1 (run r2 k) st.
Proof. reflexivity. Qed.

Lemma run_Opt r k st :
  run (Opt r) k st = match run r k st with Some x => Some x | None => k st end.
Proof. reflexivity. Qed.

Lemma run_Cls_cons f k p c l g :
  run (Cls f) k (MState p (c :: l) g) = if f c then k (MState (S p) l g) else None.
Proof. reflexivity. Qed.

Lemma run_Star r k st :
  run (Star r) k st = star_loop (run r) k (List.length (m_rest st)) st.
Proof. reflexivity. Qed.

Lemma run_Eps k st : run Eps k st = k st.
Proof. reflexivity. Qed.

Lemma run_Bol k s g : run Bol k (MState 0 s g) = k (MState 0 s g).
Proof. reflexivity. Qed.

Lemma run_Eol k st : run Eol k st = if at_eol (m_rest st) then k st else None.
Proof. reflexivity. Qed.

Lemma run_Chr_cons a k p c l g :
  run (Chr a) k (MState p (c :: l) g)
  = if Ascii.eqb a c then k (MState (S p) l g) else None.
Proof. reflexivity. Qed.

Lemma nonzero_not_zero c : nonzero_digit c = true -> Ascii.eqb "0" c = false.
Proof.
  intros H. destruct (Ascii.eqb_spec "0" c) as [<-|]; [discriminate | reflexivity].
Qed.

Lemma nonzero_not_minus c : nonzero_digit c = true -> Ascii.eqb "-" c = false.
Proof.
  intros H. destruct (Ascii.eqb_spec "-" c) as [<-|]; [discriminate | reflexivity].
Qed.

(** The text of a wildcard type matches every segment of the type, and
    the whole of it first. *)
Lemma fragment_complete t l k p g x :
  language t (str l) = true ->
  k (MState (p + List.length l) [] g) = Some x ->
  run (Wildcard._types_re t) k (MState p l g) = Some x.
Proof.
  assert (Hzero : forall l0, String.eqb (str l0) "0" = true -> l0 = ["0"%char]).
  { intros l0 E. apply String.eqb_eq in E.
    rewrite <- (chars_str l0), E. reflexivity. }
  destruct t; simpl language; rewrite ?chars_str; intros Hl Hk.
  - apply andb_true_iff in Hl as [Hne Hf]. destruct l as [|c l]; [discriminate|].
    simpl in Hf. apply andb_true_iff in Hf as [Hc Hf].
    apply run_cls_star; assumption.
  - apply andb_true_iff in Hl as [Hne Hf]. destruct l as [|c l]; [discriminate|].
    simpl in Hf. apply andb_true_iff in Hf as [Hc Hf].
    apply run_cls_star; assumption.
  - apply orb_true_iff in Hl as [Hl|Hl].
    + apply Hzero in Hl. subst l. simpl in Hk.
      replace (p + 1)%nat with (S p) in Hk by lia. simpl. now rewrite Hk.
    + change (Wildcard._types_re Wildcard.Tint)
        with (Alt (Chr "0") (Seq (Rng "1" "9") (Star (Rng "0" "9")))).
      destruct l as [|c l]; [discriminate|].
      assert (Hc : Ascii.eqb "0" c = false).
      { simpl in Hl. apply andb_true_iff in Hl as [Hl _]. now apply nonzero_not_zero. }
      rewrite run_Alt, run_Chr_cons, Hc.
      apply (run_positive k (c :: l) p g x Hl Hk).
  - apply (run_positive k l p g x Hl Hk).
  - change (Wildcard._types_re Wildcard.Tnegint)
      with (Alt (Chr "0") (Seq (Opt (Chr "-")) (Seq (Rng "1" "9") (Star (Rng "0" "9"))))).
    pose proof (run_positive k) as HP.
    set (P := Seq (Rng "1" "9") (Star (Rng "0" "9"))) in *.
    apply orb_true_iff in Hl as [Hl|Hl]; [apply orb_true_iff in Hl as [Hl|Hl]|].
    + apply Hzero in Hl. subst l. simpl in Hk.
      replace (p + 1)%nat with (S p) in Hk by lia.
      rewrite run_Alt, run_Chr_cons. simpl Ascii.eqb. now rewrite Hk.
    + destruct l as [|c l]; [discriminate|].
      assert (Hc : Ascii.eqb "0" c = false /\ Ascii.eqb "-" c = false).
      { simpl in Hl. apply andb_true_iff in Hl as [Hl _].
        split; [now apply nonzero_not_zero | now apply nonzero_not_minus]. }
      destruct Hc as [Hc0 Hcm].
      rewrite run_Alt, run_Chr_cons, Hc0, run_Seq, run_Opt, run_Chr_cons, Hcm.
      apply (HP (c :: l) p g x Hl Hk).
    + destruct l as [|c l]; [discriminate|].
      destruct (Ascii.eqb_spec "-" c) as [<-|Hne];
        [|destruct c as [[] [] [] [] [] [] [] []]; try discriminate Hl; now contradiction Hne].
      rewrite run_Alt, run_Chr_cons. simpl Ascii.eqb. cbv iota.
      rewrite run_Seq, run_Opt, run_Chr_cons. simpl Ascii.eqb. cbv iota.
      rewrite (HP l (S p) g x Hl); [reflexivity|].
      now replace (S p + List.length l)%nat with (p + List.length ("-"%char :: l))%nat
        by (simpl; lia).
Qed.
End Greedy.


(** ** The segments of the wildcard types *)

Lemma search_from_found r p s m :
  match_at r p s = Some m -> search_from r p s = Some m.
Proof. intros H. destruct s; simpl; now rewrite H. Qed.

Lemma lone_wildcard_search t s :
  language t s = true ->
  p_search (compile_pieces [Capture (Wildcard._types_re t)]) s
  = Some (MkMatch 0 (List.length (chars s)) {[ 1%nat := s ]}).
Proof.
  intros Hl. simpl p_search. apply search_from_found. unfold match_at.
  cbn [join run m_pos Nat.eqb]. apply fragment_complete; [now rewrite str_chars|].
  cbn [m_pos m_rest m_groups at_eol Nat.add].
  rewrite Nat.sub_0_r, firstn_all, str_chars. reflexivity.
Qed.

(** What the lone wildcard of a type accepts is a segment of the type. *)
Lemma accepts_sound t s : accepts t s = true -> language t s = true.
Proof.
  unfold accepts.
  destruct (p_search _ s) as [m|] eqn:Hm; [|discriminate]. intros Hg.
  apply bool_decide_eq_true in Hg.
  destruct (compile_pieces_groups [Capture (Wildcard._types_re t)]
              [Wildcard.Make "" t] s m eq_refl Hm 0%nat _ eq_refl)
    as (s' & Hs' & Hl).
  rewrite Hg in Hs'. injection Hs' as <-. exact Hl.
Qed.

(** The lone wildcard of a type accepts every segment of the type. *)
Lemma accepts_complete t s : language t s = true -> accepts t s = true.
Proof.
  intros Hl. unfold accepts. rewrite (lone_wildcard_search t s Hl).
  apply bool_decide_eq_true. reflexivity.
Qed.

(** C4, as amended. The route of a lone wildcard of a type matches a path
    and captures all of it exactly when the path is a segment of the type:
    for [str] a non-empty run of characters other than the slash, for
    [path] a non-empty run of characters other than the line feed (slashes
    included), for [int] the digit 0 or a positive integer with no leading
    zero, for [+int] a positive integer with no leading zero, for [-int]
    the digit 0 or a positive integer with no leading zero and an optional
    minus sign. In particular [/item/<n:int>] matches [/item/0] and
    [/item/7] and not [/item/007], and [/item/<n:+int>] does not match
    [/item/0]. *)
Theorem wildcard_type_language :
  (forall t s, accepts t s = true <-> language t s = true)
  /\ (r ← WildcardRoute.__init__ "/item/<n:int>" 1%nat;
      Ok (WildcardRoute.match_ r "/item/0", WildcardRoute.match_ r "/item/7",
          WildcardRoute.match_ r "/item/007"))
     = Ok (Ok (Some (1%nat, [], {[ "n" := VInt 0 ]})),
           Ok (Some (1%nat, [], {[ "n" := VInt 7 ]})),
           Ok None)
  /\ (r ← WildcardRoute.__init__ "/item/<n:+int>" 1%nat; WildcardRoute.match_ r "/item/0")
     = Ok None.
Proof.
  split; [|split].
  - intros t s. split; [apply accepts_sound | apply accepts_complete].
  - vm_compute. reflexivity.
  - vm_compute. reflexivity.
Qed.

(** [/static/<rest:path>] captures [a/b/c.txt] with its slashes. *)
Example static_route :
  (r ← WildcardRoute.__init__ "/static/<rest:path>" 1%nat;
   WildcardRoute.match_ r "/static/a/b/c.txt")
  = Ok (Some (1%nat, [], {[ "rest" := VStr "a/b/c.txt" ]})).
Proof. vm_compute. reflexivity. Qed.

(** The pattern of a route ends in [$], which also matches before a line
    feed that ends the path: [/item/<n:int>] matches [/item/7] followed by
    a line feed, and the segment is [7]. *)
Example trailing_line_feed :
  (r ← WildcardRoute.__init__ "/item/<n:int>" 1%nat;
   WildcardRoute.match_ r (String "/" (String "i" (String "t" (String "e" (String "m"
                             (String "/" (String "7" (String LF "")))))))))
  = Ok (Some (1%nat, [], {[ "n" := VInt 7 ]})).
Proof. vm_compute. reflexivity. Qed.

(** A [path] wildcard does not accept a text with a line feed inside,
    although the text is one or more characters. *)
Lemma path_rejects_line_feed :
  documented_language Wildcard.Tpath two_lines = true
  /\ accepts Wildcard.Tpath two_lines = false
  /\ (r ← WildcardRoute.__init__ "/static/<rest:path>" 1%nat;
      WildcardRoute.match_ r ("/static/" ++ two_lines))
     = Ok None.
Proof. repeat split; vm_compute; reflexivity. Qed.




(** The round trip on the segment [-120], computed. *)
Example negative_segment :
  Wildcard.value (Wildcard.Make "n" Wildcard.Tnegint) (VStr "-120") = Ok (VInt (-120))
  /\ py_str (-120) = "-120".
Proof. split; vm_compute; reflexivity. Qed.

(** The same for the groups of any route built by [__init__]: the segment
    of an integer wildcard converts to an integer that prints as the
    segment, unless it has more digits than [int] converts. The
    conversion is therefore injective on the segments. *)
Lemma int_capture_round_trip {callback : Type} pattern (cb : callback) self path m j w :
  WildcardRoute.__init__ pattern cb = Ok self ->
  p_search (WildcardRoute._re self) path = Some m ->
  WildcardRoute._wildcards self !! j = Some w ->
  int_typed (Wildcard._type w) = true ->
  exists s, group m (S j) = Some s
            /\ if (int_max_str_digits <? digit_count s)%nat
               then Wildcard.value w (VStr s) = Raise ValueError
               else exists z, Wildcard.value w (VStr s) = Ok (VInt z) /\ py_str z = s.
Proof.
  intros Hinit Hm Hj Ht.
  destruct (init_groups _ _ _ _ _ Hinit Hm) as [_ Hgrp].
  destruct (Hgrp j w Hj) as (s & Hg & Hl).
  pose proof (int_of_str_language _ s Ht Hl) as Hi.
  destruct (int_language _ s Ht Hl) as (z & Hz & Hs).
  exists s. split; [exact Hg|].
  assert (Hv : Wildcard.value w (VStr s)
               = match int_of_str s with
                 | Some z => Ok (VInt z)
                 | None => Raise ValueError
                 end).
  { unfold Wildcard.value. now destruct (Wildcard._type w). }
  rewrite Hv, Hi. destruct (int_max_str_digits <? digit_count s)%nat; [reflexivity|].
  rewrite Hz. eauto.
Qed.

Lemma int_conversion_injective t s1 s2 :
  int_typed t = true -> language t s1 = true -> language t s2 = true ->
  py_int s1 = py_int s2 -> s1 = s2.
Proof.
  intros Ht H1 H2 E.
  destruct (int_language t s1 Ht H1) as (z1 & Hz1 & Hs1).
  destruct (int_language t s2 Ht H2) as (z2 & Hz2 & Hs2).
  rewrite Hz1, Hz2 in E. injection E as ->. now rewrite <- Hs1, <- Hs2.
Qed.


(** ** The methods of a router *)

Section ContainsMethod.
Context {callback : Type}.
Variable re_compile : string -> option Pattern.
Implicit Types (self : Router.t callback) (cb : callback).

Lemma keys_elem {V : Type} (d : gmap string V) k : k ∈ Router.keys d <-> is_Some (d !! k).
Proof.
  unfold Router.keys. rewrite list_elem_of_fmap. split.
  - intros ([k' v] & -> & H). apply elem_of_map_to_list in H. eauto.
  - intros [v H]. exists (k, v). split; [reflexivity|]. now apply elem_of_map_to_list.
Qed.

(** [contains_method] looks for the method among the keys of the three
    dictionaries. *)
Lemma contains_method_spec self method :
  Router.contains_method self method = true
  <-> is_Some (Router._literal self !! method)
      \/ is_Some (Router._wildcard self !! method)
      \/ is_Some (Router._regex self !! method).
Proof.
  unfold Router.contains_method. rewrite bool_decide_eq_true.
  rewrite !elem_of_app, !keys_elem. reflexivity.
Qed.

Lemma contains_method_init method :
  Router.contains_method (Router.__init__ : Router.t callback) method = false.
Proof.
  apply not_true_iff_false. rewrite contains_method_spec. simpl.
  rewrite !lookup_empty. intros [[? H]|[[? H]|[? H]]]; discriminate.
Qed.

Lemma getitem_lookup {V : Type} (dflt : V) (d : gmap string V) key :
  snd (Router.getitem dflt d key) !! key = Some (fst (Router.getitem dflt d key)).
Proof.
  unfold Router.getitem. destruct (d !! key) eqn:E; simpl; [exact E|].
  apply lookup_insert_eq.
Qed.

Lemma getitem_insert {V : Type} (dflt : V) (d : gmap string V) key (v : V) :
  <[key := v]> (snd (Router.getitem dflt d key)) = <[key := v]> d.
Proof.
  unfold Router.getitem. destruct (d !! key); simpl; [reflexivity|].
  apply insert_insert_eq.
Qed.

(** X4. Once [add] was called for a method, whether the call returned or
    raised, the router contains the method. *)
Lemma contains_method_add method pattern cb self :
  Router.contains_method (fst (Router.add re_compile method pattern cb self)) method = true.
Proof.
  apply contains_method_spec. unfold Router.add.
  destruct (Router._normalize_pattern pattern) as [[| |] pat].
  - left. destruct (Router.getitem ∅ (Router._literal self) method) as [d lit].
    simpl. rewrite lookup_insert_eq. eauto.
  - right. left.
    pose proof (getitem_lookup [] (Router._wildcard self) method) as Hg.
    destruct (Router.getitem [] (Router._wildcard self) method) as [l wc].
    simpl in Hg.
    destruct (WildcardRoute.__init__ pat cb); simpl;
      [rewrite lookup_insert_eq | rewrite Hg]; eauto.
  - right. right.
    pose proof (getitem_lookup [] (Router._regex self) method) as Hg.
    destruct (Router.getitem [] (Router._regex self) method) as [l rx].
    simpl in Hg.
    destruct (RegexRoute.__init__ re_compile pat cb); simpl;
      [rewrite lookup_insert_eq | rewrite Hg]; eauto.
Qed.

Lemma insert_populated {V : Type} (P : V -> Prop) (d : gmap string V) key v :
  P v -> (forall k x, d !! k = Some x -> P x) ->
  forall k x, <[key := v]> d !! k = Some x -> P x.
Proof.
  intros Hv Hd k x. destruct (decide (key = k)) as [->|Hne].
  - rewrite lookup_insert_eq. intros H. now injection H as <-.
  - rewrite lookup_insert_ne by exact Hne. apply Hd.
Qed.

Lemma reachable_ok_populated self : reachable_ok re_compile self -> populated self.
Proof.
  induction 1 as [|self method pattern cb _ IH Hok].
  - intros method. simpl. repeat split; intros x H; now rewrite lookup_empty in H.
  - revert Hok. unfold Router.add.
    destruct (Router._normalize_pattern pattern) as [[| |] pat].
    + pose proof (getitem_insert ∅ (Router._literal self) method) as Hi.
      destruct (Router.getitem ∅ (Router._literal self) method) as [d lit].
      simpl in Hi. intros _ m. simpl. rewrite Hi. split; [|apply IH].
      apply (insert_populated (fun d => d <> ∅)); [apply insert_non_empty|].
      intros k x. apply IH.
    + pose proof (getitem_insert [] (Router._wildcard self) method) as Hi.
      destruct (Router.getitem [] (Router._wildcard self) method) as [l wc].
      simpl in Hi.
      destruct (WildcardRoute.__init__ pat cb) as [route|e]; [|discriminate].
      intros _ m. simpl. rewrite Hi. split; [apply IH|]. split; [|apply IH].
      apply (insert_populated (fun l => l <> [])); [now destruct l|].
      intros k x. apply IH.
    + pose proof (getitem_insert [] (Router._regex self) method) as Hi.
      destruct (Router.getitem [] (Router._regex self) method) as [l rx].
      simpl in Hi.
      destruct (RegexRoute.__init__ re_compile pat cb) as [route|e]; [|discriminate].
      intros _ m. simpl. rewrite Hi. split; [apply IH|]. split; [apply IH|].
      apply (insert_populated (fun l => l <> [])); [now destruct l|].
      intros k x. apply IH.
Qed.

(** X5. When every call of [add] returned, [contains_method] is true exactly
    for the methods that have a route in one of the three tiers. *)
Lemma contains_method_has_route self method :
  reachable_ok re_compile self ->
  Router.contains_method self method = true <-> has_route self method.
Proof.
  intros Hok. apply reachable_ok_populated in Hok.
  destruct (Hok method) as (Hl & Hw & Hr).
  rewrite contains_method_spec. unfold has_route. split.
  - intros [[d Hd]|[[l Hd]|[l Hd]]].
    + left. destruct (map_choose d (Hl d Hd)) as (path & cb & Hp). eauto.
    + right. left. destruct l as [|r l]; [now apply Hw in Hd|].
      exists (r :: l), r. split; [exact Hd | constructor].
    + right. right. destruct l as [|r l]; [now apply Hr in Hd|].
      exists (r :: l), r. split; [exact Hd | constructor].
  - intros [(d & _ & _ & Hd & _)|[(l & _ & Hd & _)|(l & _ & Hd & _)]]; eauto.
Qed.
End ContainsMethod.

(** C7, the failing call. A call [add('DELETE', '/<1x>', ...)] raises
    [RouteError] for the wildcard name, and leaves an empty list of
    wildcard routes for DELETE behind: [contains_method('DELETE')] is then
    true although no tier has a route for DELETE. *)
Theorem contains_method_after_failed_add :
  let r := Router.add example_compile "DELETE" "/<1x>" 0%nat Router.__init__ in
  snd r = Raise (RouteError InvalidWildcardName "1x" "<1x>")
  /\ Router.contains_method (fst r) "DELETE" = true
  /\ Router._literal (fst r) !! "DELETE" = None
  /\ Router._wildcard (fst r) !! "DELETE" = Some []
  /\ Router._regex (fst r) !! "DELETE" = None.
Proof. repeat split; vm_compute; reflexivity. Qed.

(** ** Regex routes *)

Lemma StronglySorted_filter {X : Type} (R : X -> X -> Prop) (f : X -> bool) l :
  StronglySorted R l -> StronglySorted R (List.filter f l).
Proof.
  induction 1 as [|x l _ IH Hx]; simpl; [constructor|].
  destruct (f x); [|exact IH]. constructor; [exact IH|].
  apply List.Forall_forall. intros y Hy. apply filter_In in Hy as [Hy _].
  rewrite List.Forall_forall in Hx. now apply Hx.
Qed.

Lemma seq_sorted n : forall a, StronglySorted lt (seq a n).
Proof.
  induction n as [|n IH]; intros a; simpl; constructor; [apply IH|].
  apply List.Forall_forall. intros y Hy. apply in_seq in Hy. lia.
Qed.

(** The loop that fills [kwargs] from [groupindex]. *)
Lemma kwargs_fold (m : Match) (gi : list (string * nat)) : forall acc : gmap string value,
  NoDup (map fst gi) ->
  let kwargs := fold_left (fun kw '(name, index) => <[name := of_group (group m index)]> kw)
                  gi acc in
  (forall name index, In (name, index) gi ->
     kwargs !! name = Some (of_group (group m index)))
  /\ (forall name, ~ In name (map fst gi) -> kwargs !! name = acc !! name).
Proof.
  induction gi as [|[n0 i0] gi IH]; intros acc Hnd; simpl.
  - split; [intros ? ? [] | reflexivity].
  - apply NoDup_cons in Hnd as [Hn0 Hnd].
    destruct (IH (<[n0 := of_group (group m i0)]> acc) Hnd) as [IH1 IH2].
    split.
    + intros name index [H|H].
      * injection H as <- <-. rewrite IH2, lookup_insert_eq; [reflexivity|].
        intros Hin. apply Hn0. now apply list_elem_of_In.
      * exact (IH1 name index H).
    + intros name Hname. rewrite IH2 by tauto.
      apply lookup_insert_ne. tauto.
Qed.

(** C8, as amended. A regex route holds the pattern object that
    [re.compile] returns for the pattern text itself, and [match] runs its
    [search]. On a match the positional results are, for the indexes from
    1 to [groups] that are not the index of a named group, in ascending
    order, the text of the group or [None] when the group took no part in
    the match; the named results map every name of [groupindex] to the
    text of its group, or [None] likewise; no value is converted. *)
Theorem regex_match_results {callback : Type} re_compile pattern (cb : callback) self path :
  RegexRoute.__init__ re_compile pattern cb = Ok self ->
  NoDup (map fst (p_groupindex (RegexRoute._re self))) ->
  re_compile pattern = Some (RegexRoute._re self)
  /\ RegexRoute._callback self = cb
  /\ match p_search (RegexRoute._re self) path with
     | None => RegexRoute.match_ self path = None
     | Some m =>
         exists args kwargs,
           RegexRoute.match_ self path = Some (cb, args, kwargs)
           /\ args = map (fun i => of_group (group m i)) (RegexRoute.args_indexes self)
           /\ StronglySorted lt (RegexRoute.args_indexes self)
           /\ (forall i, In i (RegexRoute.args_indexes self)
                 <-> (1 <= i <= p_groups (RegexRoute._re self))%nat
                     /\ ~ In i (map snd (p_groupindex (RegexRoute._re self))))
           /\ (forall name index, In (name, index) (p_groupindex (RegexRoute._re self)) ->
                 kwargs !! name = Some (of_group (group m index)))
           /\ (forall name, ~ In name (map fst (p_groupindex (RegexRoute._re self))) ->
                 kwargs !! name = None)
     end.
Proof.
  unfold RegexRoute.__init__. intros Hinit Hnd.
  destruct (re_compile pattern) as [p|]; [|discriminate].
  injection Hinit as <-. simpl in *. split; [reflexivity|]. split; [reflexivity|].
  unfold RegexRoute.match_. simpl.
  destruct (p_search p path) as [m|]; [|reflexivity].
  destruct (kwargs_fold m (p_groupindex p) ∅ Hnd) as [Hk1 Hk2].
  eexists _, _. split; [reflexivity|]. split; [reflexivity|].
  unfold RegexRoute.args_indexes, RegexRoute.kwargs_indexes. simpl.
  split; [apply StronglySorted_filter, seq_sorted|]. split; [|split].
  - intros i. rewrite filter_In, in_seq, negb_true_iff, bool_decide_eq_false.
    rewrite list_elem_of_In. split; intros [H1 H2]; (split; [lia | exact H2]).
  - exact Hk1.
  - intros name Hname. rewrite Hk2 by exact Hname. apply lookup_empty.
Qed.

(** The pattern [/(?P<year>[0-9]+)/([a-z]+)] on the path [/2014/ice]. *)
Lemma regex_match_results_witness :
  exists self,
    RegexRoute.__init__ example_compile "/(?P<year>[0-9]+)/([a-z]+)" 5%nat = Ok self
    /\ NoDup (map fst (p_groupindex (RegexRoute._re self)))
    /\ RegexRoute.match_ self "/2014/ice"
       = Some (5%nat, [VStr "ice"], {[ "year" := VStr "2014" ]})
    /\ example_compile "/(?P<year>[0-9]+)/([a-z]+)" = Some (RegexRoute._re self)
    /\ RegexRoute._callback self = 5%nat
    /\ match p_search (RegexRoute._re self) "/2014/ice" with
       | None => RegexRoute.match_ self "/2014/ice" = None
       | Some m =>
           exists args kwargs,
             RegexRoute.match_ self "/2014/ice" = Some (5%nat, args, kwargs)
             /\ args = map (fun i => of_group (group m i)) (RegexRoute.args_indexes self)
             /\ StronglySorted lt (RegexRoute.args_indexes self)
             /\ (forall i, In i (RegexRoute.args_indexes self)
                   <-> (1 <= i <= p_groups (RegexRoute._re self))%nat
                       /\ ~ In i (map snd (p_groupindex (RegexRoute._re self))))
             /\ (forall name index,
                   In (name, index) (p_groupindex (RegexRoute._re self)) ->
                   kwargs !! name = Some (of_group (group m index)))
             /\ (forall name,
                   ~ In name (map fst (p_groupindex (RegexRoute._re self))) ->
                   kwargs !! name = None)
       end.
Proof.
  destruct (RegexRoute.__init__ example_compile "/(?P<year>[0-9]+)/([a-z]+)" 5%nat)
    as [self|] eqn:E; [|vm_compute in E; discriminate].
  exists self.
  assert (Hnd : NoDup (map fst (p_groupindex (RegexRoute._re self)))).
  { vm_compute in E. injection E as <-. simpl. repeat constructor. set_solver. }
  split; [reflexivity|]. split; [exact Hnd|]. split.
  - vm_compute in E. injection E as <-. vm_compute. reflexivity.
  - exact (regex_match_results example_compile _ 5%nat self "/2014/ice" E Hnd).
Defined.

(** A group that takes no part in the match yields [None], not a string:
    the pattern [(/a)|(/b)] on the path [/b]. *)
Lemma regex_group_without_match :
  (r ← RegexRoute.__init__ example_compile "(/a)|(/b)" 7%nat;
   Ok (RegexRoute.match_ r "/b"))
  = Ok (Some (7%nat, [VNone; VStr "/b"], ∅)).
Proof. vm_compute. reflexivity. Qed.


(** ** The kind of a pattern *)

Lemma search_from_skip r : forall u s p,
  is_Some (search_from r (p + List.length u) s) -> is_Some (search_from r p (u ++ s)).
Proof.
  induction u as [|c u IH]; intros s p H; simpl.
  - now rewrite Nat.add_0_r in H.
  - destruct (match_at r p (c :: u ++ s)%list); [eauto|]. apply IH.
    now replace (S p + List.length u)%nat with (p + List.length (c :: u))%nat
      by (simpl; lia).
Qed.

(** [search] finds the pattern [a f* b] exactly in the texts that have
    [a], characters of [f], and [b]. *)
Lemma delimited_search a f b s :
  is_Some (search_from (Seq (Chr a) (Seq (Star (Cls f)) (Chr b))) 0 s)
  <-> delimited a f b s.
Proof.
  split.
  - intros [m H]. apply search_from_suffix in H as (u & s' & -> & H).
    unfold match_at in H. apply run_sound in H as (st' & Hm & _).
    inversion Hm; subst.
    match goal with H : matches (Seq _ _) _ _ |- _ => inversion H; subst end.
    repeat match goal with H : matches (Chr _) _ _ |- _ =>
      apply matches_Chr in H as (? & _ & _) end.
    match goal with H : matches (Star _) _ _ |- _ =>
      apply matches_Star_Cls in H as (v & Hv & Hrest & _ & _) end.
    simpl in *. exists u, v, (m_rest st'). split; [|exact Hv]. congruence.
  - intros (u & v & w & -> & Hv).
    apply (search_from_skip _ u _ 0). rewrite Nat.add_0_l.
    assert (Hat : is_Some (match_at (Seq (Chr a) (Seq (Star (Cls f)) (Chr b)))
                             (List.length u) (a :: v ++ b :: w))).
    { unfold match_at. rewrite run_Seq, run_Chr_cons, Ascii.eqb_refl, run_Seq.
      cbn [run m_rest]. apply star_cls_some; [exact Hv|].
      rewrite run_Chr_cons, Ascii.eqb_refl. eauto. }
    destruct Hat as [m Hat]. rewrite (search_from_found _ _ _ _ Hat). eauto.
Qed.

Lemma regex_like_spec pattern : RegexRoute.like pattern = true <-> has_group pattern.
Proof.
  unfold has_group. rewrite <- delimited_search. unfold RegexRoute.like. simpl.
  destruct (search_from _ 0 (chars pattern)); split; intros H;
    try reflexivity; try discriminate; eauto. now destruct H.
Qed.

Lemma wildcard_like_spec pattern :
  WildcardRoute.like pattern = true <-> has_wildcard pattern.
Proof.
  unfold has_wildcard. rewrite <- delimited_search. unfold WildcardRoute.like. simpl.
  destruct (search_from _ 0 (chars pattern)); split; intros H;
    try reflexivity; try discriminate; eauto. now destruct H.
Qed.

Lemma append_cons c s rest : String c s ++ rest = String c (s ++ rest).
Proof. reflexivity. Qed.

Lemma append_nil rest : "" ++ rest = rest.
Proof. reflexivity. Qed.

Lemma prefix_empty s : String.prefix "" s = true.
Proof. destruct s; reflexivity. Qed.

(** C3, as amended. A pattern that starts with [regex:], [wildcard:] or
    [literal:] has that kind and loses the prefix, whatever follows. A
    pattern with no such prefix is a regex pattern when it has a
    parenthesis group, which is an opening parenthesis and a closing one
    later on the same line; else a wildcard pattern when it has an
    angle-bracket token; else a literal pattern. So a pattern with both
    such a group and a token is a regex pattern. *)
Theorem normalize_pattern_precedence pattern :
  (forall rest, pattern = "regex:" ++ rest ->
     Router._normalize_pattern pattern = (regex_type, rest))
  /\ (forall rest, pattern = "wildcard:" ++ rest ->
        Router._normalize_pattern pattern = (wildcard, rest))
  /\ (forall rest, pattern = "literal:" ++ rest ->
        Router._normalize_pattern pattern = (literal, rest))
  /\ (startswith pattern "regex:" = false ->
      startswith pattern "wildcard:" = false ->
      startswith pattern "literal:" = false ->
      (has_group pattern -> Router._normalize_pattern pattern = (regex_type, pattern))
      /\ (~ has_group pattern -> has_wildcard pattern ->
          Router._normalize_pattern pattern = (wildcard, pattern))
      /\ (~ has_group pattern -> ~ has_wildcard pattern ->
          Router._normalize_pattern pattern = (literal, pattern))).
Proof.
  split; [|split; [|split]].
  - intros rest ->. rewrite !append_cons, append_nil.
    unfold Router._normalize_pattern, slice_from. simpl.
    unfold startswith. simpl. rewrite prefix_empty. f_equal. apply str_chars.
  - intros rest ->. rewrite !append_cons, append_nil.
    unfold Router._normalize_pattern, slice_from. simpl.
    unfold startswith. simpl. rewrite prefix_empty. f_equal. apply str_chars.
  - intros rest ->. rewrite !append_cons, append_nil.
    unfold Router._normalize_pattern, slice_from. simpl.
    unfold startswith. simpl. rewrite prefix_empty. f_equal. apply str_chars.
  - intros H1 H2 H3. unfold Router._normalize_pattern. rewrite H1, H2, H3.
    pose proof (regex_like_spec pattern) as Hr.
    pose proof (wildcard_like_spec pattern) as Hw.
    destruct (RegexRoute.like pattern), (WildcardRoute.like pattern);
      repeat split; intros; try reflexivity;
      try (exfalso; tauto);
      try (exfalso; assert (false = true) by tauto; discriminate).
Qed.

(** A pattern with a line feed between its parentheses and with a token
    is a wildcard pattern: the group of [_group_re] stays on one line. *)
Lemma parentheses_across_lines :
  group_across_lines broken_group
  /\ has_wildcard broken_group
  /\ startswith broken_group "regex:" = false
  /\ startswith broken_group "wildcard:" = false
  /\ startswith broken_group "literal:" = false
  /\ Router._normalize_pattern broken_group = (wildcard, broken_group).
Proof.
  split; [|split].
  - exists [], [LF], (chars "<a>"). split; reflexivity.
  - exists (chars (String "(" (String LF ")"))), (chars "a"), []. split; reflexivity.
  - repeat split; vm_compute; reflexivity.
Qed.

(** The patterns [/users/(\d+)], [/users/<id>] and [/users/<id>(\d+)], and
    a prefix that overrides what the pattern looks like. *)
Example normalize_examples :
  Router._normalize_pattern "/users/(\d+)" = (regex_type, "/users/(\d+)")
  /\ Router._normalize_pattern "/users/<id>" = (wildcard, "/users/<id>")
  /\ Router._normalize_pattern "/users/<id>(\d+)" = (regex_type, "/users/<id>(\d+)")
  /\ Router._normalize_pattern "literal:/users/<id>(\d+)" = (literal, "/users/<id>(\d+)")
  /\ Router._normalize_pattern "/users" = (literal, "/users").
Proof. repeat split; vm_compute; reflexivity. Qed.


(** ** Wildcard tokens *)

Lemma is_word_not_lf c : is_word c = true -> c <> LF.
Proof. intros H ->. discriminate. Qed.

(** [_name_re] finds a match in the valid names, and also in a valid name
    followed by one line feed: [$] matches before a line feed that ends
    the text. *)
Lemma name_re_spec name :
  is_Some (p_search (compiled Wildcard._name_re 0 []) name)
  <-> valid_name (chars name) = true
      \/ exists n, chars name = (n ++ [LF])%list /\ valid_name n = true.
Proof.
  simpl p_search. split.
  - intros [m H]. apply search_from_suffix in H as (u & s' & Hs & H).
    unfold match_at in H. apply run_sound in H as (st' & Hm & _).
    unfold Wildcard._name_re in Hm. inversion Hm; subst.
    match goal with H : matches Bol _ _ |- _ => inversion H; subst end.
    match goal with H : m_pos _ = 0%nat |- _ => simpl in H end.
    assert (u = []) by (destruct u; [reflexivity | simpl in *; lia]). subst u.
    simpl in Hs. rewrite Hs. clear Hs.
    match goal with H : matches (Seq _ Eol) _ _ |- _ => inversion H; subst end.
    match goal with H : matches Eol _ _ |- _ => inversion H; subst end.
    assert (Hend : forall n, valid_name n = true -> s' = (n ++ m_rest st')%list ->
              valid_name s' = true
              \/ exists n0, s' = (n0 ++ [LF])%list /\ valid_name n0 = true).
    { intros n Hn ->. destruct (m_rest st') as [|c [|c' r]]; try discriminate.
      - left. now rewrite app_nil_r.
      - right. exists n. split; [|exact Hn].
        match goal with H : at_eol [c] = true |- _ =>
          simpl in H; apply Ascii.eqb_eq in H; now subst end. }
    match goal with H : matches (Alt _ _) _ _ |- _ => inversion H; subst end.
    + match goal with H : matches (Seq _ _) _ _ |- _ => inversion H; subst end.
      match goal with H : matches (Cls _) _ _ |- _ =>
        apply matches_Cls in H as (c & Hc & Hr1 & _ & _) end.
      match goal with H : matches (Star _) _ _ |- _ =>
        apply matches_Star_Cls in H as (v & Hv & Hr2 & _ & _) end.
      simpl in Hr1. apply (Hend (c :: v)).
      * simpl. now rewrite Hc, Hv.
      * rewrite Hr1, Hr2. reflexivity.
    + match goal with H : matches (Alt _ _) _ _ |- _ => inversion H; subst end.
      * match goal with H : matches (Chr _) _ _ |- _ =>
          apply matches_Chr in H as (Hr & _ & _) end.
        simpl in Hr. apply (Hend ["!"%char]); [reflexivity | exact Hr].
      * match goal with H : matches Eps _ _ |- _ => inversion H; subst end.
        apply (Hend []); reflexivity.
  - assert (Hrun : forall n rest',
              valid_name n = true -> at_eol rest' = true ->
              is_Some (match_at Wildcard._name_re 0 (n ++ rest'))).
    { intros n rest' Hn He. unfold match_at, Wildcard._name_re.
      rewrite run_Seq, run_Bol, run_Seq, run_Alt.
      destruct n as [|c n].
      - simpl app.
        match goal with |- is_Some (match ?e with _ => _ end) => destruct e end;
          [eauto|].
        rewrite run_Alt.
        match goal with |- is_Some (match ?e with _ => _ end) => destruct e end;
          [eauto|].
        rewrite run_Eps, run_Eol. cbn [m_rest]. rewrite He. eauto.
      - simpl in Hn. apply orb_true_iff in Hn as [Hn|Hn].
        + apply andb_true_iff in Hn as [Hc Hn].
          assert (Hs : is_Some (run (Seq (Cls (fun c0 => negb (is_digit c0) && is_word c0))
                                       (Star (Cls is_word)))
                                  (run Eol (fun st => Some (MkMatch 0 (m_pos st) (m_groups st))))
                                  (MState 0 ((c :: n) ++ rest') ∅))).
          { rewrite run_Seq. simpl app. rewrite run_Cls_cons, Hc, run_Star.
            cbn [m_rest]. apply star_cls_some; [exact Hn|].
            rewrite run_Eol. cbn [m_rest]. rewrite He. eauto. }
          destruct Hs as [x ->]. eauto.
        + apply bool_decide_eq_true in Hn. injection Hn as -> ->.
          simpl app.
          match goal with |- is_Some (match ?e with _ => _ end) => destruct e end;
            [eauto|].
          rewrite run_Alt, run_Chr_cons. simpl Ascii.eqb. cbv iota.
          rewrite run_Eol. cbn [m_rest]. rewrite He. eauto. }
    intros [Hv|(n & Hn & Hv)].
    + destruct (Hrun (chars name) [] Hv eq_refl) as [m Hm].
      rewrite app_nil_r in Hm. rewrite (search_from_found _ _ _ _ Hm). eauto.
    + destruct (Hrun n [LF] Hv eq_refl) as [m Hm].
      rewrite Hn, (search_from_found _ _ _ _ Hm). eauto.
Qed.

(** X9. What [Wildcard.__init__] does with a token: it raises for the name
    when [_name_re] does not let the name through, else for the type when
    the type is not a key of [_types_re], else it returns the wildcard. *)
Lemma wildcard_init_cases spec :
  (accepted_name (token_name spec) ->
   Wildcard.__init__ spec
   = match Wildcard.type_of_string (token_type spec) with
     | Some t => Ok (Wildcard.Make (token_name spec) t)
     | None => Raise (RouteError InvalidWildcardType (token_type spec) spec)
     end)
  /\ (~ accepted_name (token_name spec) ->
      Wildcard.__init__ spec
      = Raise (RouteError InvalidWildcardName (token_name spec) spec)).
Proof.
  pose proof (name_re_spec (token_name spec)) as Hname. fold (accepted_name (token_name spec)) in Hname.
  assert (Hinit : Wildcard.__init__ spec
            = match p_search (compiled Wildcard._name_re 0 []) (token_name spec) with
              | None => Raise (RouteError InvalidWildcardName (token_name spec) spec)
              | Some _ =>
                  match Wildcard.type_of_string (token_type spec) with
                  | Some t => Ok (Wildcard.Make (token_name spec) t)
                  | None => Raise (RouteError InvalidWildcardType (token_type spec) spec)
                  end
              end).
  { unfold Wildcard.__init__, token_name, token_type, split1.
    destruct (split_once ":" (chars (slice_1_m1 spec))) as [[a b]|]; reflexivity. }
  rewrite Hinit.
  destruct (p_search (compiled Wildcard._name_re 0 []) (token_name spec)) as [m|].
  - split; [reflexivity|]. intros Hn. exfalso. apply Hn, Hname. eauto.
  - split; [|reflexivity]. intros Hn. apply Hname in Hn. now destruct Hn.
Qed.

(** C6, the failing token. The name [abc] followed by a line feed is
    neither empty, nor ["!"], nor an identifier, and [Wildcard.__init__]
    accepts it; so does [add], at registration. *)
Theorem wildcard_name_with_line_feed :
  valid_name (chars abc_lf) = false
  /\ Wildcard.__init__ abc_lf_token = Ok (Wildcard.Make abc_lf Wildcard.Tstr)
  /\ snd (Router.add example_compile "GET" ("/" ++ abc_lf_token) 0%nat Router.__init__)
     = Ok ().
Proof. repeat split; vm_compute; reflexivity. Qed.

(** The errors of [Wildcard.__init__]: an invalid name, an invalid type
    (the name is checked first), and a type left empty. They surface when
    the route is added. *)
Example wildcard_token_errors :
  Wildcard.__init__ "<123abc>" = Raise (RouteError InvalidWildcardName "123abc" "<123abc>")
  /\ Wildcard.__init__ "<a:float>" = Raise (RouteError InvalidWildcardType "float" "<a:float>")
  /\ Wildcard.__init__ "<1:float>" = Raise (RouteError InvalidWildcardName "1" "<1:float>")
  /\ Wildcard.__init__ "<a:int:x>" = Raise (RouteError InvalidWildcardType "int:x" "<a:int:x>")
  /\ Wildcard.__init__ "<a:>" = Ok (Wildcard.Make "a" Wildcard.Tstr)
  /\ Wildcard.__init__ "<:+int>" = Ok (Wildcard.Make "" Wildcard.Tposint)
  /\ Wildcard.__init__ "<!>" = Ok (Wildcard.Make "!" Wildcard.Tstr)
  /\ snd (Router.add example_compile "GET" "/item/<123abc>" 0%nat Router.__init__)
     = Raise (RouteError InvalidWildcardName "123abc" "<123abc>").
Proof. repeat split; vm_compute; reflexivity. Qed.

(** [search] looks for the pattern anywhere in the path: the route of
    [(/a)|(/b)] also matches [/x/b]. *)
Example regex_search_inside :
  (r ← RegexRoute.__init__ example_compile "(/a)|(/b)" 7%nat;
   Ok (RegexRoute.match_ r "/x/b", RegexRoute.match_ r "/x/c"))
  = Ok (Some (7%nat, [VNone; VStr "/b"], ∅), None).
Proof. vm_compute. reflexivity. Qed.


(** ** Registration and resolution together *)

Lemma resolve_registered_literal_witness :
  Router._normalize_pattern "/user/me" = (literal, "/user/me")
  /\ Router.resolve
       (add_all example_compile
          [("GET", "/user/<who>", 9%nat); ("POST", "/user/me", 4%nat)]
          (fst (Router.add example_compile "GET" "/user/me" 3%nat
                  (fst (Router.add example_compile "GET" "/user/<id>" 1%nat
                          Router.__init__)))))
       "GET" "/user/me"
     = Ok (Some (3%nat, [], ∅)).
Proof.
  assert (H : Router._normalize_pattern "/user/me" = (literal, "/user/me"))
    by (vm_compute; reflexivity).
  split; [exact H|].
  apply (resolve_registered_literal example_compile); [exact H|].
  repeat constructor.
  - intros [_ Hn]. vm_compute in Hn. discriminate.
  - intros [Hm _]. discriminate.
Defined.

Lemma contains_method_has_route_witness :
  reachable_ok example_compile example_router
  /\ (Router.contains_method example_router "GET" = true
      <-> has_route example_router "GET").
Proof.
  assert (H : reachable_ok example_compile example_router).
  { unfold example_router.
    repeat (apply reachable_ok_add; [|vm_compute; reflexivity]).
    apply reachable_ok_init. }
  split; [exact H|].
  exact (contains_method_has_route example_compile example_router "GET" H).
Defined.

Section AddResolve.
Context {callback : Type}.
Variable re_compile : string -> option Pattern.
Implicit Types (self : Router.t callback) (cb : callback).

(** [resolve] reads the three dictionaries at the method only, and takes
    an empty list of routes for a missing one. *)
Lemma resolve_ext self1 self2 method path :
  Router._literal self1 !! method = Router._literal self2 !! method ->
  default [] (Router._wildcard self1 !! method)
  = default [] (Router._wildcard self2 !! method) ->
  default [] (Router._regex self1 !! method)
  = default [] (Router._regex self2 !! method) ->
  Router.resolve self1 method path = Router.resolve self2 method path.
Proof.
  intros Hl Hw Hr.
  assert (Hnl : Router._resolve_non_literal_route self1 method path
                = Router._resolve_non_literal_route self2 method path).
  { unfold Router._resolve_non_literal_route.
    assert (Hw' : forall self,
              match Router._wildcard self !! method with
              | Some routes => Router.first_match WildcardRoute.match_ (rev routes) path
              | None => Ok None
              end
              = Router.first_match WildcardRoute.match_
                  (rev (default [] (Router._wildcard self !! method))) path).
    { intros self. now destruct (Router._wildcard self !! method). }
    assert (Hr' : forall self,
              match Router._regex self !! method with
              | Some routes =>
                  Router.first_match (fun r p => Ok (RegexRoute.match_ r p))
                    (rev routes) path
              | None => Ok None
              end
              = Router.first_match (fun r p => Ok (RegexRoute.match_ r p))
                  (rev (default [] (Router._regex self !! method))) path).
    { intros self. now destruct (Router._regex self !! method). }
    now rewrite !Hw', !Hr', Hw, Hr. }
  unfold Router.resolve. now rewrite Hl, Hnl.
Qed.

Lemma getitem_other {V : Type} (dflt : V) (d : gmap string V) key key' :
  key <> key' -> snd (Router.getitem dflt d key) !! key' = d !! key'.
Proof.
  intros Hne. unfold Router.getitem. destruct (d !! key); simpl; [reflexivity|].
  now apply lookup_insert_ne.
Qed.

Lemma getitem_default {V : Type} (d : gmap string (list V)) key key' :
  default [] (snd (Router.getitem [] d key) !! key') = default [] (d !! key').
Proof.
  unfold Router.getitem. destruct (d !! key) eqn:E; simpl; [reflexivity|].
  destruct (decide (key = key')) as [<-|Hne].
  - now rewrite lookup_insert_eq, E.
  - now rewrite lookup_insert_ne.
Qed.

(** X2. A call of [add] that raises leaves every resolution as it was:
    whatever it has put into the router is an empty list of routes. *)
Theorem add_raise_keeps_resolve method pattern cb self e method' path :
  snd (Router.add re_compile method pattern cb self) = Raise e ->
  Router.resolve (fst (Router.add re_compile method pattern cb self)) method' path
  = Router.resolve self method' path.
Proof.
  unfold Router.add.
  destruct (Router._normalize_pattern pattern) as [[| |] pat].
  - destruct (Router.getitem ∅ (Router._literal self) method). discriminate.
  - pose proof (getitem_default (Router._wildcard self) method method') as Hd.
    destruct (Router.getitem [] (Router._wildcard self) method) as [l wc].
    simpl in Hd. destruct (WildcardRoute.__init__ pat cb); [discriminate|].
    intros _. simpl. apply resolve_ext; simpl; [reflexivity | exact Hd | reflexivity].
  - pose proof (getitem_default (Router._regex self) method method') as Hd.
    destruct (Router.getitem [] (Router._regex self) method) as [l rx].
    simpl in Hd. destruct (RegexRoute.__init__ re_compile pat cb); [discriminate|].
    intros _. simpl. apply resolve_ext; simpl; [reflexivity | reflexivity | exact Hd].
Qed.

(** X3. A call of [add] for one method changes nothing for any other
    method: [resolve] and [contains_method] answer as before. *)
Theorem add_other_method method pattern cb self method' path :
  method <> method' ->
  Router.resolve (fst (Router.add re_compile method pattern cb self)) method' path
  = Router.resolve self method' path
  /\ Router.contains_method (fst (Router.add re_compile method pattern cb self)) method'
     = Router.contains_method self method'.
Proof.
  intros Hne.
  assert (H : Router._literal (fst (Router.add re_compile method pattern cb self)) !! method'
              = Router._literal self !! method'
              /\ Router._wildcard (fst (Router.add re_compile method pattern cb self)) !! method'
                 = Router._wildcard self !! method'
              /\ Router._regex (fst (Router.add re_compile method pattern cb self)) !! method'
                 = Router._regex self !! method').
  { unfold Router.add.
    destruct (Router._normalize_pattern pattern) as [[| |] pat].
    - pose proof (getitem_other ∅ (Router._literal self) method method' Hne) as Hg.
      destruct (Router.getitem ∅ (Router._literal self) method) as [d lit].
      simpl in *. now rewrite lookup_insert_ne.
    - pose proof (getitem_other [] (Router._wildcard self) method method' Hne) as Hg.
      destruct (Router.getitem [] (Router._wildcard self) method) as [l wc].
      destruct (WildcardRoute.__init__ pat cb); simpl in *;
        [now rewrite lookup_insert_ne | auto].
    - pose proof (getitem_other [] (Router._regex self) method method' Hne) as Hg.
      destruct (Router.getitem [] (Router._regex self) method) as [l rx].
      destruct (RegexRoute.__init__ re_compile pat cb); simpl in *;
        [now rewrite lookup_insert_ne | auto]. }
  destruct H as (Hl & Hw & Hr). split.
  - apply resolve_ext; [exact Hl | now rewrite Hw | now rewrite Hr].
  - apply eq_true_iff_eq. rewrite !contains_method_spec, Hl, Hw, Hr. reflexivity.
Qed.

End AddResolve.

Lemma add_raise_keeps_resolve_witness :
  snd (Router.add example_compile "GET" "/user/<1x>" 8%nat example_router)
  = Raise (RouteError InvalidWildcardName "1x" "<1x>")
  /\ Router.resolve (fst (Router.add example_compile "GET" "/user/<1x>" 8%nat example_router))
       "GET" "/user/42"
     = Router.resolve example_router "GET" "/user/42".
Proof.
  assert (H : snd (Router.add example_compile "GET" "/user/<1x>" 8%nat example_router)
              = Raise (RouteError InvalidWildcardName "1x" "<1x>"))
    by (vm_compute; reflexivity).
  split; [exact H|].
  exact (add_raise_keeps_resolve example_compile _ _ _ _ _ "GET" "/user/42" H).
Defined.

Lemma add_other_method_witness :
  "POST" <> "GET"
  /\ Router.resolve (fst (Router.add example_compile "POST" "/user/<id>" 8%nat example_router))
       "GET" "/user/42"
     = Router.resolve example_router "GET" "/user/42"
  /\ Router.contains_method
       (fst (Router.add example_compile "POST" "/user/<id>" 8%nat example_router)) "GET"
     = Router.contains_method example_router "GET".
Proof.
  assert (H : "POST" <> "GET") by discriminate.
  split; [exact H|].
  exact (add_other_method example_compile "POST" "/user/<id>" 8%nat example_router
           "GET" "/user/42" H).
Defined.


(** ** Where callbacks and errors come from *)

Section Provenance.
Context {callback : Type}.
Variable re_compile : string -> option Pattern.
Implicit Types (self : Router.t callback) (cb : callback).

Lemma getitem_fst {V : Type} (dflt : V) (d : gmap string V) key :
  fst (Router.getitem dflt d key) = default dflt (d !! key).
Proof. unfold Router.getitem. now destruct (d !! key). Qed.

Lemma elem_of_rev_1 {X : Type} (x : X) l : x ∈ rev l -> x ∈ l.
Proof. rewrite !list_elem_of_In. apply in_rev. Qed.

Lemma first_match_elem {R : Type}
    (f : R -> string -> result (Router.resolved callback)) path d : forall l,
  Router.first_match f l path = Ok (Some d) ->
  exists r, r ∈ l /\ f r path = Ok (Some d).
Proof.
  induction l as [|r l IH]; simpl; intros H; [discriminate|].
  destruct (f r path) as [[x|]|e] eqn:E; simpl in H; try discriminate.
  - injection H as ->. exists r. split; [constructor | exact E].
  - destruct (IH H) as (r' & Hin & Hr'). exists r'. split; [now constructor | exact Hr'].
Qed.

Lemma wildcard_match_callback (r : WildcardRoute.t callback) path cb args kwargs :
  WildcardRoute.match_ r path = Ok (Some (cb, args, kwargs)) ->
  cb = WildcardRoute._callback r.
Proof.
  unfold WildcardRoute.match_. destruct (p_search _ path); [|discriminate].
  destruct (WildcardRoute.extract _ _ _ _ _) as [[a k]|e]; simpl; [|discriminate].
  intros H. now injection H as <- _ _.
Qed.

Lemma regex_match_callback (r : RegexRoute.t callback) path cb args kwargs :
  RegexRoute.match_ r path = Some (cb, args, kwargs) ->
  cb = RegexRoute._callback r.
Proof.
  unfold RegexRoute.match_. destruct (p_search _ path); [|discriminate].
  intros H. now injection H as <- _ _.
Qed.

(** What [resolve] returns comes from a literal entry of the method, or
    from one of its wildcard or regex routes. *)
Lemma resolve_source self method path cb args kwargs :
  Router.resolve self method path = Ok (Some (cb, args, kwargs)) ->
  (exists d, Router._literal self !! method = Some d /\ d !! path = Some cb)
  \/ (exists l r, Router._wildcard self !! method = Some l /\ r ∈ l
                  /\ WildcardRoute._callback r = cb)
  \/ (exists l r, Router._regex self !! method = Some l /\ r ∈ l
                  /\ RegexRoute._callback r = cb).
Proof.
  assert (Hnl : Router._resolve_non_literal_route self method path
                = Ok (Some (cb, args, kwargs)) ->
                (exists l r, Router._wildcard self !! method = Some l /\ r ∈ l
                             /\ WildcardRoute._callback r = cb)
                \/ (exists l r, Router._regex self !! method = Some l /\ r ∈ l
                                /\ RegexRoute._callback r = cb)).
  { unfold Router._resolve_non_literal_route.
    destruct (Router._wildcard self !! method) as [l|] eqn:Ew.
    - destruct (Router.first_match WildcardRoute.match_ (rev l) path)
        as [[x|]|e] eqn:Ef; simpl; try discriminate.
      + intros H. injection H as ->. left.
        apply first_match_elem in Ef as (r & Hin & Hr).
        exists l, r. split; [reflexivity|]. split; [now apply elem_of_rev_1 in Hin|].
        symmetry. exact (wildcard_match_callback _ _ _ _ _ Hr).
      + destruct (Router._regex self !! method) as [l'|] eqn:Er; [|discriminate].
        intros H. right.
        apply first_match_elem in H as (r & Hin & Hr).
        exists l', r. split; [reflexivity|]. split; [now apply elem_of_rev_1 in Hin|].
        injection Hr as Hr. symmetry. exact (regex_match_callback _ _ _ _ _ Hr).
    - simpl. destruct (Router._regex self !! method) as [l'|] eqn:Er; [|discriminate].
      intros H. right.
      apply first_match_elem in H as (r & Hin & Hr).
      exists l', r. split; [reflexivity|]. split; [now apply elem_of_rev_1 in Hin|].
      injection Hr as Hr. symmetry. exact (regex_match_callback _ _ _ _ _ Hr). }
  unfold Router.resolve.
  destruct (Router._literal self !! method) as [d|] eqn:El; [|intros H; right; auto].
  destruct (d !! path) as [cb'|] eqn:Ep; [|intros H; right; auto].
  intros H. injection H as <- _ _. left. eauto.
Qed.

Lemma callbacks_from_app calls calls' self :
  callbacks_from calls self -> callbacks_from (calls ++ calls') self.
Proof.
  intros H method. destruct (H method) as (Hl & Hw & Hr).
  repeat split; intros; apply Exists_app; left; eauto.
Qed.

Lemma add_callbacks_from calls method pattern cb self :
  callbacks_from calls self ->
  callbacks_from (calls ++ [(method, pattern, cb)])
    (fst (Router.add re_compile method pattern cb self)).
Proof.
  intros Hinv.
  assert (Hnew : Exists (registers method cb) (calls ++ [(method, pattern, cb)])).
  { apply Exists_app. right. constructor. split; reflexivity. }
  pose proof (callbacks_from_app calls [(method, pattern, cb)] self Hinv) as Hold.
  unfold Router.add.
  destruct (Router._normalize_pattern pattern) as [[| |] pat].
  - pose proof (getitem_fst ∅ (Router._literal self) method) as Hf.
    pose proof (getitem_other ∅ (Router._literal self) method) as Ho.
    destruct (Router.getitem ∅ (Router._literal self) method) as [d lit].
    simpl in Hf, Ho. intros m. destruct (Hold m) as (Hl & Hw & Hr).
    split; [|split; [exact Hw | exact Hr]]. simpl. intros d' path cb'.
    destruct (decide (method = m)) as [<-|Hne].
    + rewrite lookup_insert_eq. intros H. injection H as <-.
      destruct (decide (pat = path)) as [<-|Hp].
      * rewrite lookup_insert_eq. intros H. now injection H as <-.
      * rewrite lookup_insert_ne by exact Hp. subst d.
        destruct (Router._literal self !! method) as [d0|] eqn:E; simpl.
        -- apply (Hl d0 path cb' eq_refl).
        -- now rewrite lookup_empty.
    + rewrite lookup_insert_ne, Ho by exact Hne. apply Hl.
  - pose proof (getitem_fst [] (Router._wildcard self) method) as Hf.
    pose proof (getitem_other [] (Router._wildcard self) method) as Ho.
    pose proof (getitem_lookup [] (Router._wildcard self) method) as Hk.
    destruct (Router.getitem [] (Router._wildcard self) method) as [l wc].
    simpl in Hf, Ho, Hk.
    assert (Hl0 : forall r, r ∈ l -> Exists (registers method (WildcardRoute._callback r))
                                      (calls ++ [(method, pattern, cb)])).
    { intros r Hin. subst l. destruct (Hold method) as (_ & Hw & _).
      destruct (Router._wildcard self !! method) as [l0|] eqn:E; simpl in Hin.
      - exact (Hw l0 r eq_refl Hin).
      - now apply elem_of_nil in Hin. }
    destruct (WildcardRoute.__init__ pat cb) as [route|e] eqn:Einit; simpl;
      intros m; destruct (Hold m) as (Hl & Hw & Hr);
      (split; [exact Hl | split; [|exact Hr]]); simpl; intros l' r;
      destruct (decide (method = m)) as [<-|Hne].
    + rewrite lookup_insert_eq. intros H. injection H as <-.
      intros Hin. apply elem_of_app in Hin as [Hin|Hin]; [now apply Hl0|].
      apply list_elem_of_singleton in Hin. subst r.
      destruct (init_inv _ _ _ Einit) as [-> _]. exact Hnew.
    + rewrite lookup_insert_ne, Ho by exact Hne. apply Hw.
    + rewrite Hk. intros H. injection H as <-. apply Hl0.
    + rewrite Ho by exact Hne. apply Hw.
  - pose proof (getitem_fst [] (Router._regex self) method) as Hf.
    pose proof (getitem_other [] (Router._regex self) method) as Ho.
    pose proof (getitem_lookup [] (Router._regex self) method) as Hk.
    destruct (Router.getitem [] (Router._regex self) method) as [l rx].
    simpl in Hf, Ho, Hk.
    assert (Hl0 : forall r, r ∈ l -> Exists (registers method (RegexRoute._callback r))
                                      (calls ++ [(method, pattern, cb)])).
    { intros r Hin. subst l. destruct (Hold method) as (_ & _ & Hr).
      destruct (Router._regex self !! method) as [l0|] eqn:E; simpl in Hin.
      - exact (Hr l0 r eq_refl Hin).
      - now apply elem_of_nil in Hin. }
    unfold RegexRoute.__init__.
    destruct (re_compile pat) as [p|]; simpl;
      intros m; destruct (Hold m) as (Hl & Hw & Hr);
      (split; [exact Hl | split; [exact Hw|]]); simpl; intros l' r;
      destruct (decide (method = m)) as [<-|Hne].
    + rewrite lookup_insert_eq. intros H. injection H as <-.
      intros Hin. apply elem_of_app in Hin as [Hin|Hin]; [now apply Hl0|].
      apply list_elem_of_singleton in Hin. subst r. exact Hnew.
    + rewrite lookup_insert_ne, Ho by exact Hne. apply Hr.
    + rewrite Hk. intros H. injection H as <-. apply Hl0.
    + rewrite Ho by exact Hne. apply Hr.
Qed.

Lemma add_all_callbacks_from calls : forall calls0 self,
  callbacks_from calls0 self ->
  callbacks_from (calls0 ++ calls) (add_all re_compile calls self).
Proof.
  induction calls as [|[[m p] c] calls IH]; intros calls0 self H.
  - now rewrite app_nil_r.
  - unfold add_all. simpl.
    fold (add_all re_compile calls (fst (Router.add re_compile m p c self))).
    replace (calls0 ++ (m, p, c) :: calls)%list
      with ((calls0 ++ [(m, p, c)]) ++ calls)%list by now rewrite <- app_assoc.
    apply IH. now apply add_callbacks_from.
Qed.

(** X6. [resolve] hands out only callbacks that were registered for the
    method: on a router built by calls of [add], the callback it returns
    came with one of the calls for that method. *)
Theorem resolve_registered_callback calls method path cb args kwargs :
  Router.resolve (add_all re_compile calls Router.__init__) method path
  = Ok (Some (cb, args, kwargs)) ->
  Exists (registers method cb) calls.
Proof.
  intros H. apply resolve_source in H.
  assert (Hinv : callbacks_from calls (add_all re_compile calls Router.__init__)).
  { apply (add_all_callbacks_from calls []).
    intros m. simpl. rewrite !lookup_empty.
    repeat split; intros; discriminate. }
  destruct (Hinv method) as (Hl & Hw & Hr).
  destruct H as [(d & Hd & Hp)|[(l & r & Hd & Hin & <-)|(l & r & Hd & Hin & <-)]]; eauto.
Qed.

Lemma wildcard_init_raises spec e :
  Wildcard.__init__ spec = Raise e ->
  exists kind offending, e = RouteError kind offending spec.
Proof.
  unfold Wildcard.__init__, split1.
  destruct (split_once ":" (chars (slice_1_m1 spec))) as [[a b]|];
    destruct (p_search _ _); try destruct (Wildcard.type_of_string _);
    intros H; try discriminate; injection H as <-; eauto.
Qed.

Lemma collect_raises toks e : forall re ws,
  WildcardRoute.collect toks re ws = Raise e ->
  exists token, token ∈ toks /\ Wildcard.__init__ token = Raise e.
Proof.
  induction toks as [|token toks IH]; simpl; intros re ws H; [discriminate|].
  destruct (negb (String.eqb token "") && startswith token "<" && endswith token ">").
  - destruct (Wildcard.__init__ token) as [w|e'] eqn:E; simpl in H.
    + apply IH in H as (t & Hin & Ht). exists t. split; [now constructor | exact Ht].
    + injection H as <-. exists token. split; [constructor | exact E].
  - apply IH in H as (t & Hin & Ht). exists t. split; [now constructor | exact Ht].
Qed.

(** X8. [add] raises in two cases only: for a wildcard pattern one of
    whose tokens [Wildcard] rejects, with the [RouteError] of that token,
    and for a regex pattern that [re.compile] rejects. A literal pattern
    is always added. *)
Theorem add_raises method pattern cb self e :
  snd (Router.add re_compile method pattern cb self) = Raise e ->
  (exists pat token kind offending,
      Router._normalize_pattern pattern = (wildcard, pat)
      /\ token ∈ WildcardRoute.tokens pat
      /\ Wildcard.__init__ token = Raise e
      /\ e = RouteError kind offending token)
  \/ (exists pat,
        Router._normalize_pattern pattern = (regex_type, pat)
        /\ re_compile pat = None
        /\ e = ReError pat).
Proof.
  unfold Router.add.
  destruct (Router._normalize_pattern pattern) as [[| |] pat].
  - destruct (Router.getitem ∅ (Router._literal self) method). discriminate.
  - destruct (Router.getitem [] (Router._wildcard self) method) as [l wc].
    unfold WildcardRoute.__init__.
    destruct (WildcardRoute.collect (WildcardRoute.tokens pat) [] [])
      as [[re ws]|e'] eqn:E; simpl; [discriminate|].
    intros H. injection H as <-. left.
    apply collect_raises in E as (token & Hin & Ht).
    destruct (wildcard_init_raises _ _ Ht) as (kind & off & ->).
    exists pat, token, kind, off. auto.
  - destruct (Router.getitem [] (Router._regex self) method) as [l rx].
    unfold RegexRoute.__init__. destruct (re_compile pat) eqn:E; simpl; [discriminate|].
    intros H. injection H as <-. right. exists pat. auto.
Qed.
End Provenance.

Lemma resolve_registered_callback_witness :
  Router.resolve
    (add_all example_compile
       [("GET", "/user/<id>", 1%nat); ("GET", "/user/me", 3%nat);
        ("GET", "/user/<id:int>", 2%nat)]
       Router.__init__)
    "GET" "/user/42"
  = Ok (Some (2%nat, [], {[ "id" := VInt 42 ]}))
  /\ Exists (registers "GET" 2%nat)
       [("GET", "/user/<id>", 1%nat); ("GET", "/user/me", 3%nat);
        ("GET", "/user/<id:int>", 2%nat)].
Proof.
  assert (H : Router.resolve
                (add_all example_compile
                   [("GET", "/user/<id>", 1%nat); ("GET", "/user/me", 3%nat);
                    ("GET", "/user/<id:int>", 2%nat)]
                   Router.__init__)
                "GET" "/user/42"
              = Ok (Some (2%nat, [], {[ "id" := VInt 42 ]})))
    by (vm_compute; reflexivity).
  split; [exact H|].
  exact (resolve_registered_callback example_compile _ _ _ _ _ _ H).
Defined.

Lemma add_raises_witness :
  snd (Router.add example_compile "GET" "/a/<1x>" 0%nat (Router.__init__ : Router.t nat))
  = Raise (RouteError InvalidWildcardName "1x" "<1x>")
  /\ ((exists pat token kind offending,
          Router._normalize_pattern "/a/<1x>" = (wildcard, pat)
          /\ token ∈ WildcardRoute.tokens pat
          /\ Wildcard.__init__ token = Raise (RouteError InvalidWildcardName "1x" "<1x>")
          /\ RouteError InvalidWildcardName "1x" "<1x>" = RouteError kind offending token)
      \/ (exists pat,
            Router._normalize_pattern "/a/<1x>" = (regex_type, pat)
            /\ example_compile pat = None
            /\ RouteError InvalidWildcardName "1x" "<1x>" = ReError pat)).
Proof.
  assert (H : snd (Router.add example_compile "GET" "/a/<1x>" 0%nat
                     (Router.__init__ : Router.t nat))
              = Raise (RouteError InvalidWildcardName "1x" "<1x>"))
    by (vm_compute; reflexivity).
  split; [exact H|].
  exact (add_raises example_compile "GET" "/a/<1x>" 0%nat Router.__init__ _ H).
Defined.


(** ** The tokens of a pattern *)

Lemma chars_app s1 s2 : chars (s1 ++ s2) = (chars s1 ++ chars s2)%list.
Proof. induction s1 as [|c s1 IH]; simpl; [reflexivity | now rewrite <- IH]. Qed.

Lemma chars_length s : List.length (chars s) = String.length s.
Proof. induction s as [|c s IH]; simpl; [reflexivity | now rewrite IH]. Qed.

Lemma chars_concat l : chars (String.concat "" l) = List.concat (map chars l).
Proof.
  induction l as [|x l IH]; [reflexivity|].
  destruct l as [|y l]; [simpl; now rewrite app_nil_r|].
  change (String.concat "" (x :: y :: l))
    with (x ++ "" ++ String.concat "" (y :: l)).
  rewrite !chars_app, IH. reflexivity.
Qed.

Section Alternatives.
Context {A : Type}.
Implicit Types (k : mstate -> option A).

Lemma alt_some_l r1 r2 k st :
  is_Some (run r1 k st) -> is_Some (run (Alt r1 r2) k st).
Proof. intros [x H]. rewrite run_Alt, H. eauto. Qed.

Lemma alt_some_r r1 r2 k st :
  is_Some (run r2 k st) -> is_Some (run (Alt r1 r2) k st).
Proof. intros H. rewrite run_Alt. destruct (run r1 k st); [eauto | exact H]. Qed.

Lemma plus_cls_some f1 f2 k c v rest' p g :
  f1 c = true -> forallb f2 v = true ->
  is_Some (k (MState (p + S (List.length v)) rest' g)) ->
  is_Some (run (Seq (Cls f1) (Star (Cls f2))) k (MState p (c :: v ++ rest') g)).
Proof.
  intros H1 H2 Hk. rewrite run_Seq, run_Cls_cons, H1, run_Star. cbn [m_rest].
  apply star_cls_some; [exact H2|].
  now replace (S p + List.length v)%nat with (p + S (List.length v))%nat by lia.
Qed.
End Alternatives.

(** A match of the tokenizer consumes a token of one of the shapes. *)
Lemma matches_tokenize st st' :
  matches WildcardRoute._tokenize_re st st' ->
  exists u, consumes st st' u /\ token_shape (str u).
Proof.
  unfold WildcardRoute._tokenize_re, WildcardRoute._wildcard_re, token_shape.
  intros H. inversion H; subst; clear H.
  - match goal with H : matches (Seq _ _) _ _ |- _ => inversion H; subst; clear H end.
    match goal with H : matches (Seq _ _) _ _ |- _ => inversion H; subst; clear H end.
    match goal with H : matches (Star _) _ _ |- _ =>
      apply matches_Star_Cls in H as (v & Hv & Hc2) end.
    match goal with H : matches (Chr "<") _ _ |- _ => apply matches_Chr in H as Hc1 end.
    match goal with H : matches (Chr ">") _ _ |- _ => apply matches_Chr in H as Hc3 end.
    exists ("<"%char :: v ++ [">"%char])%list. split.
    + apply (consumes_app _ _ _ ["<"%char] (v ++ [">"%char]) Hc1).
      exact (consumes_app _ _ _ v [">"%char] Hc2 Hc3).
    + left. exists v. now rewrite chars_str.
  - match goal with H : matches (Alt _ _) _ _ |- _ => inversion H; subst; clear H end.
    + match goal with H : matches (Plus _) _ _ |- _ =>
        apply matches_Plus_Cls in H as (u & Hne & Hu & Hc) end.
      exists u. split; [exact Hc|]. right. left. now rewrite chars_str.
    + match goal with H : matches (Alt _ _) _ _ |- _ => inversion H; subst; clear H end.
      * match goal with H : matches (Chr _) _ _ |- _ => apply matches_Chr in H end.
        exists ["/"%char]. split; [assumption | auto].
      * match goal with H : matches (Alt _ _) _ _ |- _ => inversion H; subst; clear H end;
          match goal with H : matches (Chr _) _ _ |- _ => apply matches_Chr in H end.
        -- exists ["<"%char]. split; [assumption | auto].
        -- exists [">"%char]. split; [assumption | auto 6].
Qed.

Lemma token_shape_nonempty u : token_shape (str u) -> u <> [].
Proof.
  unfold token_shape. rewrite chars_str.
  intros [(v & -> & _)|[[H _]|[H|[H|H]]]]; try discriminate;
    try (intros ->; discriminate).
Qed.

(** Wherever a character is left, the tokenizer finds a token there. *)
Lemma tokenize_some p c s :
  is_Some (match_at WildcardRoute._tokenize_re p (c :: s)).
Proof.
  unfold match_at, WildcardRoute._tokenize_re.
  destruct (WildcardRoute.not_delim c) eqn:Hnd.
  - apply alt_some_r, alt_some_l.
    apply (plus_cls_some _ _ _ c [] s p ∅ Hnd eq_refl). eauto.
  - unfold WildcardRoute.not_delim in Hnd. apply negb_false_iff in Hnd.
    apply orb_true_iff in Hnd as [Hnd|Hnd]; [apply orb_true_iff in Hnd as [Hnd|Hnd]|];
      apply Ascii.eqb_eq in Hnd; subst c.
    + do 3 apply alt_some_r. apply alt_some_l. rewrite run_Chr_cons. simpl. eauto.
    + do 4 apply alt_some_r. rewrite run_Chr_cons. simpl. eauto.
    + do 2 apply alt_some_r. apply alt_some_l. rewrite run_Chr_cons. simpl. eauto.
Qed.

Lemma tokenize_match p s m :
  match_at WildcardRoute._tokenize_re p s = Some m ->
  exists u rest, s = (u ++ rest)%list /\ token_shape (str u)
                 /\ m_start m = p /\ m_end m = (p + List.length u)%nat.
Proof.
  unfold match_at. intros H. apply run_sound in H as (st' & Hm & Hk).
  injection Hk as <-. apply matches_tokenize in Hm as (u & (Hr & Hp & _) & Hs).
  exists u, (m_rest st'). simpl in *. auto.
Qed.

Lemma findall_tokens fuel : forall s p,
  (List.length s <= fuel)%nat ->
  List.concat (map chars (findall_from WildcardRoute._tokenize_re fuel p s)) = s
  /\ Forall token_shape (findall_from WildcardRoute._tokenize_re fuel p s).
Proof.
  induction fuel as [|fuel IH]; intros s p Hlen.
  - destruct s; [split; [reflexivity | constructor] | simpl in Hlen; lia].
  - destruct s as [|c s].
    + simpl. destruct (match_at WildcardRoute._tokenize_re p []) as [m|] eqn:E;
        [|split; [reflexivity | constructor]].
      apply tokenize_match in E as (u & rest & Hs & Hu & _).
      apply token_shape_nonempty in Hu. destruct u; [contradiction | discriminate].
    + destruct (tokenize_some p c s) as [m Hm].
      pose proof (tokenize_match _ _ _ Hm) as (u & rest & Hs & Hu & Hst & Hen).
      cbn [findall_from]. rewrite (search_from_found _ _ _ _ Hm), Hst, Hen, Hs.
      replace (p + List.length u - p)%nat with (List.length u) by lia.
      rewrite Nat.sub_diag, drop_0, take_app_length, drop_app_length.
      destruct (IH rest (p + List.length u)%nat) as [IHc IHf].
      { pose proof (token_shape_nonempty u Hu) as Hne.
        assert (List.length (c :: s) = List.length (u ++ rest)%list) by now rewrite Hs.
        rewrite length_app in *. simpl in *. destruct u; [contradiction | simpl in *; lia]. }
      split.
      * cbn [map List.concat]. now rewrite chars_str, IHc.
      * constructor; assumption.
Qed.

(** X10. The tokenizer loses nothing: the tokens of a pattern, joined,
    are the pattern; and every token is a wildcard token [<...>], a run of
    characters other than [<], [>] and [/], or one of these three
    characters. *)
Theorem tokens_join pattern :
  String.concat "" (WildcardRoute.tokens pattern) = pattern
  /\ Forall token_shape (WildcardRoute.tokens pattern).
Proof.
  unfold WildcardRoute.tokens, findall.
  destruct (findall_tokens (String.length pattern) (chars pattern) 0) as [Hc Hf].
  { now rewrite chars_length. }
  split; [|exact Hf]. apply chars_inj. now rewrite chars_concat.
Qed.

(** ** The paths that a wildcard route matches *)

Lemma collect_pieces toks : forall re ws re' ws',
  WildcardRoute.collect toks re ws = Ok (re', ws') ->
  exists ws1, ws' = (ws ++ ws1)%list
              /\ re' = (re ++ pieces_for toks ws1)%list
              /\ List.length (List.filter is_wildcard_token toks) = List.length ws1.
Proof.
  induction toks as [|token toks IH]; intros re ws re' ws' H.
  - injection H as <- <-. exists []. now rewrite !app_nil_r.
  - cbn [WildcardRoute.collect] in H. cbn [pieces_for List.filter].
    fold (is_wildcard_token token) in H.
    destruct (is_wildcard_token token).
    + destruct (Wildcard.__init__ token) as [w|e]; simpl in H; [|discriminate].
      apply IH in H as (ws1 & -> & -> & Hlen).
      exists (w :: ws1). rewrite <- !app_assoc. simpl. auto.
    + apply IH in H as (ws1 & -> & -> & Hlen).
      exists ws1. rewrite <- !app_assoc. simpl. auto.
Qed.

(** A match of the joined pieces reads the tokens, a segment of its type
    in the place of each wildcard token, up to the end of the line. *)
Lemma join_instance toks : forall ws i st st',
  List.length (List.filter is_wildcard_token toks) = List.length ws ->
  matches (join i (pieces_for toks ws)) st st' ->
  exists segs,
    Forall2 (fun w s => language (Wildcard._type w) s = true) ws segs
    /\ m_rest st = (substitute toks segs ++ m_rest st')%list
    /\ at_eol (m_rest st') = true.
Proof.
  induction toks as [|token toks IH]; intros ws i st st' Hlen H.
  - destruct ws; [|discriminate]. simpl in H. inversion H; subst.
    exists []. split; [constructor | split; [reflexivity | assumption]].
  - cbn [pieces_for List.filter substitute] in *.
    destruct (is_wildcard_token token).
    + destruct ws as [|w ws]; [discriminate|]. simpl in Hlen.
      injection Hlen as Hlen. cbn [join] in H. inversion H; subst.
      match goal with H : matches (Grp _ _) _ _ |- _ => inversion H; subst end.
      match goal with H : matches (Wildcard.regex _) _ _ |- _ =>
        apply fragment_language in H as (u & Hu & Hrest & _) end.
      match goal with H : matches (join _ _) _ _ |- _ =>
        destruct (IH ws (S i) _ _ Hlen H) as (segs & Hsegs & Hr & Heol) end.
      simpl in Hr. exists (str u :: segs).
      split; [constructor; assumption|].
      split; [|exact Heol]. now rewrite chars_str, Hrest, Hr, app_assoc.
    + cbn [join] in H. inversion H; subst.
      match goal with H : matches (Lit _) _ _ |- _ =>
        apply matches_Lit in H as (Hrest & _) end.
      match goal with H : matches (join _ _) _ _ |- _ =>
        destruct (IH ws i _ _ Hlen H) as (segs & Hsegs & Hr & Heol) end.
      exists segs. split; [exact Hsegs|].
      split; [|exact Heol]. now rewrite Hrest, Hr, app_assoc.
Qed.

Section Instances.
Context {A : Type}.
Implicit Types (k : mstate -> option A).

Lemma run_Grp i r k st :
  run (Grp i r) k st
  = run r (fun st' =>
             k (MState (m_pos st') (m_rest st')
                  (<[i := str (take (m_pos st' - m_pos st) (m_rest st))]>
                     (m_groups st')))) st.
Proof. reflexivity. Qed.

Lemma opt_some_skip r k st : is_Some (k st) -> is_Some (run (Opt r) k st).
Proof. intros H. rewrite run_Opt. destruct (run r k st); [eauto | exact H]. Qed.

Lemma lit_some l : forall k p rest g,
  is_Some (k (MState (p + List.length l) rest g)) ->
  is_Some (run (Lit l) k (MState p (l ++ rest) g)).
Proof.
  induction l as [|c l IH]; intros k p rest g Hk; simpl Lit.
  - rewrite run_Eps. simpl in *. now rewrite Nat.add_0_r in Hk.
  - rewrite run_Seq. simpl app. rewrite run_Chr_cons, Ascii.eqb_refl.
    apply IH. now replace (S p + List.length l)%nat
                with (p + List.length (c :: l))%nat by (simpl; lia).
Qed.

Lemma positive_some k l rest p g :
  positive_literal l = true ->
  is_Some (k (MState (p + List.length l) rest g)) ->
  is_Some (run (Seq (Rng "1" "9") (Star (Rng "0" "9"))) k (MState p (l ++ rest) g)).
Proof.
  destruct l as [|c l]; [discriminate|]. simpl positive_literal. intros H Hk.
  apply andb_true_iff in H as [H1 H2].
  apply (plus_cls_some _ _ k c l rest p g H1 H2 Hk).
Qed.

(** The text of a wildcard type matches a segment of the type wherever
    the rest of the pattern matches after it. *)
Lemma fragment_some t u rest k p g :
  language t (str u) = true ->
  is_Some (k (MState (p + List.length u) rest g)) ->
  is_Some (run (Wildcard._types_re t) k (MState p (u ++ rest) g)).
Proof.
  assert (Hzero : forall l0, String.eqb (str l0) "0" = true -> l0 = ["0"%char]).
  { intros l0 E. apply String.eqb_eq in E.
    rewrite <- (chars_str l0), E. reflexivity. }
  destruct t; simpl language; rewrite ?chars_str; intros Hl Hk.
  - apply andb_true_iff in Hl as [Hne Hf]. destruct u as [|c u]; [discriminate|].
    simpl in Hf. apply andb_true_iff in Hf as [Hc Hf].
    apply (plus_cls_some _ _ k c u rest p g Hc Hf Hk).
  - apply andb_true_iff in Hl as [Hne Hf]. destruct u as [|c u]; [discriminate|].
    simpl in Hf. apply andb_true_iff in Hf as [Hc Hf].
    apply (plus_cls_some _ _ k c u rest p g Hc Hf Hk).
  - change (Wildcard._types_re Wildcard.Tint)
      with (Alt (Chr "0") (Seq (Rng "1" "9") (Star (Rng "0" "9")))).
    apply orb_true_iff in Hl as [Hl|Hl].
    + apply Hzero in Hl. subst u. apply alt_some_l. simpl app.
      rewrite run_Chr_cons. simpl Ascii.eqb. cbv iota.
      now replace (S p) with (p + List.length ["0"%char])%nat by (simpl; lia).
    + apply alt_some_r. now apply positive_some.
  - now apply positive_some.
  - change (Wildcard._types_re Wildcard.Tnegint)
      with (Alt (Chr "0") (Seq (Opt (Chr "-")) (Seq (Rng "1" "9") (Star (Rng "0" "9"))))).
    apply orb_true_iff in Hl as [Hl|Hl]; [apply orb_true_iff in Hl as [Hl|Hl]|].
    + apply Hzero in Hl. subst u. apply alt_some_l. simpl app.
      rewrite run_Chr_cons. simpl Ascii.eqb. cbv iota.
      now replace (S p) with (p + List.length ["0"%char])%nat by (simpl; lia).
    + apply alt_some_r. rewrite run_Seq. apply opt_some_skip. now apply positive_some.
    + destruct u as [|c u]; [discriminate|].
      destruct (Ascii.eqb_spec "-" c) as [<-|Hne];
        [|destruct c as [[] [] [] [] [] [] [] []]; try discriminate Hl; now contradiction Hne].
      apply alt_some_r. rewrite run_Seq. apply alt_some_l. simpl app.
      rewrite run_Chr_cons. simpl Ascii.eqb. cbv iota.
      apply positive_some; [exact Hl|].
      now replace (S p + List.length u)%nat with (p + List.length ("-"%char :: u))%nat
        by (simpl; lia).
Qed.

(** The joined pieces match every instance of the tokens. *)
Lemma join_some toks : forall ws segs i k p g rest,
  Forall2 (fun w s => language (Wildcard._type w) s = true) ws segs ->
  List.length (List.filter is_wildcard_token toks) = List.length ws ->
  at_eol rest = true ->
  (forall st, is_Some (k st)) ->
  is_Some (run (join i (pieces_for toks ws)) k
             (MState p (substitute toks segs ++ rest) g)).
Proof.
  induction toks as [|token toks IH]; intros ws segs i k p g rest Hsegs Hlen Heol Hk.
  - simpl. rewrite Heol. apply Hk.
  - cbn [pieces_for List.filter substitute] in *.
    destruct (is_wildcard_token token).
    + destruct Hsegs as [|w s ws segs Hs Hsegs]; [discriminate|].
      simpl in Hlen. injection Hlen as Hlen.
      cbn [join]. rewrite run_Seq, run_Grp, <- app_assoc.
      apply fragment_some; [now rewrite str_chars|].
      cbn [m_pos m_rest m_groups]. now apply IH.
    + cbn [join]. rewrite run_Seq, <- app_assoc. apply lit_some. now apply IH.
Qed.
End Instances.

Lemma at_eol_cases rest : at_eol rest = true -> rest = [] \/ rest = [LF].
Proof.
  destruct rest as [|c [|c' rest]]; simpl; intros H; try discriminate; auto.
  apply Ascii.eqb_eq in H. subst. auto.
Qed.

Section WildcardInstances.
Context {callback : Type}.

Lemma init_pieces pattern (cb : callback) self :
  WildcardRoute.__init__ pattern cb = Ok self ->
  WildcardRoute._re self
  = compile_pieces (pieces_for (WildcardRoute.tokens pattern) (WildcardRoute._wildcards self))
  /\ List.length (List.filter is_wildcard_token (WildcardRoute.tokens pattern))
     = List.length (WildcardRoute._wildcards self).
Proof.
  unfold WildcardRoute.__init__. intros H.
  destruct (WildcardRoute.collect _ [] []) as [[re ws]|e] eqn:E; simpl in H;
    [|discriminate].
  injection H as <-. simpl.
  apply collect_pieces in E as (ws1 & -> & -> & Hlen). simpl. auto.
Qed.

(** The pattern of the route is found exactly in the instances. *)
Lemma search_instance pattern (cb : callback) self path :
  WildcardRoute.__init__ pattern cb = Ok self ->
  is_Some (p_search (WildcardRoute._re self) path)
  <-> instance pattern (WildcardRoute._wildcards self) path.
Proof.
  intros Hinit. destruct (init_pieces _ _ _ Hinit) as [Hre Hlen]. split.
  - intros [m Hm]. rewrite Hre in Hm. simpl p_search in Hm.
    apply search_from_suffix in Hm as (u & s' & Hs & Hm).
    unfold match_at in Hm. apply run_sound in Hm as (st' & Hmat & _).
    inversion Hmat; subst.
    match goal with H : matches Bol _ _ |- _ => inversion H; subst end.
    match goal with H : m_pos _ = 0%nat |- _ => simpl in H end.
    destruct u; [|discriminate]. simpl in Hs.
    match goal with H : matches (join _ _) _ _ |- _ =>
      apply join_instance in H as (segs & Hsegs & Hr & Heol); [|exact Hlen] end.
    simpl in Hr. exists segs. split; [exact Hsegs|].
    rewrite Hs, Hr. destruct (at_eol_cases _ Heol) as [-> | ->];
      [left; now rewrite app_nil_r | now right].
  - intros (segs & Hsegs & Hpath).
    assert (Hrest : exists rest, at_eol rest = true
              /\ chars path
                 = (substitute (WildcardRoute.tokens pattern) segs ++ rest)%list).
    { destruct Hpath as [-> | ->]; [exists [] | exists [LF]];
        (split; [reflexivity|]); now rewrite ?app_nil_r. }
    destruct Hrest as (rest & Heol & Hp).
    rewrite Hre. simpl p_search. rewrite Hp.
    match goal with |- is_Some (search_from ?r ?p ?s) =>
      assert (Hat : is_Some (match_at r p s)) end.
    { unfold match_at. rewrite run_Seq, run_Bol.
      apply join_some; [exact Hsegs | exact Hlen | exact Heol | eauto]. }
    destruct Hat as [m Hat]. exists m. now apply search_from_found.
Qed.

(** X11. A wildcard route matches exactly the instances of its pattern:
    the pattern with each wildcard token replaced by a segment of that
    wildcard's type, and nothing else but, possibly, one line feed at the
    end. For a path that is no instance [match] returns [None], and only
    for such a path. For an instance it returns a result or raises
    [ValueError]; it returns a result when the path has no more digits
    than [int] converts (4300). *)
Theorem wildcard_route_instances pattern (cb : callback) self path :
  WildcardRoute.__init__ pattern cb = Ok self ->
  (WildcardRoute.match_ self path = Ok None
   <-> ~ instance pattern (WildcardRoute._wildcards self) path)
  /\ (instance pattern (WildcardRoute._wildcards self) path ->
      ((exists call, WildcardRoute.match_ self path = Ok (Some call))
       \/ WildcardRoute.match_ self path = Raise ValueError)
      /\ ((digit_count path <= int_max_str_digits)%nat ->
          exists call, WildcardRoute.match_ self path = Ok (Some call))).
Proof.
  intros Hinit. pose proof (search_instance _ _ _ path Hinit) as Hsi.
  destruct (p_search (WildcardRoute._re self) path) as [m|] eqn:Hm.
  - destruct (wildcard_match_found _ _ _ _ _ Hinit Hm) as [Hcases Hshort].
    assert (Hi : instance pattern (WildcardRoute._wildcards self) path)
      by (apply Hsi; eauto).
    split; [|intros _; split; assumption].
    split; [|intros Hn; contradiction].
    intros Hnone. exfalso.
    destruct Hcases as [[c Hc]|Hc]; rewrite Hc in Hnone; discriminate.
  - assert (Hno : ~ instance pattern (WildcardRoute._wildcards self) path).
    { intros Hi. apply Hsi in Hi. destruct Hi as [x Hx]. discriminate. }
    assert (Hmatch : WildcardRoute.match_ self path = Ok None).
    { unfold WildcardRoute.match_. now rewrite Hm. }
    split; [split; auto | intros Hi; contradiction].
Qed.

End WildcardInstances.

Lemma wildcard_route_instances_witness :
  exists self,
    WildcardRoute.__init__ "/user/<id:int>/<!>" 1%nat = Ok self
    /\ (WildcardRoute.match_ self "/user/42/x" = Ok None
        <-> ~ instance "/user/<id:int>/<!>" (WildcardRoute._wildcards self) "/user/42/x")
    /\ (instance "/user/<id:int>/<!>" (WildcardRoute._wildcards self) "/user/42/x" ->
        ((exists call, WildcardRoute.match_ self "/user/42/x" = Ok (Some call))
         \/ WildcardRoute.match_ self "/user/42/x" = Raise ValueError)
        /\ ((digit_count "/user/42/x" <= int_max_str_digits)%nat ->
            exists call, WildcardRoute.match_ self "/user/42/x" = Ok (Some call))).
Proof.
  eexists.
  assert (H : WildcardRoute.__init__ "/user/<id:int>/<!>" 1%nat
              = Ok (WildcardRoute.Make
                      (compile_pieces [Escaped "/"; Escaped "user"; Escaped "/";
                                       Capture (Wildcard._types_re Wildcard.Tint);
                                       Escaped "/";
                                       Capture (Wildcard._types_re Wildcard.Tstr)])
                      [Wildcard.Make "id" Wildcard.Tint; Wildcard.Make "!" Wildcard.Tstr]
                      1%nat)) by (vm_compute; reflexivity).
  split; [exact H|].
  exact (wildcard_route_instances _ _ _ "/user/42/x" H).
Defined.

(** The path [/user/42/x] is an instance of [/user/<id:int>/<!>], with the
    segments [42] and [x]; the route returns the integer under its name. *)
Example user_instance :
  instance "/user/<id:int>/<!>"
    [Wildcard.Make "id" Wildcard.Tint; Wildcard.Make "!" Wildcard.Tstr] "/user/42/x"
  /\ (r ← WildcardRoute.__init__ "/user/<id:int>/<!>" 1%nat;
      WildcardRoute.match_ r "/user/42/x")
     = Ok (Some (1%nat, [], {[ "id" := VInt 42 ]})).
Proof.
  split; [|vm_compute; reflexivity].
  exists ["42"; "x"]. split.
  - repeat constructor.
  - left. vm_compute. reflexivity.
Qed.

(** ** MultiDict *)

Section MultiDictFacts.
Context {V : Type}.
Implicit Types (self : MultiDict.t V) (items : list (string * V)).

Lemma setitem_lookup self key v :
  MultiDict.data (MultiDict.__setitem__ key v self) !! key
  = Some (default [] (MultiDict.data self !! key) ++ [v])%list.
Proof.
  unfold MultiDict.__setitem__. destruct (MultiDict.data self !! key) as [l|];
    simpl; now rewrite lookup_insert_eq.
Qed.

Lemma setitem_lookup_ne self key v key' :
  key <> key' ->
  MultiDict.data (MultiDict.__setitem__ key v self) !! key' = MultiDict.data self !! key'.
Proof.
  intros Hne. unfold MultiDict.__setitem__. destruct (MultiDict.data self !! key) as [l|];
    simpl; now rewrite lookup_insert_ne.
Qed.

Lemma assign_lookup items : forall self key,
  MultiDict.data (MultiDict.assign items self) !! key
  = match values_of key items with
    | [] => MultiDict.data self !! key
    | vs => Some (default [] (MultiDict.data self !! key) ++ vs)%list
    end.
Proof.
  induction items as [|[k v] items IH]; intros self key; [reflexivity|].
  unfold MultiDict.assign in *. cbn [fold_left fst snd]. rewrite IH.
  unfold values_of. cbn [List.filter fst].
  destruct (String.eqb_spec k key) as [->|Hne].
  - rewrite setitem_lookup. cbn [map snd].
    destruct (map snd _) as [|v' vs]; [reflexivity|].
    simpl. now rewrite <- app_assoc.
  - now rewrite setitem_lookup_ne.
Qed.

(** X12. Setting a key and getting it back: after [self[key] = v],
    [self[key]] is [v] and [getall(key)] is the former list of the key
    with [v] at its end; the other keys are as before. *)
Theorem setitem_getitem self key v :
  MultiDict.__getitem__ (MultiDict.__setitem__ key v self) key = MultiDict.Returns v
  /\ (forall d, MultiDict.getall (MultiDict.__setitem__ key v self) key d
               = (MultiDict.getall self key [] ++ [v])%list)
  /\ (forall key' d, key' <> key ->
        MultiDict.__getitem__ (MultiDict.__setitem__ key v self) key'
        = MultiDict.__getitem__ self key'
        /\ MultiDict.getall (MultiDict.__setitem__ key v self) key' d
           = MultiDict.getall self key' d).
Proof.
  unfold MultiDict.__getitem__, MultiDict.getall. rewrite setitem_lookup.
  split; [now rewrite last_snoc|].
  split; [intros d; now destruct (MultiDict.data self !! key)|].
  intros key' d Hne. now rewrite setitem_lookup_ne by congruence.
Qed.

(** X13. After the assignments of [items] to a new [MultiDict], one after
    the other, [getall] of a key is the list of the values assigned to it,
    in the order of the assignments, and the default when there is none. *)
Theorem getall_assigned items key d :
  MultiDict.getall (MultiDict.assign items MultiDict.__init__) key d
  = match values_of key items with
    | [] => d
    | vs => vs
    end.
Proof.
  unfold MultiDict.getall, MultiDict.__init__. rewrite assign_lookup. simpl.
  rewrite lookup_empty.
  now destruct (values_of key items).
Qed.

(** X14. After the assignments of [items] to a new [MultiDict],
    [self[key]] is the value of the last assignment to the key; it raises
    [KeyError] when there is none, and never [IndexError]. *)
Theorem getitem_assigned items key :
  MultiDict.__getitem__ (MultiDict.assign items MultiDict.__init__) key
  = match last (values_of key items) with
    | Some v => MultiDict.Returns v
    | None => MultiDict.KeyError key
    end.
Proof.
  unfold MultiDict.__getitem__, MultiDict.__init__. rewrite assign_lookup.
  cbn [MultiDict.data]. rewrite lookup_empty.
  destruct (values_of key items) as [|v vs] eqn:E; [reflexivity|].
  simpl default. simpl app.
  destruct (last (v :: vs)) eqn:El; [reflexivity|].
  apply last_None in El. discriminate.
Qed.
End MultiDictFacts.


(** ** The methods of a router *)

Section RouterMethods.
Context {callback : Type}.
Variable re_compile : string -> option Pattern.
Implicit Types (self : Router.t callback) (cb : callback).

Lemma add_lookups_other method pattern cb self method' :
  method <> method' ->
  Router._literal (fst (Router.add re_compile method pattern cb self)) !! method'
  = Router._literal self !! method'
  /\ Router._wildcard (fst (Router.add re_compile method pattern cb self)) !! method'
     = Router._wildcard self !! method'
  /\ Router._regex (fst (Router.add re_compile method pattern cb self)) !! method'
     = Router._regex self !! method'.
Proof.
  intros Hne. unfold Router.add.
  destruct (Router._normalize_pattern pattern) as [[| |] pat].
  - pose proof (getitem_other ∅ (Router._literal self) method method' Hne) as Hg.
    destruct (Router.getitem ∅ (Router._literal self) method) as [d lit].
    simpl in *. now rewrite lookup_insert_ne.
  - pose proof (getitem_other [] (Router._wildcard self) method method' Hne) as Hg.
    destruct (Router.getitem [] (Router._wildcard self) method) as [l wc].
    destruct (WildcardRoute.__init__ pat cb); simpl in *;
      [now rewrite lookup_insert_ne | auto].
  - pose proof (getitem_other [] (Router._regex self) method method' Hne) as Hg.
    destruct (Router.getitem [] (Router._regex self) method) as [l rx].
    destruct (RegexRoute.__init__ re_compile pat cb); simpl in *;
      [now rewrite lookup_insert_ne | auto].
Qed.

Lemma add_puts_method method pattern cb self :
  is_Some (Router._literal (fst (Router.add re_compile method pattern cb self)) !! method)
  \/ is_Some (Router._wildcard (fst (Router.add re_compile method pattern cb self)) !! method)
  \/ is_Some (Router._regex (fst (Router.add re_compile method pattern cb self)) !! method).
Proof.
  unfold Router.add.
  destruct (Router._normalize_pattern pattern) as [[| |] pat].
  - left. destruct (Router.getitem ∅ (Router._literal self) method) as [d lit].
    simpl. rewrite lookup_insert_eq. eauto.
  - right. left.
    pose proof (getitem_lookup [] (Router._wildcard self) method) as Hg.
    destruct (Router.getitem [] (Router._wildcard self) method) as [l wc].
    simpl in Hg.
    destruct (WildcardRoute.__init__ pat cb); simpl;
      [rewrite lookup_insert_eq | rewrite Hg]; eauto.
  - right. right.
    pose proof (getitem_lookup [] (Router._regex self) method) as Hg.
    destruct (Router.getitem [] (Router._regex self) method) as [l rx].
    simpl in Hg.
    destruct (RegexRoute.__init__ re_compile pat cb); simpl;
      [rewrite lookup_insert_eq | rewrite Hg]; eauto.
Qed.

Lemma add_keeps_method method pattern cb self method' :
  Router.contains_method self method' = true ->
  Router.contains_method (fst (Router.add re_compile method pattern cb self)) method' = true.
Proof.
  destruct (decide (method = method')) as [<-|Hne].
  - intros _. apply contains_method_spec, add_puts_method.
  - destruct (add_lookups_other method pattern cb self method' Hne) as (Hl & Hw & Hr).
    rewrite !contains_method_spec, Hl, Hw, Hr. auto.
Qed.

Lemma add_all_keeps_method calls : forall self method,
  Router.contains_method self method = true ->
  Router.contains_method (add_all re_compile calls self) method = true.
Proof.
  induction calls as [|[[m p] c] calls IH]; intros self method H; [exact H|].
  simpl. apply IH. now apply add_keeps_method.
Qed.

Lemma add_all_known calls : forall self method,
  Exists (fun call => fst (fst call) = method) calls ->
  Router.contains_method (add_all re_compile calls self) method = true.
Proof.
  induction calls as [|[[m p] c] calls IH]; intros self method H;
    inversion H as [? ? Hm|? ? Hm]; subst; simpl.
  - apply add_all_keeps_method. simpl. apply contains_method_spec, add_puts_method.
  - now apply IH.
Qed.

Lemma add_all_unknown calls : forall self method,
  Forall (fun call => fst (fst call) <> method) calls ->
  Router._literal (add_all re_compile calls self) !! method = Router._literal self !! method
  /\ Router._wildcard (add_all re_compile calls self) !! method
     = Router._wildcard self !! method
  /\ Router._regex (add_all re_compile calls self) !! method = Router._regex self !! method.
Proof.
  induction calls as [|[[m p] c] calls IH]; intros self method H; [auto|].
  inversion H as [|? ? Hm Hrest]; subst. simpl in Hm. simpl.
  destruct (IH (fst (Router.add re_compile m p c self)) method Hrest) as (Hl & Hw & Hr).
  destruct (add_lookups_other m p c self method Hm) as (Hl' & Hw' & Hr').
  rewrite Hl, Hw, Hr. auto.
Qed.

Lemma add_all_unknown_method (calls : list (string * string * callback)) method path :
  Forall (fun call => fst (fst call) <> method) calls ->
  Router.resolve (add_all re_compile calls Router.__init__) method path = Ok None
  /\ Router.contains_method (add_all re_compile calls Router.__init__) method = false.
Proof.
  intros H. destruct (add_all_unknown calls Router.__init__ method H) as (Hl & Hw & Hr).
  simpl in Hl, Hw, Hr.
  rewrite lookup_empty in Hl. rewrite lookup_empty in Hw. rewrite lookup_empty in Hr.
  split.
  - unfold Router.resolve, Router._resolve_non_literal_route. now rewrite Hl, Hw, Hr.
  - apply not_true_iff_false. rewrite contains_method_spec, Hl, Hw, Hr.
    intros [[? E]|[[? E]|[? E]]]; discriminate.
Qed.
End RouterMethods.

(** ** The application *)

Section IceFacts.
Context {callback input : Type}.
Variable re_compile : string -> option Pattern.
Variable responses : gmap Z (string * string).
Variable encode : string -> option string -> outcome (list Byte.byte).
Variable parse_qsl : string -> list (string * string).
Variable field_storage : input -> gmap string string ->
                         outcome (list (string * list string)).
Variable invoke : callback -> list value -> gmap string value ->
                  Request.t input -> Response.t -> outcome (returned * Response.t).
Implicit Types (self : Ice.t callback) (ds : list (decoration callback)).

Lemma decorate_router ds : forall self,
  Ice.router (decorate re_compile ds self)
  = add_all re_compile (routes_of ds) (Ice.router self).
Proof.
  induction ds as [|[m p c|st c] ds IH]; intros self; [reflexivity| |].
  - unfold decorate in *. cbn [fold_left routes_of]. rewrite IH.
    change (add_all re_compile ((m, p, c) :: routes_of ds) (Ice.router self))
      with (add_all re_compile (routes_of ds)
              (fst (Router.add re_compile m p c (Ice.router self)))).
    unfold Ice.route. destruct (Router.add re_compile m p c (Ice.router self)); reflexivity.
  - unfold decorate in *. cbn [fold_left routes_of]. now rewrite IH.
Qed.

Lemma decorate_handlers ds : forall self status,
  Ice._error_handlers (decorate re_compile ds self) !! status
  = match last (pages_of status ds) with
    | Some cb => Some cb
    | None => Ice._error_handlers self !! status
    end.
Proof.
  induction ds as [|[m p c|st c] ds IH]; intros self status; [reflexivity| |].
  - unfold decorate in *. cbn [fold_left pages_of]. rewrite IH.
    unfold Ice.route. destruct (Router.add re_compile m p c (Ice.router self)); reflexivity.
  - unfold decorate in *. cbn [fold_left pages_of]. rewrite IH.
    unfold Ice.error. cbn [Ice._error_handlers].
    destruct (decide (st = status)) as [->|Hne].
    + rewrite last_cons, lookup_insert_eq. now destruct (last (pages_of status ds)).
    + now rewrite lookup_insert_ne.
Qed.

(** A call raises what the construction of its request raises. *)
Lemma call_request_raised self env e :
  Request.__init__ parse_qsl field_storage env = Raised e ->
  Ice.__call__ responses encode parse_qsl field_storage invoke self env = Raised e.
Proof. intros H. unfold Ice.__call__. now rewrite H. Qed.

(** X15. An application set up by decorators answers a request whose
    method none of its [route] decorators named as it answers a callback
    that returns 501, whatever the path; the request is the one that
    [Request.__init__] builds from the environment. *)
Theorem call_unknown_method ds env req :
  Request.__init__ parse_qsl field_storage env = Done req ->
  Forall (fun call => fst (fst call) <> Request.method req) (routes_of ds) ->
  Ice.__call__ responses encode parse_qsl field_storage invoke
    (decorate re_compile ds Ice.__init__) env
  = Ice.respond responses encode invoke (decorate re_compile ds Ice.__init__)
      req (RInt 501) Response.__init__.
Proof.
  intros Hreq H. unfold Ice.__call__. rewrite Hreq. cbn [mbind outcome_bind].
  unfold Ice.dispatch. rewrite decorate_router.
  destruct (add_all_unknown_method re_compile _ _ (Request.path req) H) as [Hres Hcon].
  cbn [Ice.router Ice.__init__]. rewrite Hres, Hcon. reflexivity.
Qed.

(** X16. An application set up by decorators answers a request that no
    route matches, but whose method one of its [route] decorators named,
    as it answers a callback that returns 404; the decorator may have
    raised; the request is the one that [Request.__init__] builds from
    the environment. *)
Theorem call_not_found ds env req :
  Request.__init__ parse_qsl field_storage env = Done req ->
  Exists (fun call => fst (fst call) = Request.method req) (routes_of ds) ->
  Router.resolve (Ice.router (decorate re_compile ds Ice.__init__))
    (Request.method req) (Request.path req) = Ok None ->
  Ice.__call__ responses encode parse_qsl field_storage invoke
    (decorate re_compile ds Ice.__init__) env
  = Ice.respond responses encode invoke (decorate re_compile ds Ice.__init__)
      req (RInt 404) Response.__init__.
Proof.
  intros Hreq H Hres. unfold Ice.__call__. rewrite Hreq. cbn [mbind outcome_bind].
  unfold Ice.dispatch. rewrite Hres.
  rewrite decorate_router. cbn [Ice.router Ice.__init__].
  rewrite (add_all_known re_compile _ Router.__init__ _ H). reflexivity.
Qed.

(** X17. The error page of a status is the callback that the last
    [error] decorator for that status registered; when there is none, the
    callback of the last [error] decorator with no status; when there is
    none either, the status line, and the media type becomes
    [text/plain]. *)
Theorem error_page_precedence ds resp :
  Ice._get_error_page_callback (decorate re_compile ds Ice.__init__) resp
  = match last (pages_of (Some (Response.status resp)) ds) with
    | Some cb => (resp, Ice.Registered cb)
    | None =>
        match last (pages_of None ds) with
        | Some cb => (resp, Ice.Registered cb)
        | None => (Response.set_media_type (Some "text/plain") resp, Ice.Rudimentary)
        end
    end.
Proof.
  unfold Ice._get_error_page_callback. rewrite !decorate_handlers.
  cbn [Ice._error_handlers Ice.__init__]. rewrite !lookup_empty.
  destruct (last (pages_of (Some (Response.status resp)) ds)); [reflexivity|].
  destruct (last (pages_of None ds)); reflexivity.
Qed.
End IceFacts.

Lemma call_unknown_method_witness :
  Ice.__call__ example_responses example_encode example_parse_qsl example_fields
    example_invoke
    (decorate example_compile [Route "GET" "/" 1%nat; ErrorPage None 2%nat] Ice.__init__)
    (example_environ "DELETE" "/")
  = Ice.respond example_responses example_encode example_invoke
      (decorate example_compile [Route "GET" "/" 1%nat; ErrorPage None 2%nat] Ice.__init__)
      (example_request "DELETE" "/") (RInt 501) Response.__init__.
Proof.
  assert (H0 : Request.__init__ example_parse_qsl example_fields
                 (example_environ "DELETE" "/")
               = Done (example_request "DELETE" "/")) by (vm_compute; reflexivity).
  assert (H : Forall (fun call : string * string * nat =>
                        fst (fst call) <> Request.method (example_request "DELETE" "/"))
                (routes_of [Route "GET" "/" 1%nat; ErrorPage None 2%nat])).
  { repeat constructor. intros E. vm_compute in E. discriminate E. }
  exact (call_unknown_method example_compile example_responses example_encode
           example_parse_qsl example_fields example_invoke _ _ _ H0 H).
Defined.

Lemma call_not_found_witness :
  Ice.__call__ example_responses example_encode example_parse_qsl example_fields
    example_invoke
    (decorate example_compile [Route "GET" "/" 1%nat] Ice.__init__)
    (example_environ "GET" "/missing")
  = Ice.respond example_responses example_encode example_invoke
      (decorate example_compile [Route "GET" "/" 1%nat] Ice.__init__)
      (example_request "GET" "/missing") (RInt 404) Response.__init__.
Proof.
  assert (H0 : Request.__init__ example_parse_qsl example_fields
                 (example_environ "GET" "/missing")
               = Done (example_request "GET" "/missing")) by (vm_compute; reflexivity).
  assert (H1 : Exists (fun call : string * string * nat =>
                         fst (fst call) = Request.method (example_request "GET" "/missing"))
                 (routes_of [Route "GET" "/" 1%nat])).
  { constructor. vm_compute. reflexivity. }
  assert (H2 : Router.resolve
                 (Ice.router (decorate example_compile [Route "GET" "/" 1%nat] Ice.__init__))
                 (Request.method (example_request "GET" "/missing"))
                 (Request.path (example_request "GET" "/missing"))
               = Ok None) by (vm_compute; reflexivity).
  exact (call_not_found example_compile example_responses example_encode
           example_parse_qsl example_fields example_invoke _ _ _ H0 H1 H2).
Defined.

(** ** Decimal strings *)

Lemma digit_char_val d :
  (0 <= d <= 9)%Z -> is_digit (digit_char d) = true /\ digit_val (digit_char d) = d.
Proof.
  intros Hd. unfold is_digit, in_range, digit_val, digit_char, code.
  rewrite nat_ascii_embedding by lia. split.
  - apply andb_true_iff. split; apply Nat.leb_le; lia.
  - lia.
Qed.

Lemma decimal_S fuel n acc :
  decimal (S fuel) n acc
  = if (n <? 10)%Z then digit_char (n mod 10) :: acc
    else decimal fuel (n / 10) (digit_char (n mod 10) :: acc).
Proof. reflexivity. Qed.

(** [decimal] writes the digits of a number that its fuel can hold. *)
Lemma decimal_val fuel : forall n acc,
  (0 <= n < 2 ^ Z.of_nat (S fuel))%Z ->
  exists ds, decimal (S fuel) n acc = (ds ++ acc)%list
             /\ all_digits ds = true /\ digits_val ds = n.
Proof.
  induction fuel as [|fuel IH]; intros n acc Hn.
  - change (2 ^ Z.of_nat 1)%Z with 2%Z in Hn.
    assert (Hlt : (n <? 10)%Z = true) by (apply Z.ltb_lt; lia).
    rewrite decimal_S, Hlt. rewrite Z.mod_small by lia.
    destruct (digit_char_val n) as [Hd Hv]; [lia|].
    exists [digit_char n]. split; [reflexivity|]. split.
    + simpl. now rewrite Hd.
    + unfold digits_val. simpl. lia.
  - rewrite (decimal_S (S fuel)). destruct (n <? 10)%Z eqn:Hlt.
    + apply Z.ltb_lt in Hlt. rewrite Z.mod_small by lia.
      destruct (digit_char_val n) as [Hd Hv]; [lia|].
      exists [digit_char n]. split; [reflexivity|]. split.
      * simpl. now rewrite Hd.
      * unfold digits_val. simpl. lia.
    + apply Z.ltb_ge in Hlt.
      assert (Hpow : (2 ^ Z.of_nat (S (S fuel)) = 2 * 2 ^ Z.of_nat (S fuel))%Z).
      { rewrite (Nat2Z.inj_succ (S fuel)). apply Z.pow_succ_r. lia. }
      assert (Hdiv : (0 <= n / 10 < 2 ^ Z.of_nat (S fuel))%Z).
      { split; [apply Z.div_pos; lia|]. apply Z.div_lt_upper_bound; lia. }
      destruct (IH (n / 10)%Z (digit_char (n mod 10) :: acc) Hdiv) as (ds & Hds & Ha & Hv).
      destruct (digit_char_val (n mod 10)) as [Hd Hdv].
      { pose proof (Z.mod_pos_bound n 10). lia. }
      exists (ds ++ [digit_char (n mod 10)])%list. split; [|split].
      * rewrite Hds, <- app_assoc. reflexivity.
      * destruct ds as [|c ds]; [discriminate|]. simpl in *.
        apply andb_true_iff in Ha as [Hc Ha]. rewrite Hc, forallb_app, Ha. simpl.
        now rewrite Hd.
      * rewrite digits_val_snoc, Hv, Hdv. symmetry. apply Z.div_mod. lia.
Qed.

(** [int(str(n))] is [n]. *)
Lemma py_int_py_str n : py_int (py_str n) = Some n.
Proof.
  assert (Hfuel : forall m, (0 <= m)%Z ->
            (0 <= m < 2 ^ Z.of_nat (S (Z.to_nat (Z.log2 m))))%Z).
  { intros m Hm. split; [exact Hm|].
    rewrite Nat2Z.inj_succ, Z2Nat.id by apply Z.log2_nonneg.
    destruct (Z.eq_dec m 0%Z) as [->|Hne]; [reflexivity|].
    apply Z.log2_spec. lia. }
  unfold py_str. destruct (n <? 0)%Z eqn:Hneg.
  - apply Z.ltb_lt in Hneg.
    assert (Hpos : (0 <= - n)%Z) by lia.
    destruct (decimal_val (Z.to_nat (Z.log2 (- n))) (- n)%Z [] (Hfuel _ Hpos))
      as (ds & -> & Ha & Hv).
    rewrite app_nil_r. unfold py_int. rewrite chars_str.
    change (Ascii.eqb "-" "-") with true. cbv iota. rewrite Ha, Hv. f_equal. lia.
  - apply Z.ltb_ge in Hneg.
    destruct (decimal_val (Z.to_nat (Z.log2 n)) n [] (Hfuel _ Hneg)) as (ds & -> & Ha & Hv).
    rewrite app_nil_r, (py_int_digits ds Ha). now rewrite Hv.
Qed.

(** ** The response *)

Section ResponseFacts.
Context {callback input : Type}.
Variable responses : gmap Z (string * string).
Variable encode : string -> option string -> outcome (list Byte.byte).
Variable parse_qsl : string -> list (string * string).
Variable field_storage : input -> gmap string string ->
                         outcome (list (string * list string)).
Variable invoke : callback -> list value -> gmap string value ->
                  Request.t input -> Response.t -> outcome (returned * Response.t).

Ltac response_fields :=
  unfold Response.set_status, Response.set_media_type, Response.set_body,
    Response.add_header, Response.__init__;
  cbn [Response.body Response.charset Response.status Response.media_type
       Response._headers Response.state mbind outcome_bind mret outcome_ret].

(** X18. When [response] returns, it has passed to [start] the headers
    that the response had, then [Content-Type] unless the media type is
    [None], then [Content-Length]; it returns one byte string, and the
    value of [Content-Length] reads back, with [int], as its length. *)
Theorem response_headers resp resp' line hs outs :
  Response.response responses encode resp = Done (resp', (line, hs), outs) ->
  exists out len,
    outs = [out]
    /\ hs = (Response._headers resp
             ++ match Response.content_type resp with
                | Some ct => [("Content-Type", ct)]
                | None => []
                end
             ++ [("Content-Length", len)])%list
    /\ py_int len = Some (Z.of_nat (List.length out))
    /\ Response._headers resp' = hs.
Proof.
  unfold Response.response.
  destruct (match Response.body resp with
            | RStr s => encode s (Response.charset resp)
            | RBytes b => Done b
            | _ => Done []
            end) as [out|e]; [|discriminate].
  cbn [mbind outcome_bind].
  destruct (Response.status_line _ _) as [l|e]; [|discriminate].
  cbn [mbind outcome_bind mret outcome_ret]. intros H. injection H as <- <- <- <-.
  exists out, (py_str (Z.of_nat (List.length out))).
  split; [reflexivity|]. split; [|split; [apply py_int_py_str | reflexivity]].
  unfold Response.add_header.
  destruct (Response.content_type resp); cbn [Response._headers];
    now rewrite <- ?app_assoc.
Qed.

(** X19. With no error page registered for a status of the table, nor
    for all, the application answers the status with its status line as
    a page: the status line for [start], the media type [text/plain], and
    the encoded status line as the body. *)
Theorem respond_rudimentary (self : Ice.t callback) req n phrase detail out :
  responses !! n = Some (phrase, detail) ->
  Ice._error_handlers self !! Some n = None ->
  Ice._error_handlers self !! None = None ->
  encode (py_str n ++ " " ++ phrase) (Some "UTF-8") = Done out ->
  exists resp',
    Ice.respond responses encode invoke self req (RInt n) Response.__init__
    = Done (resp',
            (py_str n ++ " " ++ phrase,
             [("Content-Type", "text/plain; charset=UTF-8");
              ("Content-Length", py_str (Z.of_nat (List.length out)))]),
            [out])
    /\ Response.status resp' = n
    /\ Response.body resp' = RStr (py_str n ++ " " ++ phrase).
Proof.
  intros Hn Hs Hf Henc. unfold Ice.respond.
  rewrite bool_decide_eq_true_2 by (rewrite Hn; eauto).
  unfold Ice._get_error_page_callback. response_fields. rewrite Hs, Hf.
  unfold Ice.call_page, Response.status_line. response_fields. rewrite Hn.
  response_fields. unfold Response.response. response_fields. rewrite Henc.
  unfold Response.content_type. response_fields.
  change (startswith "text/plain" "text/") with true. cbv iota.
  response_fields. unfold Response.status_line. response_fields. rewrite Hn.
  response_fields. eexists. split; [reflexivity|]. split; reflexivity.
Qed.

(** X20. A request that resolves to a callback which returns a string and
    leaves the response as it is gets the status 200, the content type
    [text/html; charset=UTF-8] and the encoded string as the body; the
    request is the one that [Request.__init__] builds from the
    environment. *)
Theorem call_str_callback (self : Ice.t callback) env req cb args kwargs s phrase detail out :
  Request.__init__ parse_qsl field_storage env = Done req ->
  Router.resolve (Ice.router self) (Request.method req) (Request.path req)
  = Ok (Some (cb, args, kwargs)) ->
  invoke cb args kwargs req Response.__init__ = Done (RStr s, Response.__init__) ->
  encode s (Some "UTF-8") = Done out ->
  responses !! 200%Z = Some (phrase, detail) ->
  exists resp',
    Ice.__call__ responses encode parse_qsl field_storage invoke self env
    = Done (resp',
            ("200 " ++ phrase,
             [("Content-Type", "text/html; charset=UTF-8");
              ("Content-Length", py_str (Z.of_nat (List.length out)))]),
            [out]).
Proof.
  intros Hreq Hres Hcb Henc Hn. unfold Ice.__call__. rewrite Hreq.
  cbn [mbind outcome_bind]. unfold Ice.dispatch.
  rewrite Hres. cbn [of_result mbind outcome_bind]. rewrite Hcb.
  cbn [mbind outcome_bind]. unfold Ice.respond.
  cbn [mbind outcome_bind mret outcome_ret].
  unfold Response.response. response_fields. rewrite Henc.
  unfold Response.content_type. response_fields.
  change (startswith "text/html" "text/") with true. cbv iota.
  response_fields. unfold Response.status_line. response_fields. rewrite Hn.
  response_fields. change (py_str 200) with "200".
  eexists. reflexivity.
Qed.
End ResponseFacts.

Lemma response_headers_witness :
  exists out len,
    [map byte_of_ascii (chars "hi")] = [out]
    /\ [("Content-Type", "text/html; charset=UTF-8"); ("Content-Length", "2")]
       = (Response._headers (Response.set_body (RStr "hi") Response.__init__)
          ++ match Response.content_type (Response.set_body (RStr "hi") Response.__init__) with
             | Some ct => [("Content-Type", ct)]
             | None => []
             end
          ++ [("Content-Length", len)])%list
    /\ py_int len = Some (Z.of_nat (List.length out))
    /\ Response._headers
         (Response.Make 200 (Some "text/html") (Some "UTF-8")
            [("Content-Type", "text/html; charset=UTF-8"); ("Content-Length", "2")]
            (RStr "hi") ∅)
       = [("Content-Type", "text/html; charset=UTF-8"); ("Content-Length", "2")].
Proof.
  assert (H : Response.response example_responses example_encode
                (Response.set_body (RStr "hi") Response.__init__)
              = Done (Response.Make 200 (Some "text/html") (Some "UTF-8")
                        [("Content-Type", "text/html; charset=UTF-8");
                         ("Content-Length", "2")]
                        (RStr "hi") ∅,
                      ("200 OK",
                       [("Content-Type", "text/html; charset=UTF-8");
                        ("Content-Length", "2")]),
                      [map byte_of_ascii (chars "hi")]))
    by (vm_compute; reflexivity).
  exact (response_headers example_responses example_encode _ _ _ _ _ H).
Defined.

Lemma respond_rudimentary_witness :
  exists resp',
    Ice.respond example_responses example_encode example_invoke
      (Ice.__init__ : Ice.t nat) (example_request "GET" "/")
      (RInt 404) Response.__init__
    = Done (resp',
            (py_str 404 ++ " " ++ "Not Found",
             [("Content-Type", "text/plain; charset=UTF-8");
              ("Content-Length",
               py_str (Z.of_nat (List.length (map byte_of_ascii (chars "404 Not Found")))))]),
            [map byte_of_ascii (chars "404 Not Found")])
    /\ Response.status resp' = 404%Z
    /\ Response.body resp' = RStr (py_str 404 ++ " " ++ "Not Found").
Proof.
  assert (H1 : example_responses !! 404%Z
               = Some ("Not Found", "Nothing matches the given URI"))
    by (vm_compute; reflexivity).
  assert (H2 : Ice._error_handlers (Ice.__init__ : Ice.t nat) !! Some 404%Z = None)
    by (vm_compute; reflexivity).
  assert (H3 : Ice._error_handlers (Ice.__init__ : Ice.t nat) !! None = None)
    by (vm_compute; reflexivity).
  assert (H4 : example_encode (py_str 404 ++ " " ++ "Not Found") (Some "UTF-8")
               = Done (map byte_of_ascii (chars "404 Not Found")))
    by (vm_compute; reflexivity).
  exact (respond_rudimentary example_responses example_encode example_invoke
           Ice.__init__ _ 404%Z _ _ _ H1 H2 H3 H4).
Defined.

Lemma call_str_callback_witness :
  exists resp',
    Ice.__call__ example_responses example_encode example_parse_qsl example_fields
      example_invoke
      (decorate example_compile [Route "GET" "/" 7%nat] Ice.__init__)
      (example_environ "GET" "/")
    = Done (resp',
            ("200 " ++ "OK",
             [("Content-Type", "text/html; charset=UTF-8");
              ("Content-Length",
               py_str (Z.of_nat (List.length (map byte_of_ascii (chars "7")))))]),
            [map byte_of_ascii (chars "7")]).
Proof.
  assert (H0 : Request.__init__ example_parse_qsl example_fields (example_environ "GET" "/")
               = Done (example_request "GET" "/")) by (vm_compute; reflexivity).
  assert (H1 : Router.resolve
                 (Ice.router (decorate example_compile [Route "GET" "/" 7%nat] Ice.__init__))
                 (Request.method (example_request "GET" "/"))
                 (Request.path (example_request "GET" "/"))
               = Ok (Some (7%nat, [], ∅))) by (vm_compute; reflexivity).
  assert (H2 : example_invoke 7%nat [] ∅ (example_request "GET" "/") Response.__init__
               = Done (RStr "7", Response.__init__)) by (vm_compute; reflexivity).
  assert (H3 : example_encode "7" (Some "UTF-8") = Done (map byte_of_ascii (chars "7")))
    by (vm_compute; reflexivity).
  assert (H4 : example_responses !! 200%Z
               = Some ("OK", "Request fulfilled, document follows"))
    by (vm_compute; reflexivity).
  exact (call_str_callback example_responses example_encode example_parse_qsl
           example_fields example_invoke _ _ _ _ _ _ _ _ _ _ H0 H1 H2 H3 H4).
Defined.

(** ** The request *)

Section RequestFacts.
Context {input : Type}.
Variable parse_qsl : string -> list (string * string).
Variable field_storage : input -> gmap string string ->
                         outcome (list (string * list string)).

Lemma assign_app {V : Type} (a b : list (string * V)) self :
  MultiDict.assign (a ++ b) self = MultiDict.assign b (MultiDict.assign a self).
Proof. unfold MultiDict.assign. apply fold_left_app. Qed.

Lemma assign_getall {V : Type} (items : list (string * V)) key d :
  MultiDict.getall (MultiDict.assign items MultiDict.__init__) key d
  = match values_of key items with
    | [] => d
    | vs => vs
    end.
Proof.
  unfold MultiDict.getall, MultiDict.__init__. rewrite assign_lookup. simpl.
  rewrite lookup_empty. now destruct (values_of key items).
Qed.

(** The two loops over the fields are one loop over the items. *)
Lemma fields_assign (fs : list (string * list string)) : forall self,
  fold_left (fun d kvs =>
               fold_left (fun d v => MultiDict.__setitem__ (fst kvs) v d) (snd kvs) d)
    fs self
  = MultiDict.assign (field_items fs) self.
Proof.
  induction fs as [|[k vs] fs IH]; intros self; [reflexivity|].
  cbn [fold_left field_items map List.concat fst snd]. rewrite IH, assign_app. f_equal.
  clear IH. revert self. induction vs as [|v vs IHv]; intros self; [reflexivity|].
  cbn [fold_left map]. rewrite IHv. reflexivity.
Qed.

(** X21. [Request.__init__] raises what the field storage of the input
    raises, and builds the request otherwise. The path of the request is
    never empty; [query.getall] of a key is the list of the values that
    the pairs of the query string give to the key, in order;
    [form.getall] of a key is the list of the values that the fields of
    the input give to it, in order; each is the default when there is no
    value, no query string or no input. *)
Theorem request_query_form (env : Request.environ_t input) key d :
  match Request.__init__ parse_qsl field_storage env, Request.fields field_storage env with
  | Done req, Done fs =>
      Request.path req <> ""
      /\ MultiDict.getall (Request.query req) key d
         = match Request.vars env !! "QUERY_STRING" with
           | Some q =>
               match values_of key (parse_qsl q) with
               | [] => d
               | vs => vs
               end
           | None => d
           end
      /\ MultiDict.getall (Request.form req) key d
         = match values_of key (field_items fs) with
           | [] => d
           | vs => vs
           end
  | Raised e, Raised e' => e = e'
  | _, _ => False
  end.
Proof.
  unfold Request.__init__, Request.fields.
  assert (Hq : MultiDict.getall
                 match Request.vars env !! "QUERY_STRING" with
                 | Some q => MultiDict.assign (parse_qsl q) MultiDict.__init__
                 | None => MultiDict.__init__
                 end key d
               = match Request.vars env !! "QUERY_STRING" with
                 | Some q =>
                     match values_of key (parse_qsl q) with
                     | [] => d
                     | vs => vs
                     end
                 | None => d
                 end).
  { destruct (Request.vars env !! "QUERY_STRING") as [q|]; [apply assign_getall|].
    unfold MultiDict.getall, MultiDict.__init__. simpl. now rewrite lookup_empty. }
  assert (Hp : (if String.eqb (default "/" (Request.vars env !! "PATH_INFO")) ""
                then "/" else default "/" (Request.vars env !! "PATH_INFO")) <> "").
  { destruct (String.eqb_spec (default "/" (Request.vars env !! "PATH_INFO")) "");
      [discriminate | assumption]. }
  destruct (Request.wsgi_input env) as [fp|].
  - destruct (field_storage fp (Request.vars env)) as [fs|e];
      cbn [mbind outcome_bind Request.path Request.query Request.form]; [|reflexivity].
    split; [exact Hp|]. split; [exact Hq|].
    rewrite fields_assign. apply assign_getall.
  - cbn [mbind outcome_bind Request.path Request.query Request.form].
    split; [exact Hp|]. split; [exact Hq|].
    unfold MultiDict.getall, MultiDict.__init__. simpl. now rewrite lookup_empty.
Qed.
End RequestFacts.

(** ** The application of [cube] *)

Section CubeFacts.
Context {input : Type}.
Variable re_compile : string -> option Pattern.
Variable responses : gmap Z (string * string).
Variable encode : string -> option string -> outcome (list Byte.byte).
Variable parse_qsl : string -> list (string * string).
Variable field_storage : input -> gmap string string ->
                         outcome (list (string * list string)).

Lemma cube_app :
  cube re_compile
  = Ok (Ice.Make
          (Router.Make (<["GET" := <["/" := default_home_page]> ∅]> ∅) ∅ ∅)
          (<[None := generic_error_page]> ∅)).
Proof.
  assert (Hn : Router._normalize_pattern "/" = (literal, "/")) by (vm_compute; reflexivity).
  unfold cube, Ice.get, Ice.route, Router.add. rewrite Hn.
  unfold Router.getitem. cbn [Ice.router Ice.__init__ Router._literal Router.__init__].
  rewrite lookup_empty. cbn [mbind result_bind Ice._error_handlers Router._wildcard
                              Router._regex].
  now rewrite insert_insert_eq.
Qed.

(** A router with the one literal route of [cube]. *)
Lemma one_literal_route {callback : Type} (cb : callback) method path :
  Router.resolve (Router.Make (<["GET" := <["/" := cb]> ∅]> ∅) ∅ ∅) method path
  = Ok (if String.eqb method "GET" && String.eqb path "/" then Some (cb, [], ∅) else None)
  /\ Router.contains_method (Router.Make (<["GET" := <["/" := cb]> ∅]> ∅) ∅ ∅) method
     = String.eqb method "GET".
Proof.
  split.
  - unfold Router.resolve, Router._resolve_non_literal_route.
    cbn [Router._literal Router._wildcard Router._regex]. rewrite !lookup_empty.
    destruct (String.eqb_spec method "GET") as [->|Hm].
    + rewrite lookup_insert_eq. destruct (String.eqb_spec path "/") as [->|Hp].
      * now rewrite lookup_insert_eq.
      * rewrite lookup_insert_ne by congruence. now rewrite lookup_empty.
    + rewrite lookup_insert_ne by congruence. now rewrite lookup_empty.
  - apply eq_true_iff_eq. rewrite contains_method_spec.
    cbn [Router._literal Router._wildcard Router._regex]. rewrite !lookup_empty.
    destruct (String.eqb_spec method "GET") as [->|Hm].
    + rewrite lookup_insert_eq. split; eauto.
    + rewrite lookup_insert_ne by congruence. rewrite lookup_empty.
      split; [|discriminate]. intros [[? E]|[[? E]|[? E]]]; discriminate.
Qed.

(** X22. The application of [cube] answers every request that
    [Request.__init__] builds: a GET of [/] with the home page, a GET of
    another path with the error page of 404, and every other method with
    the error page of 501. It raises what [Request.__init__] raises, which
    is what the field storage of the input raises. *)
Theorem cube_call (env : Request.environ_t input) app p404 d404 p501 d501 :
  cube re_compile = Ok app ->
  responses !! 404%Z = Some (p404, d404) ->
  responses !! 501%Z = Some (p501, d501) ->
  Ice.__call__ responses encode parse_qsl field_storage (cube_invoke responses) app env
  = (req ← Request.__init__ parse_qsl field_storage env;
     if String.eqb (Request.method req) "GET"
     then
       if String.eqb (Request.path req) "/"
       then Response.response responses encode
              (Response.set_body (RStr home_page) Response.__init__)
       else Response.response responses encode
              (Response.set_body (RStr (error_page 404 p404 d404))
                 (Response.set_status 404 Response.__init__))
     else Response.response responses encode
            (Response.set_body (RStr (error_page 501 p501 d501))
               (Response.set_status 501 Response.__init__))).
Proof.
  intros Hc H404 H501. rewrite cube_app in Hc. injection Hc as <-.
  unfold Ice.__call__.
  destruct (Request.__init__ parse_qsl field_storage env) as [req|e];
    cbn [mbind outcome_bind]; [|reflexivity].
  unfold Ice.dispatch. cbn [Ice.router].
  destruct (one_literal_route default_home_page (Request.method req) (Request.path req))
    as [Hres Hcon].
  rewrite Hres, Hcon. cbn [of_result mbind outcome_bind].
  assert (Herr : forall n p d, responses !! n = Some (p, d) ->
            Ice.respond responses encode (cube_invoke responses)
              (Ice.Make
                 (Router.Make (<["GET" := <["/" := default_home_page]> ∅]> ∅) ∅ ∅)
                 (<[None := generic_error_page]> ∅))
              req (RInt n) Response.__init__
            = Response.response responses encode
                (Response.set_body (RStr (error_page n p d))
                   (Response.set_status n Response.__init__))).
  { intros n p d Hn. unfold Ice.respond.
    rewrite bool_decide_eq_true_2 by (rewrite Hn; eauto).
    unfold Ice._get_error_page_callback, Response.set_status, Response.__init__.
    cbn [Response.body Response.status Ice._error_handlers].
    rewrite lookup_insert_ne by discriminate. rewrite lookup_empty, lookup_insert_eq.
    unfold Ice.call_page, cube_invoke. rewrite map_to_list_empty.
    unfold Response.status_line, Response.status_detail. cbn [Response.status].
    rewrite Hn. reflexivity. }
  destruct (String.eqb (Request.method req) "GET").
  - destruct (String.eqb (Request.path req) "/").
    + cbn [andb]. unfold cube_invoke. rewrite map_to_list_empty.
      cbn [mbind outcome_bind]. reflexivity.
    + cbn [andb mbind outcome_bind]. exact (Herr _ _ _ H404).
  - cbn [andb mbind outcome_bind]. exact (Herr _ _ _ H501).
Qed.
End CubeFacts.

Lemma cube_call_witness :
  Ice.__call__ example_responses example_encode example_parse_qsl example_fields
    (cube_invoke example_responses)
    (Ice.Make
       (Router.Make (<["GET" := <["/" := default_home_page]> ∅]> ∅) ∅ ∅)
       (<[None := generic_error_page]> ∅))
    (example_environ "GET" "/about")
  = (req ← Request.__init__ example_parse_qsl example_fields (example_environ "GET" "/about");
     if String.eqb (Request.method req) "GET"
     then
       if String.eqb (Request.path req) "/"
       then Response.response example_responses example_encode
              (Response.set_body (RStr home_page) Response.__init__)
       else Response.response example_responses example_encode
              (Response.set_body
                 (RStr (error_page 404 "Not Found" "Nothing matches the given URI"))
                 (Response.set_status 404 Response.__init__))
     else Response.response example_responses example_encode
            (Response.set_body
               (RStr (error_page 501 "Not Implemented"
                        "Server does not support this operation"))
               (Response.set_status 501 Response.__init__))).
Proof.
  assert (H1 : cube example_compile
               = Ok (Ice.Make
                       (Router.Make (<["GET" := <["/" := default_home_page]> ∅]> ∅) ∅ ∅)
                       (<[None := generic_error_page]> ∅)))
    by (vm_compute; reflexivity).
  assert (H2 : example_responses !! 404%Z
               = Some ("Not Found", "Nothing matches the given URI"))
    by (vm_compute; reflexivity).
  assert (H3 : example_responses !! 501%Z
               = Some ("Not Implemented", "Server does not support this operation"))
    by (vm_compute; reflexivity).
  exact (cube_call example_compile example_responses example_encode example_parse_qsl
           example_fields (example_environ "GET" "/about") _ _ _ _ _ H1 H2 H3).
Defined.

(** A request to the application of [cube] with an input whose field
    storage is not indexable gets no answer: the call raises the
    [TypeError] of the loop over the fields. *)
Example cube_input_raises :
  (app ← of_result (cube example_compile);
   Ice.__call__ example_responses example_encode example_parse_qsl not_indexable
     (cube_invoke example_responses) app (input_environ "DELETE" "/"))
  = Raised (Foreign "TypeError").
Proof. vm_compute. reflexivity. Qed.

(** ** Patterns that look like wildcard patterns, and their tokens *)

Lemma startswith_lt s : startswith s "<" = true <-> exists l, chars s = "<"%char :: l.
Proof.
  unfold startswith. destruct s as [|c s].
  - change (String.prefix "<" "") with false.
    split; [intros H; discriminate H | intros [l H]; discriminate H].
  - change (String.prefix "<" (String c s))
      with (if ascii_dec "<" c then String.prefix "" s else false).
    change (chars (String c s)) with (c :: chars s).
    destruct (ascii_dec "<" c) as [<-|Hne].
    + rewrite prefix_empty. split; eauto.
    + split; [intros H; discriminate H | intros [l H]; congruence].
Qed.

Lemma endswith_gt s : endswith s ">" = true <-> exists l, chars s = (l ++ [">"%char])%list.
Proof.
  unfold endswith. change (str (rev (chars ">"))) with ">".
  assert (Hrev : chars s = rev (rev (chars s))) by now rewrite rev_involutive.
  destruct (rev (chars s)) as [|c r].
  - change (String.prefix ">" (str [])) with false.
    split; [intros H; discriminate H|]. intros [l H]. rewrite Hrev in H. now destruct l.
  - change (String.prefix ">" (str (c :: r)))
      with (if ascii_dec ">" c then String.prefix "" (str r) else false).
    change (rev (c :: r)) with (rev r ++ [c])%list in Hrev.
    destruct (ascii_dec ">" c) as [<-|Hne].
    + rewrite prefix_empty. split; eauto.
    + split; [intros H; discriminate H|]. intros [l H]. rewrite Hrev in H.
      apply app_inj_tail in H as [_ H]. congruence.
Qed.

Lemma forallb_impl {X : Type} (f g : X -> bool) l :
  (forall x, f x = true -> g x = true) -> forallb f l = true -> forallb g l = true.
Proof.
  intros Hfg. induction l as [|x l IH]; simpl; [reflexivity|].
  intros H. apply andb_true_iff in H as [Hx Hl]. now rewrite (Hfg x Hx), IH.
Qed.

Lemma not_delim_lt c : WildcardRoute.not_delim c = true -> negb (Ascii.eqb c "<") = true.
Proof.
  unfold WildcardRoute.not_delim. destruct (Ascii.eqb c "<"); [discriminate | reflexivity].
Qed.

(** Among the tokens, the test of [WildcardRoute.__init__] picks those of
    the shape [<...>]. *)
Lemma wildcard_token_shape t :
  token_shape t -> is_wildcard_token t = true ->
  exists v, chars t = ("<"%char :: v ++ [">"%char])%list
            /\ forallb WildcardRoute.not_delim v = true.
Proof.
  intros [Hs | [[Hne Hf] | [-> | [-> | ->]]]] Hw; try discriminate Hw; [exact Hs|].
  unfold is_wildcard_token in Hw.
  apply andb_true_iff in Hw as [Hw _]. apply andb_true_iff in Hw as [_ Hw].
  apply startswith_lt in Hw as [l Hl]. rewrite Hl in Hf. discriminate Hf.
Qed.

Lemma shape_wildcard_token v :
  is_wildcard_token (str ("<"%char :: v ++ [">"%char])) = true.
Proof.
  unfold is_wildcard_token. repeat (apply andb_true_iff; split).
  - reflexivity.
  - apply startswith_lt. rewrite chars_str. eauto.
  - apply endswith_gt. rewrite chars_str. now exists ("<"%char :: v).
Qed.

(** No token has [<] after its first character. *)
Lemma shape_tail t :
  token_shape (str t) -> forallb (fun c => negb (Ascii.eqb c "<")) (tail t) = true.
Proof.
  unfold token_shape. rewrite chars_str.
  assert (Hone : forall s : string, str t = s -> t = chars s).
  { intros s <-. now rewrite chars_str. }
  intros [(v & -> & Hv)|[[Hne Hf]|[H|[H|H]]]];
    try (apply Hone in H; subst t; reflexivity).
  - simpl. rewrite forallb_app, (forallb_impl _ _ v not_delim_lt Hv). reflexivity.
  - destruct t as [|c t]; [discriminate|]. simpl in *.
    apply andb_true_iff in Hf as [_ Hf]. exact (forallb_impl _ _ t not_delim_lt Hf).
Qed.

Lemma matches_wildcard_re st st' :
  matches WildcardRoute._wildcard_re st st' ->
  exists v, forallb WildcardRoute.not_delim v = true
            /\ consumes st st' ("<"%char :: v ++ [">"%char]).
Proof.
  unfold WildcardRoute._wildcard_re. intros H. inversion H; subst; clear H.
  match goal with H : matches (Seq _ _) _ _ |- _ => inversion H; subst; clear H end.
  match goal with H : matches (Star _) _ _ |- _ =>
    apply matches_Star_Cls in H as (v & Hv & Hc2) end.
  match goal with H : matches (Chr "<") _ _ |- _ => apply matches_Chr in H as Hc1 end.
  match goal with H : matches (Chr ">") _ _ |- _ => apply matches_Chr in H as Hc3 end.
  exists v. split; [exact Hv|].
  apply (consumes_app _ _ _ ["<"%char] (v ++ [">"%char]) Hc1).
  exact (consumes_app _ _ _ v [">"%char] Hc2 Hc3).
Qed.

Lemma wildcard_re_some p v w :
  forallb WildcardRoute.not_delim v = true ->
  is_Some (match_at WildcardRoute._wildcard_re p ("<"%char :: v ++ ">"%char :: w)).
Proof.
  intros Hv. unfold match_at, WildcardRoute._wildcard_re.
  rewrite run_Seq, run_Chr_cons, Ascii.eqb_refl, run_Seq.
  cbn [run m_rest]. apply star_cls_some; [exact Hv|].
  rewrite run_Chr_cons, Ascii.eqb_refl. eauto.
Qed.

(** Where the wildcard pattern matches, the tokenizer takes its match:
    it is the first alternative. *)
Lemma tokenize_wildcard p s m :
  match_at WildcardRoute._tokenize_re p s = Some m ->
  is_Some (match_at WildcardRoute._wildcard_re p s) ->
  exists v rest, s = (("<"%char :: v ++ [">"%char]) ++ rest)%list
                 /\ m_end m = (p + List.length ("<"%char :: v ++ [">"%char]))%nat.
Proof.
  unfold match_at, WildcardRoute._tokenize_re. rewrite run_Alt. intros H [x Hx].
  rewrite Hx in H. injection H as <-.
  apply run_sound in Hx as (st' & Hm & Hk). injection Hk as <-.
  apply matches_wildcard_re in Hm as (v & _ & Hr & Hp & _).
  exists v, (m_rest st'). simpl in *. auto.
Qed.

(** One step of the tokenizer. *)
Lemma findall_step fuel p c s :
  exists t rest,
    c :: s = (t ++ rest)%list /\ t <> [] /\ token_shape (str t)
    /\ findall_from WildcardRoute._tokenize_re (S fuel) p (c :: s)
       = str t :: findall_from WildcardRoute._tokenize_re fuel (p + List.length t) rest
    /\ (is_Some (match_at WildcardRoute._wildcard_re p (c :: s)) ->
        is_wildcard_token (str t) = true).
Proof.
  destruct (tokenize_some p c s) as [m Hm].
  pose proof (tokenize_match _ _ _ Hm) as (u & rest & Hs & Hu & Hst & Hen).
  exists u, rest. split; [exact Hs|]. split; [now apply token_shape_nonempty|].
  split; [exact Hu|]. split.
  - cbn [findall_from]. rewrite (search_from_found _ _ _ _ Hm), Hst, Hen, Hs.
    replace (p + List.length u - p)%nat with (List.length u) by lia.
    now rewrite Nat.sub_diag, drop_0, take_app_length, drop_app_length.
  - intros Hw. destruct (tokenize_wildcard _ _ _ Hm Hw) as (v & rest' & Hs' & Hen').
    assert (Hlen : List.length u = List.length ("<"%char :: v ++ [">"%char])) by lia.
    rewrite Hs in Hs'. apply app_inj_1 in Hs' as [-> _]; [|exact Hlen].
    apply shape_wildcard_token.
Qed.

Lemma findall_wildcard fuel : forall s p,
  (List.length s <= fuel)%nat ->
  delimited "<" WildcardRoute.not_delim ">" s ->
  Exists (fun t => is_wildcard_token t = true)
    (findall_from WildcardRoute._tokenize_re fuel p s).
Proof.
  induction fuel as [|fuel IH]; intros s p Hlen (u & v & w & Hs & Hv).
  - subst s. rewrite length_app in Hlen. simpl in Hlen. lia.
  - destruct s as [|c s]; [now destruct u|].
    destruct (findall_step fuel p c s) as (t & rest & Hts & Hne & Hshape & -> & Hwild).
    assert (Hrest : (List.length rest <= fuel)%nat).
    { assert (H : List.length (c :: s) = List.length (t ++ rest)%list) by now rewrite Hts.
      rewrite length_app in H. simpl in *. destruct t; [contradiction | simpl in *; lia]. }
    rewrite Hs in Hts. symmetry in Hts.
    apply app_eq_inv in Hts as [(k & Ht & Hk)|(k & Hu & Hk)].
    + destruct k as [|a k].
      * apply Exists_cons_tl. apply IH; [exact Hrest|].
        exists [], v, w. split; [simpl in Hk; now symmetry | exact Hv].
      * simpl in Hk. injection Hk as <- Hk. destruct u as [|c0 u].
        -- apply Exists_cons_hd. apply Hwild. rewrite Hs. simpl.
           now apply wildcard_re_some.
        -- exfalso. apply shape_tail in Hshape. rewrite Ht in Hshape. simpl in Hshape.
           rewrite forallb_app in Hshape. simpl in Hshape.
           now rewrite andb_false_r in Hshape.
    + apply Exists_cons_tl. apply IH; [exact Hrest|].
      exists k, v, w. split; [exact Hk | exact Hv].
Qed.

Lemma exists_filter {X : Type} (f : X -> bool) l :
  Exists (fun x => f x = true) l <-> List.filter f l <> [].
Proof.
  induction l as [|x l IH]; simpl.
  - split; [inversion 1 | congruence].
  - destruct (f x) eqn:E.
    + split; [discriminate | intros _; now apply Exists_cons_hd].
    + rewrite <- IH. split; [|now apply Exists_cons_tl].
      inversion 1; subst; [congruence | assumption].
Qed.

(** X23. The router and the route agree on what a wildcard is: a pattern
    looks like a wildcard pattern to [WildcardRoute.like] exactly when one
    of its tokens is a wildcard token for [WildcardRoute.__init__]; so the
    route built from a pattern has wildcards exactly when the pattern
    looks like a wildcard pattern. *)
Theorem like_wildcard_token pattern :
  (WildcardRoute.like pattern = true
   <-> Exists (fun t => is_wildcard_token t = true) (WildcardRoute.tokens pattern))
  /\ forall (callback : Type) (cb : callback) self,
       WildcardRoute.__init__ pattern cb = Ok self ->
       (WildcardRoute.like pattern = true <-> WildcardRoute._wildcards self <> []).
Proof.
  assert (Htok : WildcardRoute.like pattern = true
                 <-> Exists (fun t => is_wildcard_token t = true)
                       (WildcardRoute.tokens pattern)).
  { rewrite wildcard_like_spec. unfold has_wildcard, WildcardRoute.tokens, findall. split.
    - apply findall_wildcard. now rewrite chars_length.
    - intros He.
      destruct (findall_tokens (String.length pattern) (chars pattern) 0) as [Hc Hf];
        [now rewrite chars_length|].
      apply Exists_exists in He as (t & Hin & Hw).
      rewrite Forall_forall in Hf. pose proof (Hf t Hin) as Hshape.
      destruct (wildcard_token_shape t Hshape Hw) as (v & Ht & Hv).
      apply list_elem_of_split in Hin as (l1 & l2 & Hl).
      rewrite Hl, map_app, concat_app in Hc. simpl in Hc. rewrite Ht in Hc.
      exists (List.concat (map chars l1)), v, (List.concat (map chars l2)).
      split; [|exact Hv]. rewrite <- Hc. simpl. now rewrite <- app_assoc. }
  split; [exact Htok|].
  intros callback cb self Hinit. rewrite Htok, exists_filter.
  destruct (init_pieces _ _ _ Hinit) as [_ Hlen].
  destruct (List.filter is_wildcard_token (WildcardRoute.tokens pattern)),
           (WildcardRoute._wildcards self); try discriminate Hlen; split; congruence.
Qed.

(** ** Routes that do not match *)

Section AddFrame.
Context {callback : Type}.
Variable re_compile : string -> option Pattern.
Implicit Types (self : Router.t callback) (cb : callback).

(** X24. A call of [add] whose route does not match a path leaves the
    resolution of the path as it was: a literal route of another path, a
    wildcard or a regex route whose [match] returns [None] for the path,
    or a route that [add] fails to build. *)
Theorem add_unmatched_route method pattern cb self method' path :
  match Router._normalize_pattern pattern with
  | (literal, pat) => pat <> path
  | (wildcard, pat) =>
      forall r, WildcardRoute.__init__ pat cb = Ok r -> WildcardRoute.match_ r path = Ok None
  | (regex_type, pat) =>
      forall r, RegexRoute.__init__ re_compile pat cb = Ok r -> RegexRoute.match_ r path = None
  end ->
  Router.resolve (fst (Router.add re_compile method pattern cb self)) method' path
  = Router.resolve self method' path.
Proof.
  destruct (decide (method = method')) as [<-|Hne].
  2:{ intros _.
      destruct (add_lookups_other re_compile method pattern cb self method' Hne)
        as (Hl & Hw & Hr).
      apply resolve_ext; [exact Hl | now rewrite Hw | now rewrite Hr]. }
  unfold Router.add. destruct (Router._normalize_pattern pattern) as [[| |] pat]; intros H.
  - unfold Router.getitem.
    destruct (Router._literal self !! method) as [d|] eqn:E; simpl;
      unfold Router.resolve, Router._resolve_non_literal_route; simpl;
      rewrite lookup_insert_eq, lookup_insert_ne by exact H; rewrite E;
      [reflexivity | now rewrite lookup_empty].
  - destruct (WildcardRoute.__init__ pat cb) as [r|e] eqn:Hi.
    + specialize (H r eq_refl). unfold Router.getitem.
      destruct (Router._wildcard self !! method) as [l|] eqn:E; simpl;
        unfold Router.resolve, Router._resolve_non_literal_route; simpl;
        rewrite lookup_insert_eq, E, ?rev_app_distr; simpl; rewrite H; reflexivity.
    + pose proof (getitem_default (Router._wildcard self) method method) as Hd.
      destruct (Router.getitem [] (Router._wildcard self) method) as [l wc].
      simpl in *. apply resolve_ext; simpl; [reflexivity | exact Hd | reflexivity].
  - destruct (RegexRoute.__init__ re_compile pat cb) as [r|e] eqn:Hi.
    + specialize (H r eq_refl). unfold Router.getitem.
      destruct (Router._regex self !! method) as [l|] eqn:E; simpl;
        unfold Router.resolve, Router._resolve_non_literal_route; simpl;
        rewrite lookup_insert_eq, E, ?rev_app_distr; simpl; rewrite H; reflexivity.
    + pose proof (getitem_default (Router._regex self) method method) as Hd.
      destruct (Router.getitem [] (Router._regex self) method) as [l rx].
      simpl in *. apply resolve_ext; simpl; [reflexivity | reflexivity | exact Hd].
Qed.
End AddFrame.

Lemma add_unmatched_route_witness :
  Router.resolve (fst (Router.add example_compile "GET" "/user/<id:int>/posts" 4%nat
                         example_router)) "GET" "/user/7"
  = Router.resolve example_router "GET" "/user/7".
Proof.
  assert (H : match Router._normalize_pattern "/user/<id:int>/posts" with
              | (literal, pat) => pat <> "/user/7"
              | (wildcard, pat) =>
                  forall r, WildcardRoute.__init__ pat 4%nat = Ok r ->
                            WildcardRoute.match_ r "/user/7" = Ok None
              | (regex_type, pat) =>
                  forall r, RegexRoute.__init__ example_compile pat 4%nat = Ok r ->
                            RegexRoute.match_ r "/user/7" = None
              end).
  { assert (Hn : Router._normalize_pattern "/user/<id:int>/posts"
                 = (wildcard, "/user/<id:int>/posts")) by (vm_compute; reflexivity).
    rewrite Hn. intros r Hr.
    assert (Hi : WildcardRoute.__init__ "/user/<id:int>/posts" 4%nat
                 = Ok (WildcardRoute.Make
                         (compile_pieces [Escaped "/"; Escaped "user"; Escaped "/";
                                          Capture (Wildcard._types_re Wildcard.Tint);
                                          Escaped "/"; Escaped "posts"])
                         [Wildcard.Make "id" Wildcard.Tint] 4%nat))
      by (vm_compute; reflexivity).
    rewrite Hi in Hr. injection Hr as <-. vm_compute. reflexivity. }
  exact (add_unmatched_route example_compile "GET" "/user/<id:int>/posts" 4%nat
           example_router "GET" "/user/7" H).
Defined.
